(** * The rosserial client node handle (ros_lib/ros/node_handle.cpp)

    A shallow embedding of [ros::NodeHandle]: the byte-at-a-time receive
    state machine of [spinOnce], the dispatcher, time synchronisation, topic
    negotiation, the registries and the parameter getters, followed by the
    properties of the protocol that the client's description states.

    Conventions.
    - [int] members (counters, indices, the running checksum) are integers
      of [Z]; node_handle.h, which declares their exact types, is not among
      the sources, so they are taken wide enough for the sums formed here.
      The conversions the source writes out ([static_cast<uint16_t>], the
      store into an [unsigned char] buffer, [% 256]) are kept.  The counter
      getters return [int]: what they report is the count converted to an
      [int] of [int_bits] bits.
    - The registries hold pointers.  A publisher or receiver carries its
      address, a slot holds the object it points to, and a write through one
      pointer ([setId]) shows in every slot that points to the same object.
    - [unsigned long] values (the millisecond clock) wrap modulo
      [2 ^ ulong_bits].
    - The hardware port, the outgoing frame writer ([NodeOutput]) and the
      message codecs are collaborators outside this file's sources.  The port
      is a state with a clock oracle and a queue of pending [read()] results;
      what is handed to the frame writer is recorded in a trace; codecs are
      instances of an interface. *)

From Stdlib Require Import ZArith Lia.
From stdpp Require Import base list strings pretty relations.

Local Open Scope Z_scope.

(** ** Data model *)

(** [ros::Time]: seconds and nanoseconds. *)
Record Time : Type := mkTime { sec : Z; nsec : Z }.

(** [std_msgs::Time], a message with one field. *)
Record std_msgs_Time : Type := mk_std_msgs_Time { data : Time }.

(** A default-constructed [std_msgs::Time] (the "empty" time message). *)
Definition std_msgs_Time_default : std_msgs_Time :=
  {| data := {| sec := 0; nsec := 0 |} |}.

(** [rosserial_msgs::Log] severities. *)
Inductive LogLevel : Type := DEBUG | INFO | WARN | ERROR | FATAL.

(** A C [float], kept as its bit pattern: the handle only copies floats. *)
Record float32 : Type := mkFloat32 { float_bits : Z }.

(** [rosserial_msgs::RequestParamResponse]: each (pointer, length) pair of
    the message is a list, and [x_length] is its length. *)
Record RequestParamResponse : Type := mkRequestParamResponse {
  ints : list Z;
  floats : list float32;
  strings : list string
}.

Definition ints_length (r : RequestParamResponse) : Z := Z.of_nat (length (ints r)).
Definition floats_length (r : RequestParamResponse) : Z := Z.of_nat (length (floats r)).
Definition strings_length (r : RequestParamResponse) : Z := Z.of_nat (length (strings r)).

(** Messages handed to [node_output_.publish]. *)
Inductive Message : Type :=
| MsgTime (m : std_msgs_Time)
| MsgTopicInfo (topic_id : Z) (topic_name message_type : string)
| MsgLog (level : LogLevel) (msg : string)
| MsgRequestParam (name : string).

(** Modelled from the spec: rosserial_ids.h and rosserial_msgs/TopicInfo.h are
    not among the sources; the reserved topic identifiers are those of the
    table of reserved identifiers (0 negotiation / publisher catalogue,
    1 subscriber catalogue, 6 parameter request, 7 log, 10 time). *)
Definition TOPIC_NEGOTIATION : Z := 0.
Definition TOPIC_PUBLISHERS : Z := 0.
Definition TOPIC_SUBSCRIBERS : Z := 1.
Definition ID_PARAMETER_REQUEST : Z := 6.
Definition ID_LOG : Z := 7.
Definition ID_TIME : Z := 10.

(** What a run does that can be seen from outside the handle, in order.
    [EvPublish] is a call of [node_output_.publish]; [EvReceive] a call of a
    receiver's [receive] with the first [data_index_] bytes of the buffer;
    [EvStore] an assignment [message_in[index] = byte]; [EvFrameReady] marks
    the entry of the checksum-valid branch of [spinOnce] with the topic and
    the buffered payload. *)
Inductive Event : Type :=
| EvPublish (topic : Z) (m : Message)
| EvReceive (slot : Z) (payload : list Z)
| EvStore (index : Z) (byte : Z)
| EvFrameReady (topic : Z) (payload : list Z).

(** The receive state machine's states. *)
Inductive State : Type :=
| STATE_FIRST_FF
| STATE_SECOND_FF
| STATE_TOPIC_LOW
| STATE_TOPIC_HIGH
| STATE_SIZE_LOW
| STATE_SIZE_HIGH
| STATE_MESSAGE
| STATE_CHECKSUM.

(** [ros::Publisher] as the handle sees it: the address of the object
    ([pub_this]) and its members. *)
Record Publisher : Type := mkPublisher {
  pub_this : nat;
  pub_id : Z;
  pub_topic_name : string;
  pub_message_type : string
}.

Definition Publisher_setId (id : Z) (p : Publisher) : Publisher :=
  {| pub_this := pub_this p; pub_id := id; pub_topic_name := pub_topic_name p;
     pub_message_type := pub_message_type p |}.

(** [ros::MsgReceiver]: the address of the object ([rcv_this]), identity
    plus the delivery entry point [receive(data, length)]. *)
Record MsgReceiver : Type := mkMsgReceiver {
  rcv_this : nat;
  rcv_id : Z;
  rcv_topic_name : string;
  rcv_message_type : string;
  rcv_receive : list Z -> Z -> bool
}.

Definition MsgReceiver_setId (id : Z) (r : MsgReceiver) : MsgReceiver :=
  {| rcv_this := rcv_this r; rcv_id := id; rcv_topic_name := rcv_topic_name r;
     rcv_message_type := rcv_message_type r; rcv_receive := rcv_receive r |}.

(** Writes through a pointer.  [this] gives an object's address.  After a
    write that leaves the object [x], a slot that showed [y] shows [x] if it
    points to the same object, and [y] as before otherwise. *)
Definition written {A : Type} (this : A -> nat) (x y : A) : A :=
  if (this y =? this x)%nat then x else y.

(** The table of pointers after that write. *)
Definition write_through {A : Type} (this : A -> nat) (x : A)
  (table : list (option A)) : list (option A) :=
  (fun slot : option A => written this x <$> slot) <$> table.

(** The hardware port.  [hw_clock k] is what the k-th call of [time()]
    returns, [hw_rx] the results of the coming calls of [read()] (a negative
    entry is "no byte available"; so is an exhausted queue); the two counters
    count the calls made so far. *)
Record Hardware : Type := mkHardware {
  hw_clock : nat -> Z;
  hw_time_calls : nat;
  hw_rx : list Z;
  hw_reads : nat
}.

(** The members of [ros::NodeHandle].  [hardware_] is the state of the port
    the handle points to; [trace] stands for [node_output_] and the
    receivers' callbacks: the history of what the handle did to them. *)
Record NodeHandle : Type := mkNodeHandle {
  hardware_ : Hardware;
  trace : list Event;
  connected_ : bool;
  param_received_ : bool;
  time_sync_start_ : Z;
  time_sync_end_ : Z;
  sync_time_ : Time;
  state_ : State;
  remaining_data_bytes_ : Z;
  topic_ : Z;
  data_index_ : Z;
  checksum_ : Z;
  invalid_size_error_count_ : Z;
  checksum_error_count_ : Z;
  state_error_count_ : Z;
  malformed_message_error_count_ : Z;
  total_receivers_ : Z;
  message_in : list Z;
  publishers : list (option Publisher);
  receivers : list (option MsgReceiver);
  req_param_resp : RequestParamResponse
}.

(** Assignments to one member: [set_f v nh] is [nh.f = v]. *)
Definition set_hardware_ (v : Hardware) (nh : NodeHandle) : NodeHandle :=
  mkNodeHandle v (trace nh) (connected_ nh) (param_received_ nh)
    (time_sync_start_ nh) (time_sync_end_ nh) (sync_time_ nh) (state_ nh)
    (remaining_data_bytes_ nh) (topic_ nh) (data_index_ nh) (checksum_ nh)
    (invalid_size_error_count_ nh) (checksum_error_count_ nh)
    (state_error_count_ nh) (malformed_message_error_count_ nh)
    (total_receivers_ nh) (message_in nh) (publishers nh) (receivers nh)
    (req_param_resp nh).

Definition set_trace (v : list Event) (nh : NodeHandle) : NodeHandle :=
  mkNodeHandle (hardware_ nh) v (connected_ nh) (param_received_ nh)
    (time_sync_start_ nh) (time_sync_end_ nh) (sync_time_ nh) (state_ nh)
    (remaining_data_bytes_ nh) (topic_ nh) (data_index_ nh) (checksum_ nh)
    (invalid_size_error_count_ nh) (checksum_error_count_ nh)
    (state_error_count_ nh) (malformed_message_error_count_ nh)
    (total_receivers_ nh) (message_in nh) (publishers nh) (receivers nh)
    (req_param_resp nh).

Definition set_connected_ (v : bool) (nh : NodeHandle) : NodeHandle :=
  mkNodeHandle (hardware_ nh) (trace nh) v (param_received_ nh)
    (time_sync_start_ nh) (time_sync_end_ nh) (sync_time_ nh) (state_ nh)
    (remaining_data_bytes_ nh) (topic_ nh) (data_index_ nh) (checksum_ nh)
    (invalid_size_error_count_ nh) (checksum_error_count_ nh)
    (state_error_count_ nh) (malformed_message_error_count_ nh)
    (total_receivers_ nh) (message_in nh) (publishers nh) (receivers nh)
    (req_param_resp nh).

Definition set_param_received_ (v : bool) (nh : NodeHandle) : NodeHandle :=
  mkNodeHandle (hardware_ nh) (trace nh) (connected_ nh) v (time_sync_start_
    nh) (time_sync_end_ nh) (sync_time_ nh) (state_ nh) (remaining_data_bytes_
    nh) (topic_ nh) (data_index_ nh) (checksum_ nh) (invalid_size_error_count_
    nh) (checksum_error_count_ nh) (state_error_count_ nh)
    (malformed_message_error_count_ nh) (total_receivers_ nh) (message_in nh)
    (publishers nh) (receivers nh) (req_param_resp nh).

Definition set_time_sync_start_ (v : Z) (nh : NodeHandle) : NodeHandle :=
  mkNodeHandle (hardware_ nh) (trace nh) (connected_ nh) (param_received_ nh)
    v (time_sync_end_ nh) (sync_time_ nh) (state_ nh) (remaining_data_bytes_
    nh) (topic_ nh) (data_index_ nh) (checksum_ nh) (invalid_size_error_count_
    nh) (checksum_error_count_ nh) (state_error_count_ nh)
    (malformed_message_error_count_ nh) (total_receivers_ nh) (message_in nh)
    (publishers nh) (receivers nh) (req_param_resp nh).

Definition set_time_sync_end_ (v : Z) (nh : NodeHandle) : NodeHandle :=
  mkNodeHandle (hardware_ nh) (trace nh) (connected_ nh) (param_received_ nh)
    (time_sync_start_ nh) v (sync_time_ nh) (state_ nh) (remaining_data_bytes_
    nh) (topic_ nh) (data_index_ nh) (checksum_ nh) (invalid_size_error_count_
    nh) (checksum_error_count_ nh) (state_error_count_ nh)
    (malformed_message_error_count_ nh) (total_receivers_ nh) (message_in nh)
    (publishers nh) (receivers nh) (req_param_resp nh).

Definition set_sync_time_ (v : Time) (nh : NodeHandle) : NodeHandle :=
  mkNodeHandle (hardware_ nh) (trace nh) (connected_ nh) (param_received_ nh)
    (time_sync_start_ nh) (time_sync_end_ nh) v (state_ nh)
    (remaining_data_bytes_ nh) (topic_ nh) (data_index_ nh) (checksum_ nh)
    (invalid_size_error_count_ nh) (checksum_error_count_ nh)
    (state_error_count_ nh) (malformed_message_error_count_ nh)
    (total_receivers_ nh) (message_in nh) (publishers nh) (receivers nh)
    (req_param_resp nh).

Definition set_state_ (v : State) (nh : NodeHandle) : NodeHandle :=
  mkNodeHandle (hardware_ nh) (trace nh) (connected_ nh) (param_received_ nh)
    (time_sync_start_ nh) (time_sync_end_ nh) (sync_time_ nh) v
    (remaining_data_bytes_ nh) (topic_ nh) (data_index_ nh) (checksum_ nh)
    (invalid_size_error_count_ nh) (checksum_error_count_ nh)
    (state_error_count_ nh) (malformed_message_error_count_ nh)
    (total_receivers_ nh) (message_in nh) (publishers nh) (receivers nh)
    (req_param_resp nh).

Definition set_remaining_data_bytes_ (v : Z) (nh : NodeHandle) : NodeHandle :=
  mkNodeHandle (hardware_ nh) (trace nh) (connected_ nh) (param_received_ nh)
    (time_sync_start_ nh) (time_sync_end_ nh) (sync_time_ nh) (state_ nh) v
    (topic_ nh) (data_index_ nh) (checksum_ nh) (invalid_size_error_count_ nh)
    (checksum_error_count_ nh) (state_error_count_ nh)
    (malformed_message_error_count_ nh) (total_receivers_ nh) (message_in nh)
    (publishers nh) (receivers nh) (req_param_resp nh).

Definition set_topic_ (v : Z) (nh : NodeHandle) : NodeHandle :=
  mkNodeHandle (hardware_ nh) (trace nh) (connected_ nh) (param_received_ nh)
    (time_sync_start_ nh) (time_sync_end_ nh) (sync_time_ nh) (state_ nh)
    (remaining_data_bytes_ nh) v (data_index_ nh) (checksum_ nh)
    (invalid_size_error_count_ nh) (checksum_error_count_ nh)
    (state_error_count_ nh) (malformed_message_error_count_ nh)
    (total_receivers_ nh) (message_in nh) (publishers nh) (receivers nh)
    (req_param_resp nh).

Definition set_data_index_ (v : Z) (nh : NodeHandle) : NodeHandle :=
  mkNodeHandle (hardware_ nh) (trace nh) (connected_ nh) (param_received_ nh)
    (time_sync_start_ nh) (time_sync_end_ nh) (sync_time_ nh) (state_ nh)
    (remaining_data_bytes_ nh) (topic_ nh) v (checksum_ nh)
    (invalid_size_error_count_ nh) (checksum_error_count_ nh)
    (state_error_count_ nh) (malformed_message_error_count_ nh)
    (total_receivers_ nh) (message_in nh) (publishers nh) (receivers nh)
    (req_param_resp nh).

Definition set_checksum_ (v : Z) (nh : NodeHandle) : NodeHandle :=
  mkNodeHandle (hardware_ nh) (trace nh) (connected_ nh) (param_received_ nh)
    (time_sync_start_ nh) (time_sync_end_ nh) (sync_time_ nh) (state_ nh)
    (remaining_data_bytes_ nh) (topic_ nh) (data_index_ nh) v
    (invalid_size_error_count_ nh) (checksum_error_count_ nh)
    (state_error_count_ nh) (malformed_message_error_count_ nh)
    (total_receivers_ nh) (message_in nh) (publishers nh) (receivers nh)
    (req_param_resp nh).

Definition set_invalid_size_error_count_ (v : Z) (nh : NodeHandle) : NodeHandle :=
  mkNodeHandle (hardware_ nh) (trace nh) (connected_ nh) (param_received_ nh)
    (time_sync_start_ nh) (time_sync_end_ nh) (sync_time_ nh) (state_ nh)
    (remaining_data_bytes_ nh) (topic_ nh) (data_index_ nh) (checksum_ nh) v
    (checksum_error_count_ nh) (state_error_count_ nh)
    (malformed_message_error_count_ nh) (total_receivers_ nh) (message_in nh)
    (publishers nh) (receivers nh) (req_param_resp nh).

Definition set_checksum_error_count_ (v : Z) (nh : NodeHandle) : NodeHandle :=
  mkNodeHandle (hardware_ nh) (trace nh) (connected_ nh) (param_received_ nh)
    (time_sync_start_ nh) (time_sync_end_ nh) (sync_time_ nh) (state_ nh)
    (remaining_data_bytes_ nh) (topic_ nh) (data_index_ nh) (checksum_ nh)
    (invalid_size_error_count_ nh) v (state_error_count_ nh)
    (malformed_message_error_count_ nh) (total_receivers_ nh) (message_in nh)
    (publishers nh) (receivers nh) (req_param_resp nh).

Definition set_state_error_count_ (v : Z) (nh : NodeHandle) : NodeHandle :=
  mkNodeHandle (hardware_ nh) (trace nh) (connected_ nh) (param_received_ nh)
    (time_sync_start_ nh) (time_sync_end_ nh) (sync_time_ nh) (state_ nh)
    (remaining_data_bytes_ nh) (topic_ nh) (data_index_ nh) (checksum_ nh)
    (invalid_size_error_count_ nh) (checksum_error_count_ nh) v
    (malformed_message_error_count_ nh) (total_receivers_ nh) (message_in nh)
    (publishers nh) (receivers nh) (req_param_resp nh).

Definition set_malformed_message_error_count_ (v : Z) (nh : NodeHandle) : NodeHandle :=
  mkNodeHandle (hardware_ nh) (trace nh) (connected_ nh) (param_received_ nh)
    (time_sync_start_ nh) (time_sync_end_ nh) (sync_time_ nh) (state_ nh)
    (remaining_data_bytes_ nh) (topic_ nh) (data_index_ nh) (checksum_ nh)
    (invalid_size_error_count_ nh) (checksum_error_count_ nh)
    (state_error_count_ nh) v (total_receivers_ nh) (message_in nh)
    (publishers nh) (receivers nh) (req_param_resp nh).

Definition set_total_receivers_ (v : Z) (nh : NodeHandle) : NodeHandle :=
  mkNodeHandle (hardware_ nh) (trace nh) (connected_ nh) (param_received_ nh)
    (time_sync_start_ nh) (time_sync_end_ nh) (sync_time_ nh) (state_ nh)
    (remaining_data_bytes_ nh) (topic_ nh) (data_index_ nh) (checksum_ nh)
    (invalid_size_error_count_ nh) (checksum_error_count_ nh)
    (state_error_count_ nh) (malformed_message_error_count_ nh) v (message_in
    nh) (publishers nh) (receivers nh) (req_param_resp nh).

Definition set_message_in (v : list Z) (nh : NodeHandle) : NodeHandle :=
  mkNodeHandle (hardware_ nh) (trace nh) (connected_ nh) (param_received_ nh)
    (time_sync_start_ nh) (time_sync_end_ nh) (sync_time_ nh) (state_ nh)
    (remaining_data_bytes_ nh) (topic_ nh) (data_index_ nh) (checksum_ nh)
    (invalid_size_error_count_ nh) (checksum_error_count_ nh)
    (state_error_count_ nh) (malformed_message_error_count_ nh)
    (total_receivers_ nh) v (publishers nh) (receivers nh) (req_param_resp
    nh).

Definition set_publishers (v : list (option Publisher)) (nh : NodeHandle) : NodeHandle :=
  mkNodeHandle (hardware_ nh) (trace nh) (connected_ nh) (param_received_ nh)
    (time_sync_start_ nh) (time_sync_end_ nh) (sync_time_ nh) (state_ nh)
    (remaining_data_bytes_ nh) (topic_ nh) (data_index_ nh) (checksum_ nh)
    (invalid_size_error_count_ nh) (checksum_error_count_ nh)
    (state_error_count_ nh) (malformed_message_error_count_ nh)
    (total_receivers_ nh) (message_in nh) v (receivers nh) (req_param_resp
    nh).

Definition set_receivers (v : list (option MsgReceiver)) (nh : NodeHandle) : NodeHandle :=
  mkNodeHandle (hardware_ nh) (trace nh) (connected_ nh) (param_received_ nh)
    (time_sync_start_ nh) (time_sync_end_ nh) (sync_time_ nh) (state_ nh)
    (remaining_data_bytes_ nh) (topic_ nh) (data_index_ nh) (checksum_ nh)
    (invalid_size_error_count_ nh) (checksum_error_count_ nh)
    (state_error_count_ nh) (malformed_message_error_count_ nh)
    (total_receivers_ nh) (message_in nh) (publishers nh) v (req_param_resp
    nh).

Definition set_req_param_resp (v : RequestParamResponse) (nh : NodeHandle) : NodeHandle :=
  mkNodeHandle (hardware_ nh) (trace nh) (connected_ nh) (param_received_ nh)
    (time_sync_start_ nh) (time_sync_end_ nh) (sync_time_ nh) (state_ nh)
    (remaining_data_bytes_ nh) (topic_ nh) (data_index_ nh) (checksum_ nh)
    (invalid_size_error_count_ nh) (checksum_error_count_ nh)
    (state_error_count_ nh) (malformed_message_error_count_ nh)
    (total_receivers_ nh) (message_in nh) (publishers nh) (receivers nh) v.
(** ** Configuration and collaborators *)

(** The compile-time constants of node_handle.h (not among the sources) and
    the widths of [int] and [unsigned long].  [requestParam_time_out] is the default
    argument of [requestParam] that the getters rely on. *)
Class Config : Type := mkConfig {
  int_bits : Z;
  ulong_bits : Z;
  kInputSize : Z;
  kMaxBytesPerSpin : Z;
  kMaxPublishers : Z;
  kMaxSubscribers : Z;
  kConnectionTimeout : Z;
  kSyncPeriod : Z;
  requestParam_time_out : Z
}.

(** Duration arithmetic (ros/time.h and ros/duration.h, not among the
    sources): [Time_add_millis t ms] is the value of [t] after
    [t += Duration::fromMillis(ms)]. *)
Class TimeArith : Type := Time_add_millis : Time -> Z -> Time.

(** The decoding half of the message codec interface:
    [deserialize m buffer length] is the return value of
    [m.deserialize(buffer, length)] (negative on failure) and the message
    object afterwards. *)
Class Msg (M : Type) : Type := deserialize : M -> list Z -> Z -> Z * M.

Section NodeHandle.

Context {config : Config}.
Context {time_arith : TimeArith}.
Context {Time_codec : Msg std_msgs_Time}.
Context {RequestParamResponse_codec : Msg RequestParamResponse}.

(** Conversion to [unsigned long]. *)
Definition ulong (x : Z) : Z := x mod 2 ^ ulong_bits.

(** The value of an integer as an [int] of [int_bits] bits in two's
    complement, and the range in which the conversion changes nothing.
    (Past that range C++ leaves [++] on an [int] undefined; the properties
    below that mention the getters stay inside it.) *)
Definition to_int (x : Z) : Z :=
  (x + 2 ^ (int_bits - 1)) mod 2 ^ int_bits - 2 ^ (int_bits - 1).

Definition is_int (x : Z) : Prop :=
  - 2 ^ (int_bits - 1) <= x < 2 ^ (int_bits - 1).

(** ** The hardware port *)

(** [hardware_->time()] *)
Definition Hardware_time (hw : Hardware) : Z * Hardware :=
  (ulong (hw_clock hw (hw_time_calls hw)),
   {| hw_clock := hw_clock hw; hw_time_calls := S (hw_time_calls hw);
      hw_rx := hw_rx hw; hw_reads := hw_reads hw |}).

(** [hardware_->read()] *)
Definition Hardware_read (hw : Hardware) : Z * Hardware :=
  match hw_rx hw with
  | [] => (-1, {| hw_clock := hw_clock hw; hw_time_calls := hw_time_calls hw;
                  hw_rx := []; hw_reads := S (hw_reads hw) |})
  | b :: rest => (b, {| hw_clock := hw_clock hw; hw_time_calls := hw_time_calls hw;
                        hw_rx := rest; hw_reads := S (hw_reads hw) |})
  end.

(** The two calls made through the handle's pointer [hardware_]. *)
Definition time (nh : NodeHandle) : Z * NodeHandle :=
  let '(t, hw) := Hardware_time (hardware_ nh) in (t, set_hardware_ hw nh).

Definition read (nh : NodeHandle) : Z * NodeHandle :=
  let '(b, hw) := Hardware_read (hardware_ nh) in (b, set_hardware_ hw nh).

(** ** Operations of the handle *)

(** Appending to the trace. *)
Definition emit (e : Event) (nh : NodeHandle) : NodeHandle :=
  set_trace (trace nh ++ [e]) nh.

(** [node_output_.publish(topic, &msg)] *)
Definition publish (topic : Z) (m : Message) (nh : NodeHandle) : NodeHandle :=
  emit (EvPublish topic m) nh.

(** The constructor.  [raw] is the storage the object is built in: the
    members that the initialiser list does not name ([sync_time_],
    [state_error_count_], [message_in], [publishers], [receivers],
    [req_param_resp]) keep what [raw] holds. *)
Definition NodeHandle_ctor (raw : NodeHandle) (hardware : Hardware) : NodeHandle :=
  {| hardware_ := hardware;
     trace := [];
     connected_ := false;
     param_received_ := false;
     time_sync_start_ := 0;
     time_sync_end_ := 0;
     sync_time_ := sync_time_ raw;
     state_ := STATE_FIRST_FF;
     remaining_data_bytes_ := 0;
     topic_ := 0;
     data_index_ := 0;
     checksum_ := 0;
     invalid_size_error_count_ := 0;
     checksum_error_count_ := 0;
     state_error_count_ := state_error_count_ raw;
     malformed_message_error_count_ := 0;
     total_receivers_ := 0;
     message_in := message_in raw;
     publishers := publishers raw;
     receivers := receivers raw;
     req_param_resp := req_param_resp raw |}.

(** [log(byte, msg)] and its five wrappers. *)
Definition log (level : LogLevel) (msg : string) (nh : NodeHandle) : NodeHandle :=
  publish ID_LOG (MsgLog level msg) nh.

Definition logdebug : string -> NodeHandle -> NodeHandle := log DEBUG.
Definition loginfo : string -> NodeHandle -> NodeHandle := log INFO.
Definition logwarn : string -> NodeHandle -> NodeHandle := log WARN.
Definition logerror : string -> NodeHandle -> NodeHandle := log ERROR.
Definition logfatal : string -> NodeHandle -> NodeHandle := log FATAL.

(** [registerReceiver(receiver)]: the result, the receiver after [setId],
    the handle.  The slot takes the pointer, and [setId] writes to the object
    it points to, which slots filled earlier may point to as well. *)
Definition registerReceiver (receiver : MsgReceiver) (nh : NodeHandle)
  : bool * MsgReceiver * NodeHandle :=
  if total_receivers_ nh >=? kMaxSubscribers then (false, receiver, nh)
  else
    let r := MsgReceiver_setId (100 + total_receivers_ nh) receiver in
    let nh := set_receivers
                (<[Z.to_nat (total_receivers_ nh) := Some r]>
                   (write_through rcv_this r (receivers nh))) nh in
    let nh := set_total_receivers_ (total_receivers_ nh + 1) nh in
    (true, r, nh).

(** [reset()] *)
Definition reset (nh : NodeHandle) : NodeHandle :=
  let nh := set_state_ STATE_FIRST_FF nh in
  let nh := set_remaining_data_bytes_ 0 nh in
  let nh := set_topic_ 0 nh in
  let nh := set_data_index_ 0 nh in
  set_checksum_ 0 nh.

(** [requestTimeSync()] *)
Definition requestTimeSync (nh : NodeHandle) : NodeHandle :=
  if time_sync_start_ nh >? 0 then nh
  else
    let '(t, nh) := time nh in
    let nh := set_time_sync_start_ t nh in
    publish ID_TIME (MsgTime std_msgs_Time_default) nh.

(** [snprintf(message, 40, "Time: %lu %lu", sec, nsec)]: at most 39
    characters are kept. *)
Definition time_message (t : Time) : string :=
  String.substring 0 39
    ("Time: " +:+ pretty (sec t) +:+ " " +:+ pretty (nsec t)).

(** [completeTimeSync(data)] *)
Definition completeTimeSync (buffer : list Z) (nh : NodeHandle) : NodeHandle :=
  let '(t, nh) := time nh in
  let nh := set_time_sync_end_ t nh in
  let offset := ulong (time_sync_end_ nh - time_sync_start_ nh) / 2 in
  let '(rc, tm) := deserialize std_msgs_Time_default buffer kInputSize in
  if rc <? 0 then nh
  else
    let nh := set_sync_time_ (data tm) nh in
    let nh := set_sync_time_ (Time_add_millis (sync_time_ nh) offset) nh in
    let nh := set_time_sync_start_ 0 nh in
    logdebug (time_message (sync_time_ nh)) nh.

(** [now()]: the timestamp, and the handle after the clock was read. *)
Definition now (nh : NodeHandle) : Time * NodeHandle :=
  let '(t, nh) := time nh in
  let offset := ulong (t - time_sync_end_ nh) in
  (Time_add_millis (sync_time_ nh) offset, nh).

(** [advertise(publisher)]: the loop over the slots from [i], with [n] slots
    left to visit; the result, the publisher after [setId], the handle.  The
    free slot takes the pointer, and [setId] writes to the object it points
    to, which slots filled earlier may point to as well.  (The back-reference
    set by [setNodeOutput] is not represented.) *)
Fixpoint advertise_from (n : nat) (i : nat) (publisher : Publisher) (nh : NodeHandle)
  : bool * Publisher * NodeHandle :=
  match n with
  | O => (false, publisher, nh)
  | S n' =>
      match publishers nh !! i with
      | Some None =>
          let p := Publisher_setId (Z.of_nat i + 100 + kMaxSubscribers) publisher in
          (true, p,
           set_publishers
             (<[i := Some p]> (write_through pub_this p (publishers nh))) nh)
      | _ => advertise_from n' (S i) publisher nh
      end
  end.

Definition advertise (publisher : Publisher) (nh : NodeHandle)
  : bool * Publisher * NodeHandle :=
  advertise_from (Z.to_nat kMaxPublishers) 0 publisher nh.

(** [negotiateTopics()]: the two loops, each from slot [i] with [n] slots
    left to visit, stopping at the first empty slot. *)
Fixpoint negotiate_publishers (n : nat) (i : nat) (nh : NodeHandle) : NodeHandle :=
  match n with
  | O => nh
  | S n' =>
      match publishers nh !! i with
      | Some (Some p) =>
          negotiate_publishers n' (S i)
            (publish TOPIC_PUBLISHERS
               (MsgTopicInfo (pub_id p) (pub_topic_name p) (pub_message_type p)) nh)
      | _ => nh
      end
  end.

Fixpoint negotiate_receivers (n : nat) (i : nat) (nh : NodeHandle) : NodeHandle :=
  match n with
  | O => nh
  | S n' =>
      match receivers nh !! i with
      | Some (Some r) =>
          negotiate_receivers n' (S i)
            (publish TOPIC_SUBSCRIBERS
               (MsgTopicInfo (rcv_id r) (rcv_topic_name r) (rcv_message_type r)) nh)
      | _ => nh
      end
  end.

Definition negotiateTopics (nh : NodeHandle) : NodeHandle :=
  let nh := negotiate_publishers (Z.to_nat kMaxPublishers) 0 nh in
  negotiate_receivers (Z.to_nat kMaxSubscribers) 0 nh.

(** ** The receive state machine *)

(** [message_in[index] = input_byte]: the byte is converted to
    [unsigned char]; the index of the store is recorded.  Outside the array
    the store is undefined in the source; here it leaves the list alone when
    past the end, and the no-overflow theorem below shows that no handle
    built by the constructor and the operations stores outside the array. *)
Definition store (index : Z) (input_byte : Z) (nh : NodeHandle) : NodeHandle :=
  let b := input_byte mod 256 in
  emit (EvStore index b)
    (set_message_in (<[Z.to_nat index := b]> (message_in nh)) nh).

(** The buffered payload: the first [data_index_] bytes of [message_in]. *)
Definition payload_in (nh : NodeHandle) : list Z :=
  take (Z.to_nat (data_index_ nh)) (message_in nh).

(** The body of the branch [(checksum_ % 256) == 255] of [spinOnce]: the
    chain of tests on [topic_]. *)
Definition dispatch (nh : NodeHandle) : NodeHandle :=
  let nh := emit (EvFrameReady (topic_ nh) (payload_in nh)) nh in
  if topic_ nh =? TOPIC_NEGOTIATION then
    negotiateTopics (requestTimeSync nh)
  else if topic_ nh =? ID_TIME then
    set_connected_ true (completeTimeSync (message_in nh) nh)
  else if topic_ nh =? ID_PARAMETER_REQUEST then
    let '(rc, resp) := deserialize (req_param_resp nh) (message_in nh) kInputSize in
    let nh := set_req_param_resp resp nh in
    if rc >=? 0 then set_param_received_ true nh else nh
  else
    match
      (if (topic_ nh >=? 100) && (topic_ nh - 100 <? kMaxSubscribers)
       then receivers nh !! Z.to_nat (topic_ nh - 100) else None)
    with
    | Some (Some r) =>
        let success := rcv_receive r (message_in nh) (data_index_ nh) in
        let nh := emit (EvReceive (topic_ nh - 100) (payload_in nh)) nh in
        if negb success then
          set_malformed_message_error_count_ (malformed_message_error_count_ nh + 1) nh
        else nh
    | _ => set_checksum_error_count_ (checksum_error_count_ nh + 1) nh
    end.

(** One iteration of the loop of [spinOnce] once [read()] has delivered
    [input_byte]: [checksum_ += input_byte] and the [switch] on [state_]. *)
Definition ingest (input_byte : Z) (nh : NodeHandle) : NodeHandle :=
  let nh := set_checksum_ (checksum_ nh + input_byte) nh in
  match state_ nh with
  | STATE_FIRST_FF =>
      if input_byte =? 255 then set_state_ STATE_SECOND_FF nh
      else reset (set_state_error_count_ (state_error_count_ nh + 1) nh)
  | STATE_SECOND_FF =>
      if input_byte =? 255 then set_state_ STATE_TOPIC_LOW nh
      else reset (set_state_error_count_ (state_error_count_ nh + 1) nh)
  | STATE_TOPIC_LOW =>
      let nh := set_checksum_ input_byte nh in
      let nh := set_topic_ input_byte nh in
      set_state_ STATE_TOPIC_HIGH nh
  | STATE_TOPIC_HIGH =>
      let nh := set_topic_ (topic_ nh + Z.shiftl input_byte 8) nh in
      set_state_ STATE_SIZE_LOW nh
  | STATE_SIZE_LOW =>
      let nh := set_remaining_data_bytes_ input_byte nh in
      set_state_ STATE_SIZE_HIGH nh
  | STATE_SIZE_HIGH =>
      let nh := set_remaining_data_bytes_
                  (remaining_data_bytes_ nh + Z.shiftl (input_byte mod 65536) 8) nh in
      if remaining_data_bytes_ nh =? 0 then set_state_ STATE_CHECKSUM nh
      else if remaining_data_bytes_ nh <=? kInputSize then set_state_ STATE_MESSAGE nh
      else
        let nh := reset nh in
        set_invalid_size_error_count_ (invalid_size_error_count_ nh + 1) nh
  | STATE_MESSAGE =>
      let nh := store (data_index_ nh) input_byte nh in
      let nh := set_data_index_ (data_index_ nh + 1) nh in
      let nh := set_remaining_data_bytes_ (remaining_data_bytes_ nh - 1) nh in
      if remaining_data_bytes_ nh =? 0 then set_state_ STATE_CHECKSUM nh else nh
  | STATE_CHECKSUM =>
      let nh := if Z.rem (checksum_ nh) 256 =? 255 then dispatch nh else nh in
      reset nh
  end.

(** Feeding a sequence of bytes to the state machine, one at a time. *)
Definition feed (bytes : list Z) (nh : NodeHandle) : NodeHandle :=
  fold_left (fun nh b => ingest b nh) bytes nh.

(** The housekeeping at the head of [spinOnce], given the sampled time. *)
Definition check_connection (current_time : Z) (nh : NodeHandle) : NodeHandle :=
  if connected_ nh then
    let nh :=
      if ulong (current_time - time_sync_end_ nh) >? kConnectionTimeout then
        let nh := set_connected_ false nh in
        let nh := set_time_sync_start_ 0 nh in
        reset nh
      else nh in
    if ulong (current_time - time_sync_end_ nh) >? kSyncPeriod then
      requestTimeSync nh
    else nh
  else nh.

(** The [for] loop of [spinOnce] with [n] iterations left. *)
Fixpoint spin_loop (n : nat) (byte_count : Z) (nh : NodeHandle) : Z * NodeHandle :=
  match n with
  | O => (byte_count, nh)
  | S n' =>
      let '(input_byte, nh) := read nh in
      if input_byte <? 0 then (byte_count, nh)
      else spin_loop n' (byte_count + 1) (ingest input_byte nh)
  end.

(** [spinOnce()] *)
Definition spinOnce (nh : NodeHandle) : Z * NodeHandle :=
  let '(current_time, nh) := time nh in
  let nh := check_connection current_time nh in
  spin_loop (Z.to_nat kMaxBytesPerSpin) 0 nh.

(** The four getters return [int]. *)
Definition getInvalidSizeErrorCount (nh : NodeHandle) : Z :=
  to_int (invalid_size_error_count_ nh).
Definition getChecksumErrorCount (nh : NodeHandle) : Z :=
  to_int (checksum_error_count_ nh).
Definition getStateErrorCount (nh : NodeHandle) : Z :=
  to_int (state_error_count_ nh).
Definition getMalformedMessageErrorCount (nh : NodeHandle) : Z :=
  to_int (malformed_message_error_count_ nh).

(** [connected()] *)
Definition connected (nh : NodeHandle) : bool := connected_ nh.

(** ** Parameters *)

(** The [while] loop of [requestParam].  It need not terminate (a silent host
    and a stopped clock), so it runs on fuel: [None] is "fuel exhausted". *)
Fixpoint requestParam_wait (fuel : nat) (start_time time_out : Z) (nh : NodeHandle)
  : option (bool * NodeHandle) :=
  if param_received_ nh then Some (true, nh)
  else
    match fuel with
    | O => None
    | S fuel' =>
        let '(_, nh) := spinOnce nh in
        let '(t, nh) := time nh in
        if ulong (t - start_time) >? ulong time_out then Some (false, nh)
        else requestParam_wait fuel' start_time time_out nh
    end.

(** [requestParam(name, time_out)] *)
Definition requestParam (fuel : nat) (name : string) (time_out : Z) (nh : NodeHandle)
  : option (bool * NodeHandle) :=
  let nh := set_param_received_ false nh in
  let nh := publish ID_PARAMETER_REQUEST (MsgRequestParam name) nh in
  let '(start_time, nh) := time nh in
  requestParam_wait fuel start_time time_out nh.

(** [for (int i = 0; i < length; i++) param[i] = src[i];] from index [i],
    with [n] iterations left. *)
Fixpoint copy_from {A : Type} (n : nat) (i : nat) (src param : list A) : list A :=
  match n with
  | O => param
  | S n' =>
      match src !! i with
      | Some x => copy_from n' (S i) src (<[i := x]> param)
      | None => param
      end
  end.

(** The three overloads of [getParam(name, param, length)]: the result, the
    caller's array afterwards, and the handle.  For strings the assignment of
    the loop is [strcpy(param[i], strings[i])], which replaces the contents
    of the caller's i-th buffer. *)
Definition getParam_with {A : Type} (field : RequestParamResponse -> list A)
  (fuel : nat) (name : string) (param : list A) (length : Z) (nh : NodeHandle)
  : option (bool * list A * NodeHandle) :=
  match requestParam fuel name requestParam_time_out nh with
  | None => None
  | Some (ok, nh) =>
      if ok && (length =? Z.of_nat (List.length (field (req_param_resp nh)))) then
        Some (true, copy_from (Z.to_nat length) 0 (field (req_param_resp nh)) param, nh)
      else Some (false, param, nh)
  end.

Definition getParam_int := getParam_with ints.
Definition getParam_float := getParam_with floats.
Definition getParam_string := getParam_with strings.

(** ** Vocabulary of the statements *)

(** The occupied slots of a registry table up to the first empty one. *)
Fixpoint occupied {A : Type} (slots : list (option A)) : list A :=
  match slots with
  | Some x :: rest => x :: occupied rest
  | _ => []
  end.

Definition publisher_info (p : Publisher) : Event :=
  EvPublish TOPIC_PUBLISHERS
    (MsgTopicInfo (pub_id p) (pub_topic_name p) (pub_message_type p)).

Definition receiver_info (r : MsgReceiver) : Event :=
  EvPublish TOPIC_SUBSCRIBERS
    (MsgTopicInfo (rcv_id r) (rcv_topic_name r) (rcv_message_type r)).

(** The topic catalogue: one record per occupied publisher slot, then one per
    occupied receiver slot. *)
Definition catalogue (nh : NodeHandle) : list Event :=
  map publisher_info (occupied (take (Z.to_nat kMaxPublishers) (publishers nh)))
  ++ map receiver_info (occupied (take (Z.to_nat kMaxSubscribers) (receivers nh))).

(** The frame of the wire format for a topic, a payload and a checksum
    byte. *)
Definition frame (topic : Z) (payload : list Z) (checksum : Z) : list Z :=
  [255; 255; topic mod 256; topic / 256;
   Z.of_nat (length payload) mod 256; Z.of_nat (length payload) / 256]
  ++ payload ++ [checksum].

Definition sum_bytes (bytes : list Z) : Z := fold_right Z.add 0 bytes.

(** The checksum law: topic, size, payload and checksum bytes add up to 255
    modulo 256. *)
Definition checksum_ok (topic : Z) (payload : list Z) (checksum : Z) : Prop :=
  (topic mod 256 + topic / 256
   + Z.of_nat (length payload) mod 256 + Z.of_nat (length payload) / 256
   + sum_bytes payload + checksum) mod 256 = 255.

Definition is_byte (b : Z) : Prop := 0 <= b <= 255.

Definition is_store (e : Event) : bool :=
  match e with EvStore _ _ => true | _ => false end.

Definition is_frame_ready (e : Event) : bool :=
  match e with EvFrameReady _ _ => true | _ => false end.

Definition is_receive (e : Event) : bool :=
  match e with EvReceive _ _ => true | _ => false end.

Definition is_publish (e : Event) : bool :=
  match e with EvPublish _ _ => true | _ => false end.

(** A store that stays inside [message_in]. *)
Definition store_in_bounds (e : Event) : Prop :=
  match e with
  | EvStore index _ => 0 <= index < kInputSize
  | _ => True
  end.

(** The invariant of the receive state machine: where the write index and
    the count of outstanding payload bytes stand in each state. *)
Definition rx_inv (nh : NodeHandle) : Prop :=
  match state_ nh with
  | STATE_MESSAGE =>
      0 <= data_index_ nh /\ 0 < remaining_data_bytes_ nh /\
      data_index_ nh + remaining_data_bytes_ nh <= kInputSize
  | STATE_CHECKSUM => True
  | STATE_SIZE_HIGH => data_index_ nh = 0 /\ 0 <= remaining_data_bytes_ nh
  | _ => data_index_ nh = 0
  end.

(** The four error counters of [nh'] are at least those of [nh]. *)
Definition counters_le (nh nh' : NodeHandle) : Prop :=
  invalid_size_error_count_ nh <= invalid_size_error_count_ nh' /\
  checksum_error_count_ nh <= checksum_error_count_ nh' /\
  state_error_count_ nh <= state_error_count_ nh' /\
  malformed_message_error_count_ nh <= malformed_message_error_count_ nh'.

(** Events other than buffer stores and frame-ready marks. *)
Definition quiet (e : Event) : Prop := is_store e = false /\ is_frame_ready e = false.

(** What every operation of the handle but [read()] leaves alone in the
    port: the receive queue, the count of reads and the clock oracle; the
    count of clock readings can only grow. *)
Definition same_port (nh nh' : NodeHandle) : Prop :=
  hw_rx (hardware_ nh') = hw_rx (hardware_ nh) /\
  hw_reads (hardware_ nh') = hw_reads (hardware_ nh) /\
  hw_clock (hardware_ nh') = hw_clock (hardware_ nh) /\
  (hw_time_calls (hardware_ nh) <= hw_time_calls (hardware_ nh'))%nat.

(** The handle [nh] with the members of the receive state machine, the
    buffer and the trace replaced. *)
Definition with_rx (st : State) (remaining topic index sum : Z)
  (buffer : list Z) (tr : list Event) (nh : NodeHandle) : NodeHandle :=
  set_state_ st (set_remaining_data_bytes_ remaining (set_topic_ topic
    (set_data_index_ index (set_checksum_ sum (set_message_in buffer
      (set_trace tr nh)))))).

(** The stores that buffering [payload] from index [i] makes. *)
Fixpoint stores_at (i : Z) (payload : list Z) : list Event :=
  match payload with
  | [] => []
  | b :: rest => EvStore i b :: stores_at (i + 1) rest
  end.

(** The handle just before the checksum byte of a well-formed frame. *)
Definition before_checksum (topic : Z) (payload : list Z) (nh : NodeHandle)
  : NodeHandle :=
  with_rx STATE_CHECKSUM 0 topic (Z.of_nat (length payload))
    (topic mod 256 + topic / 256 + Z.of_nat (length payload) mod 256
     + Z.of_nat (length payload) / 256 + sum_bytes payload)
    (payload ++ drop (length payload) (message_in nh))
    (trace nh ++ stores_at 0 payload) nh.

(** The clock oracle stays and the count of its readings does not shrink. *)
Definition clock_runs (nh nh' : NodeHandle) : Prop :=
  hw_clock (hardware_ nh') = hw_clock (hardware_ nh) /\
  (hw_time_calls (hardware_ nh) <= hw_time_calls (hardware_ nh'))%nat.

(** One call of an operation of the handle's interface. *)
Inductive op_step : NodeHandle -> NodeHandle -> Prop :=
| step_spinOnce nh : op_step nh (snd (spinOnce nh))
| step_advertise publisher nh : op_step nh (snd (advertise publisher nh))
| step_registerReceiver receiver nh :
    op_step nh (snd (registerReceiver receiver nh))
| step_log level msg nh : op_step nh (log level msg nh)
| step_now nh : op_step nh (snd (now nh))
| step_requestParam fuel name time_out nh ok nh' :
    requestParam fuel name time_out nh = Some (ok, nh') -> op_step nh nh'.

(** The second half of the no-overflow claim as it is worded: of a frame
    whose header declares more than [kInputSize] payload bytes, no byte of
    the payload sent behind the header is ever stored. *)
Definition oversize_payload_not_stored (tlo thi slo shi : Z)
  (payload : list Z) (nh : NodeHandle) : Prop :=
  List.filter is_store
    (trace (feed ([255; 255; tlo; thi; slo; shi] ++ payload) nh))
  = List.filter is_store (trace nh).


(** The postconditions of a completed time sync at the byte [b] that ends a
    time frame: [time_sync_end_] is the local time sampled at completion,
    [sync_time_] the decoded timestamp advanced by half the round trip,
    [time_sync_start_] is cleared and the connection is live. *)
Definition time_sync_completed (b : Z) (nh : NodeHandle) : Prop :=
  let t := ulong (hw_clock (hardware_ nh) (hw_time_calls (hardware_ nh))) in
  let tm := snd (deserialize std_msgs_Time_default (message_in nh) kInputSize) in
  time_sync_end_ (ingest b nh) = t /\
  sync_time_ (ingest b nh)
  = Time_add_millis (data tm) (ulong (t - time_sync_start_ nh) / 2) /\
  time_sync_start_ (ingest b nh) = 0 /\
  connected (ingest b nh) = true.

(** ** Vocabulary of reception and of the registries *)

(** The handle after [n] bytes were thrown away at [STATE_FIRST_FF]. *)
Definition after_garbage (n : nat) (nh : NodeHandle) : NodeHandle :=
  match n with
  | O => nh
  | S _ => set_state_error_count_ (state_error_count_ nh + Z.of_nat n) (reset nh)
  end.

(** The handle [nh] with the port's queue and read count replaced. *)
Definition with_queue (rx : list Z) (reads : nat) (nh : NodeHandle) : NodeHandle :=
  set_hardware_
    {| hw_clock := hw_clock (hardware_ nh);
       hw_time_calls := hw_time_calls (hardware_ nh);
       hw_rx := rx; hw_reads := reads |} nh.

(** A registry table of [n] slots whose occupied slots are [xs], in order,
    followed by empty ones. *)
Definition slots {A : Type} (n : Z) (xs : list A) : list (option A) :=
  (Some <$> xs) ++ replicate (Z.to_nat n - length xs) None.

(** The registries of [nh] hold the publishers [ps] and the receivers [rs],
    contiguously from slot 0 and with the identifiers the slots stand for. *)
Definition registry_ok (ps : list Publisher) (rs : list MsgReceiver)
  (nh : NodeHandle) : Prop :=
  publishers nh = slots kMaxPublishers ps /\
  (length ps <= Z.to_nat kMaxPublishers)%nat /\
  receivers nh = slots kMaxSubscribers rs /\
  (length rs <= Z.to_nat kMaxSubscribers)%nat /\
  total_receivers_ nh = Z.of_nat (length rs) /\
  (forall i p, ps !! i = Some p -> pub_id p = Z.of_nat i + 100 + kMaxSubscribers) /\
  (forall i r, rs !! i = Some r -> rcv_id r = 100 + Z.of_nat i).

(** The members an operation may change without touching the registries. *)
Definition same_registry (nh nh' : NodeHandle) : Prop :=
  publishers nh' = publishers nh /\ receivers nh' = receivers nh /\
  total_receivers_ nh' = total_receivers_ nh.

(** The tables hold pointers to the publishers [ps] and the receivers [rs],
    contiguously from slot 0, and the receiver count is the length of
    [rs]. *)
Definition registry_holds (ps : list Publisher) (rs : list MsgReceiver)
  (nh : NodeHandle) : Prop :=
  publishers nh = slots kMaxPublishers ps /\
  (length ps <= Z.to_nat kMaxPublishers)%nat /\
  receivers nh = slots kMaxSubscribers rs /\
  (length rs <= Z.to_nat kMaxSubscribers)%nat /\
  total_receivers_ nh = Z.of_nat (length rs).

(** What one registration does to the occupied slots [xs] of a table: it
    fails and leaves them, or it adds the object [x] with the identifier of
    the new slot, and the slots that point to the same object show it as it
    now is. *)
Definition table_step {A : Type} (this : A -> nat) (id : A -> Z) (base : Z)
  (xs xs' : list A) : Prop :=
  xs' = xs \/
  exists x, xs' = (written this x <$> xs) ++ [x] /\
            id x = base + Z.of_nat (length xs).

(** Every registered object shows, in each of its slots, the identifier of
    the last slot it was put in: [base + j] for slot [j]. *)
Definition ids_by_last_slot {A : Type} (this : A -> nat) (id : A -> Z) (base : Z)
  (xs : list A) : Prop :=
  forall i x, xs !! i = Some x ->
  exists j, xs !! j = Some x /\ id x = base + Z.of_nat j /\
            forall k y, xs !! k = Some y -> this y = this x ->
                        y = x /\ (k <= j)%nat.

(** The occupied slots [xs'] are the slots [xs] and more: every slot of
    [xs] still points to the same object, and shows it unchanged when that
    object is not among the ones added behind. *)
Definition grown {A : Type} (this : A -> nat) (xs xs' : list A) : Prop :=
  exists xs1 xs2,
    xs' = xs1 ++ xs2 /\ length xs1 = length xs /\
    forall i x, xs !! i = Some x ->
    exists x', xs1 !! i = Some x' /\ this x' = this x /\
               (Forall (fun y => this y <> this x) xs2 -> x' = x).

(** The handle without the history of what it did. *)
Definition untraced (nh : NodeHandle) : NodeHandle := set_trace [] nh.

(** From [nh] to [nh'] the trace has only grown, and if [param_received_]
    was raised on the way then a frame on the parameter topic was
    dispatched on the way. *)
Definition answer_tracked (nh nh' : NodeHandle) : Prop :=
  exists evs,
    trace nh' = trace nh ++ evs /\
    (param_received_ nh' = true ->
     param_received_ nh = true \/
     exists payload, In (EvFrameReady ID_PARAMETER_REQUEST payload) evs).

End NodeHandle.

(** ** A concrete configuration *)

Module Sketch.

(** The defaults of the configuration table: a 512-byte input buffer, sync
    every 5 s, connection timeout after 15 s; as on the AVR boards of the
    sketch, [int] is 16 bits and [unsigned long] is 32 bits. *)
#[export] Instance config : Config := {|
  int_bits := 16;
  ulong_bits := 32;
  kInputSize := 512;
  kMaxBytesPerSpin := 512;
  kMaxPublishers := 4;
  kMaxSubscribers := 4;
  kConnectionTimeout := 15000;
  kSyncPeriod := 5000;
  requestParam_time_out := 1000
|}.

(** Modelled from the spec: ros/time.h and ros/duration.h are not among the
    sources.  The duration-addition rule: nsec += ms * 1_000_000; sec += nsec
    / 1_000_000_000; nsec %= 1_000_000_000. *)
#[export] Instance time_arith : TimeArith := fun t offset_ms =>
  let n := nsec t + offset_ms * 1000000 in
  {| sec := sec t + n / 1000000000; nsec := n mod 1000000000 |}.

(** Little-endian 32-bit field of a buffer at [offset]. *)
Definition le32 (buffer : list Z) (offset : nat) : Z :=
  buffer !!! offset + 256 * buffer !!! (offset + 1)%nat
  + 65536 * buffer !!! (offset + 2)%nat + 16777216 * buffer !!! (offset + 3)%nat.

(** A time codec: seconds and nanoseconds as two little-endian 32-bit
    fields; a nanosecond field of a second or more is rejected. *)
#[export] Instance Time_codec : Msg std_msgs_Time := fun m buffer _ =>
  let s := le32 buffer 0 in
  let n := le32 buffer 4 in
  if n <? 1000000000 then (8, {| data := {| sec := s; nsec := n |} |})
  else (-1, m).

(** A parameter-response codec: a count byte and that many one-byte
    integers; a count beyond 16 is rejected. *)
#[export] Instance RequestParamResponse_codec : Msg RequestParamResponse :=
  fun m buffer _ =>
  let n := buffer !!! 0%nat in
  if n <=? 16 then
    (1 + n, {| ints := take (Z.to_nat n) (drop 1 buffer);
               floats := []; strings := [] |})
  else (-1, m).

(** A port with the clock oracle [clock] and the pending reads [rx]. *)
Definition port (clock : nat -> Z) (rx : list Z) : Hardware :=
  {| hw_clock := clock; hw_time_calls := 0; hw_rx := rx; hw_reads := 0 |}.

(** A clock that reads [t] every time, and one that starts at 7 ms and is 10
    ms further at every reading. *)
Definition stopped (t : Z) : nat -> Z := fun _ => t.
Definition ticking : nat -> Z := fun k => 7 + 10 * Z.of_nat k.

(** Zero-initialised storage (an object with static storage duration, as
    the global [nh] of time_test.cpp). *)
Definition static_storage : NodeHandle :=
  {| hardware_ := port (stopped 0) [];
     trace := [];
     connected_ := false;
     param_received_ := false;
     time_sync_start_ := 0;
     time_sync_end_ := 0;
     sync_time_ := {| sec := 0; nsec := 0 |};
     state_ := STATE_FIRST_FF;
     remaining_data_bytes_ := 0;
     topic_ := 0;
     data_index_ := 0;
     checksum_ := 0;
     invalid_size_error_count_ := 0;
     checksum_error_count_ := 0;
     state_error_count_ := 0;
     malformed_message_error_count_ := 0;
     total_receivers_ := 0;
     message_in := replicate 512 0;
     publishers := replicate 4 None;
     receivers := replicate 4 None;
     req_param_resp := {| ints := []; floats := []; strings := [] |} |}.

(** Storage with leftover contents (an object on the stack or the heap):
    the word of [state_error_count_] holds -1. *)
Definition stale_storage : NodeHandle :=
  set_state_error_count_ (-1) static_storage.

(** A receiver that accepts every message. *)
Definition bar : MsgReceiver :=
  {| rcv_this := 0; rcv_id := 0; rcv_topic_name := "/bar";
     rcv_message_type := "std_msgs/Float32";
     rcv_receive := fun _ _ => true |}.

Definition foo : Publisher :=
  {| pub_this := 0; pub_id := 0; pub_topic_name := "/foo";
     pub_message_type := "std_msgs/Int32" |}.

(** The handle of a sketch: constructed over a port, one publisher
    advertised and one receiver registered. *)
Definition sketch (hardware : Hardware) : NodeHandle :=
  let nh := NodeHandle_ctor static_storage hardware in
  let nh := snd (advertise foo nh) in
  snd (registerReceiver bar nh).

(** The handle after a negotiation frame and all of a time frame but its
    checksum byte: once with a timestamp the codec accepts (1 s, 2 ns),
    once with a nanosecond field it rejects. *)
Definition awaiting_checksum (payload : list Z) : NodeHandle :=
  feed (frame 0 [] 255 ++ [255; 255; 10; 0; 8; 0] ++ payload)
    (sketch (port ticking [])).

Definition good_time : list Z := [1; 0; 0; 0; 2; 0; 0; 0].
Definition bad_time : list Z := [1; 0; 0; 0; 255; 255; 255; 255].

(** A handle that completed a sync at local time 0 and whose clock reads
    15001 ms from then on. *)
Definition synced_long_ago : NodeHandle :=
  feed (frame 10 good_time 234)
    (sketch (port (fun k => match k with O => 0 | _ => 15001 end) [])).

(** A parameter response with two integers is waiting on the port when the
    getter is called. *)
Definition asking : NodeHandle :=
  sketch (port (stopped 0) (frame 6 [2; 11; 22] 211)).

Definition answered : NodeHandle :=
  match requestParam 1 "gains" requestParam_time_out asking with
  | Some (_, nh) => nh
  | None => asking
  end.

End Sketch.

(** * Properties *)

Section Properties.

Context {config : Config}.
Context {time_arith : TimeArith}.
Context {Time_codec : Msg std_msgs_Time}.
Context {RequestParamResponse_codec : Msg RequestParamResponse}.

(** ** Basic facts *)

Lemma set_trace_set_trace (t1 t2 : list Event) (nh : NodeHandle) :
  set_trace t2 (set_trace t1 nh) = set_trace t2 nh.
Proof. reflexivity. Qed.

Lemma set_trace_id (nh : NodeHandle) : set_trace (trace nh) nh = nh.
Proof. destruct nh; reflexivity. Qed.

Lemma negotiate_publishers_spec (n i : nat) (nh : NodeHandle) :
  negotiate_publishers n i nh =
  set_trace (trace nh ++ map publisher_info
                           (occupied (take n (drop i (publishers nh))))) nh.
Proof.
  revert i nh; induction n as [|n IH]; intros i nh; simpl.
  - rewrite app_nil_r. symmetry; apply set_trace_id.
  - destruct (publishers nh !! i) as [[p|]|] eqn:E.
    + rewrite IH. rewrite (drop_S _ _ _ E). simpl.
      unfold publish, emit. rewrite set_trace_set_trace. simpl.
      rewrite <- app_assoc. reflexivity.
    + rewrite (drop_S _ _ _ E). simpl. rewrite app_nil_r.
      symmetry; apply set_trace_id.
    + rewrite drop_ge by (apply lookup_ge_None; exact E). simpl.
      rewrite app_nil_r. symmetry; apply set_trace_id.
Qed.

Lemma negotiate_receivers_spec (n i : nat) (nh : NodeHandle) :
  negotiate_receivers n i nh =
  set_trace (trace nh ++ map receiver_info
                           (occupied (take n (drop i (receivers nh))))) nh.
Proof.
  revert i nh; induction n as [|n IH]; intros i nh; simpl.
  - rewrite app_nil_r. symmetry; apply set_trace_id.
  - destruct (receivers nh !! i) as [[r|]|] eqn:E.
    + rewrite IH. rewrite (drop_S _ _ _ E). simpl.
      unfold publish, emit. rewrite set_trace_set_trace. simpl.
      rewrite <- app_assoc. reflexivity.
    + rewrite (drop_S _ _ _ E). simpl. rewrite app_nil_r.
      symmetry; apply set_trace_id.
    + rewrite drop_ge by (apply lookup_ge_None; exact E). simpl.
      rewrite app_nil_r. symmetry; apply set_trace_id.
Qed.

Lemma negotiateTopics_spec (nh : NodeHandle) :
  negotiateTopics nh = set_trace (trace nh ++ catalogue nh) nh.
Proof.
  unfold negotiateTopics, catalogue.
  rewrite negotiate_receivers_spec, negotiate_publishers_spec.
  rewrite set_trace_set_trace. simpl. rewrite !drop_0, <- app_assoc.
  reflexivity.
Qed.

Ltac unfold_ops :=
  unfold completeTimeSync, requestTimeSync, check_connection,
    logdebug, log, publish, emit, store, reset, payload_in, time, read,
    Hardware_time, Hardware_read in *;
  try rewrite !negotiateTopics_spec in *.

Lemma quiet_catalogue (nh : NodeHandle) : Forall quiet (catalogue nh).
Proof.
  unfold catalogue. apply Forall_app; split; apply Forall_map, Forall_true;
    intros x; split; reflexivity.
Qed.

Lemma shiftl_8 (x : Z) : Z.shiftl x 8 = x * 256.
Proof. rewrite Z.shiftl_mul_pow2 by lia. reflexivity. Qed.

(** The dispatcher appends the frame-ready mark and then only publishes and
    receiver calls; it leaves the port's queue alone and lowers no counter. *)
Lemma dispatch_summary (nh : NodeHandle) :
  (exists evs,
     trace (dispatch nh)
     = trace nh ++ EvFrameReady (topic_ nh) (payload_in nh) :: evs /\
     Forall quiet evs) /\
  counters_le nh (dispatch nh) /\ same_port nh (dispatch nh) /\
  length (message_in (dispatch nh)) = length (message_in nh) /\
  (connected_ nh = true -> connected_ (dispatch nh) = true).
Proof.
  unfold dispatch, counters_le, same_port.
  cbn [topic_ emit set_trace].
  destruct (topic_ nh =? TOPIC_NEGOTIATION).
  { unfold_ops. cbn. destruct (time_sync_start_ nh >? 0); cbn;
      (split; [eexists; split; [rewrite <- !app_assoc; reflexivity|]|
               repeat split; auto; lia]).
    - apply quiet_catalogue.
    - constructor; [split; reflexivity | apply quiet_catalogue]. }
  destruct (topic_ nh =? ID_TIME).
  { unfold_ops. cbn.
    destruct (deserialize _ _ _) as [rc tm]. destruct (rc <? 0); cbn;
      (split; [eexists; split; [rewrite <- ?app_assoc; reflexivity|]|
               repeat split; auto; lia]).
    - constructor.
    - constructor; [split; reflexivity | constructor]. }
  destruct (topic_ nh =? ID_PARAMETER_REQUEST).
  { unfold_ops. cbn.
    destruct (deserialize _ _ _) as [rc resp]. destruct (rc >=? 0); cbn;
      (split; [eexists; split; [reflexivity| constructor]|
               repeat split; auto; lia]). }
  cbn [receivers message_in data_index_ emit set_trace].
  match goal with
  | |- context [if ?c then receivers nh !! ?i else None] =>
      destruct (if c then receivers nh !! i else None) as [[r|]|]
  end; cbn.
  - destruct (negb _); cbn;
      (split; [eexists; split; [rewrite <- ?app_assoc; reflexivity|]|
               repeat split; auto; lia]);
      (constructor; [split; reflexivity | constructor]).
  - split; [eexists; split; [reflexivity| constructor]| repeat split; auto; lia].
  - split; [eexists; split; [reflexivity| constructor]| repeat split; auto; lia].
Qed.

Lemma counters_le_refl (nh : NodeHandle) : counters_le nh nh.
Proof. unfold counters_le; lia. Qed.

Lemma counters_le_trans (a b c : NodeHandle) :
  counters_le a b -> counters_le b c -> counters_le a c.
Proof. unfold counters_le; lia. Qed.

Lemma same_port_refl (nh : NodeHandle) : same_port nh nh.
Proof. unfold same_port; auto. Qed.

Lemma same_port_trans (a b c : NodeHandle) :
  same_port a b -> same_port b c -> same_port a c.
Proof.
  unfold same_port; intros (?&?&?&?) (?&?&?&?); repeat split; try congruence; lia.
Qed.

(** One step of the state machine only appends to the trace, lowers no
    counter, leaves the port's queue and the buffer's length alone, and never
    clears [connected_]. *)
Lemma ingest_summary (b : Z) (nh : NodeHandle) :
  (exists evs, trace (ingest b nh) = trace nh ++ evs) /\
  counters_le nh (ingest b nh) /\ same_port nh (ingest b nh) /\
  length (message_in (ingest b nh)) = length (message_in nh) /\
  (connected_ nh = true -> connected_ (ingest b nh) = true).
Proof.
  unfold ingest. cbn [state_ set_checksum_].
  destruct (state_ nh) eqn:Est; unfold counters_le, same_port.
  8: { destruct (Z.rem _ 256 =? 255).
       - destruct (dispatch_summary (set_checksum_ (checksum_ nh + b) nh))
           as ((evs & Ht & _) & Hc & Hp & Hl & Hcon).
         unfold counters_le, same_port in *. cbn in *.
         split; [eexists; exact Ht|]. repeat split; try tauto; lia.
       - cbn. split; [exists []; rewrite app_nil_r; reflexivity|].
         repeat split; auto; lia. }
  7: { unfold_ops. cbn.
       destruct (_ =? 0); cbn;
         (split; [eexists; reflexivity|]);
         rewrite length_insert; repeat split; auto; lia. }
  all: unfold_ops; cbn;
    repeat match goal with |- context [if ?c then _ else _] => destruct c end;
    cbn; (split; [exists []; rewrite app_nil_r; reflexivity|]);
    repeat split; auto; lia.
Qed.

(** The invariant is kept by every step on a byte the port can deliver. *)
Lemma ingest_rx_inv (b : Z) (nh : NodeHandle) :
  0 <= b -> rx_inv nh -> rx_inv (ingest b nh).
Proof.
  intros Hb. unfold rx_inv, ingest. cbn [state_ set_checksum_].
  destruct (state_ nh) eqn:Est; unfold_ops; cbn; intros H.
  8: exact eq_refl.
  6: { rewrite shiftl_8.
       pose proof (Z.mod_pos_bound b 65536 ltac:(lia)).
       destruct (_ =? 0) eqn:E0; cbn; [exact I|].
       destruct (_ <=? kInputSize) eqn:E1; cbn; [|reflexivity]. lia. }
  6: { destruct (_ =? 0) eqn:E0; cbn; [exact I|]. rewrite Est. lia. }
  all: repeat match goal with |- context [if ?c then _ else _] => destruct c end;
    cbn; try rewrite Est; lia.
Qed.

(** Under the invariant a step stores, if at all, inside the buffer. *)
Lemma ingest_stores_in_bounds (b : Z) (nh : NodeHandle) :
  rx_inv nh ->
  exists evs, trace (ingest b nh) = trace nh ++ evs /\ Forall store_in_bounds evs.
Proof.
  unfold rx_inv, ingest. cbn [state_ set_checksum_].
  destruct (state_ nh) eqn:Est; intros H.
  8: { destruct (Z.rem _ 256 =? 255).
       - destruct (dispatch_summary (set_checksum_ (checksum_ nh + b) nh))
           as ((evs & Ht & Hq) & _).
         cbn in Ht. eexists; split; [exact Ht|].
         constructor; [exact I|].
         eapply Forall_impl; [exact Hq|].
         intros [] [Hs _]; try exact I. discriminate Hs.
       - exists []. cbn. rewrite app_nil_r. split; [reflexivity|constructor]. }
  7: { unfold_ops. cbn.
       destruct (_ =? 0); cbn; (eexists; split; [reflexivity|]);
         (constructor; [cbn; lia|constructor]). }
  all: unfold_ops; cbn;
    repeat match goal with |- context [if ?c then _ else _] => destruct c end;
    cbn; exists []; rewrite app_nil_r; (split; [reflexivity|constructor]).
Qed.

(** ** Feeding byte sequences *)

Lemma feed_app (xs ys : list Z) (nh : NodeHandle) :
  feed (xs ++ ys) nh = feed ys (feed xs nh).
Proof. unfold feed. apply fold_left_app. Qed.

Lemma feed_cons (b : Z) (bytes : list Z) (nh : NodeHandle) :
  feed (b :: bytes) nh = feed bytes (ingest b nh).
Proof. reflexivity. Qed.

Lemma feed_summary (bytes : list Z) (nh : NodeHandle) :
  (exists evs, trace (feed bytes nh) = trace nh ++ evs) /\
  counters_le nh (feed bytes nh) /\ same_port nh (feed bytes nh) /\
  length (message_in (feed bytes nh)) = length (message_in nh) /\
  (connected_ nh = true -> connected_ (feed bytes nh) = true).
Proof.
  revert nh; induction bytes as [|b bytes IH]; intros nh.
  - cbn. split; [exists []; rewrite app_nil_r; reflexivity|].
    split; [apply counters_le_refl|]. split; [apply same_port_refl|]. auto.
  - rewrite feed_cons.
    destruct (ingest_summary b nh) as ((e1 & H1) & Hc1 & Hp1 & Hl1 & Hk1).
    destruct (IH (ingest b nh)) as ((e2 & H2) & Hc2 & Hp2 & Hl2 & Hk2).
    split; [exists (e1 ++ e2); rewrite H2, H1, app_assoc; reflexivity|].
    split; [eapply counters_le_trans; eassumption|].
    split; [eapply same_port_trans; eassumption|].
    split; [congruence | auto].
Qed.

Lemma feed_rx_inv (bytes : list Z) (nh : NodeHandle) :
  Forall (fun b => 0 <= b) bytes -> rx_inv nh -> rx_inv (feed bytes nh).
Proof.
  intros Hb; revert nh; induction Hb as [|b bytes Hb _ IH]; intros nh H.
  - exact H.
  - rewrite feed_cons. apply IH, ingest_rx_inv; assumption.
Qed.

Lemma feed_stores_in_bounds (bytes : list Z) (nh : NodeHandle) :
  Forall (fun b => 0 <= b) bytes -> rx_inv nh ->
  exists evs, trace (feed bytes nh) = trace nh ++ evs /\ Forall store_in_bounds evs.
Proof.
  intros Hb; revert nh; induction Hb as [|b bytes Hb _ IH]; intros nh H.
  - exists []. cbn. rewrite app_nil_r. split; [reflexivity|constructor].
  - rewrite feed_cons.
    destruct (ingest_stores_in_bounds b nh H) as (e1 & H1 & F1).
    destruct (IH _ (ingest_rx_inv b nh Hb H)) as (e2 & H2 & F2).
    exists (e1 ++ e2). rewrite H2, H1, app_assoc. split; [reflexivity|].
    apply Forall_app; split; assumption.
Qed.

Lemma with_rx_eta (nh : NodeHandle) :
  nh = with_rx (state_ nh) (remaining_data_bytes_ nh) (topic_ nh)
         (data_index_ nh) (checksum_ nh) (message_in nh) (trace nh) nh.
Proof. destruct nh; reflexivity. Qed.

(** The steps of the state machine, state by state. *)
Section Steps.

Variables (r t i s : Z) (buf : list Z) (tr : list Event) (nh : NodeHandle).

Lemma ingest_first_ff :
  ingest 255 (with_rx STATE_FIRST_FF r t i s buf tr nh)
  = with_rx STATE_SECOND_FF r t i (s + 255) buf tr nh.
Proof. reflexivity. Qed.

Lemma ingest_second_ff :
  ingest 255 (with_rx STATE_SECOND_FF r t i s buf tr nh)
  = with_rx STATE_TOPIC_LOW r t i (s + 255) buf tr nh.
Proof. reflexivity. Qed.

Lemma ingest_topic_low (b : Z) :
  ingest b (with_rx STATE_TOPIC_LOW r t i s buf tr nh)
  = with_rx STATE_TOPIC_HIGH r b i b buf tr nh.
Proof. reflexivity. Qed.

Lemma ingest_topic_high (b : Z) :
  ingest b (with_rx STATE_TOPIC_HIGH r t i s buf tr nh)
  = with_rx STATE_SIZE_LOW r (t + Z.shiftl b 8) i (s + b) buf tr nh.
Proof. reflexivity. Qed.

Lemma ingest_size_low (b : Z) :
  ingest b (with_rx STATE_SIZE_LOW r t i s buf tr nh)
  = with_rx STATE_SIZE_HIGH b t i (s + b) buf tr nh.
Proof. reflexivity. Qed.

Lemma ingest_size_high (b : Z) :
  ingest b (with_rx STATE_SIZE_HIGH r t i s buf tr nh)
  = let r' := r + Z.shiftl (b mod 65536) 8 in
    if r' =? 0 then with_rx STATE_CHECKSUM r' t i (s + b) buf tr nh
    else if r' <=? kInputSize then with_rx STATE_MESSAGE r' t i (s + b) buf tr nh
    else set_invalid_size_error_count_ (invalid_size_error_count_ nh + 1)
           (with_rx STATE_FIRST_FF 0 0 0 0 buf tr nh).
Proof.
  unfold ingest; cbn.
  repeat match goal with |- context [if ?c then _ else _] => destruct c end;
    reflexivity.
Qed.

Lemma ingest_message (b : Z) :
  ingest b (with_rx STATE_MESSAGE r t i s buf tr nh)
  = with_rx (if r - 1 =? 0 then STATE_CHECKSUM else STATE_MESSAGE) (r - 1) t
      (i + 1) (s + b) (<[Z.to_nat i := b mod 256]> buf)
      (tr ++ [EvStore i (b mod 256)]) nh.
Proof. unfold ingest; cbn. destruct (r - 1 =? 0); reflexivity. Qed.

Lemma ingest_checksum (b : Z) :
  ingest b (with_rx STATE_CHECKSUM r t i s buf tr nh)
  = reset (if Z.rem (s + b) 256 =? 255
           then dispatch (with_rx STATE_CHECKSUM r t i (s + b) buf tr nh)
           else with_rx STATE_CHECKSUM r t i (s + b) buf tr nh).
Proof. reflexivity. Qed.

End Steps.

(** An oversize header is dropped whole: the machine is reset and only the
    invalid-size counter has moved. *)
Lemma feed_oversize_header (tlo thi slo shi : Z) (nh : NodeHandle) :
  state_ nh = STATE_FIRST_FF -> 0 <= kInputSize ->
  is_byte slo -> is_byte shi -> kInputSize < slo + 256 * shi ->
  feed [255; 255; tlo; thi; slo; shi] nh
  = set_invalid_size_error_count_ (invalid_size_error_count_ nh + 1) (reset nh).
Proof.
  intros Hst Hk Hlo Hhi Hsz. unfold is_byte in *.
  rewrite (with_rx_eta nh) at 1. rewrite Hst.
  rewrite !feed_cons.
  rewrite ingest_first_ff, ingest_second_ff, ingest_topic_low,
    ingest_topic_high, ingest_size_low, ingest_size_high.
  cbv zeta. rewrite shiftl_8, (Z.mod_small shi 65536) by lia.
  destruct (_ =? 0) eqn:E0; [lia|].
  destruct (_ <=? kInputSize) eqn:E1; [lia|]. reflexivity.
Qed.

Lemma sum_bytes_nonneg (bytes : list Z) : Forall is_byte bytes -> 0 <= sum_bytes bytes.
Proof.
  induction 1 as [|b bytes Hb _ IH]; unfold sum_bytes, is_byte in *;
    cbn [fold_right]; lia.
Qed.

Lemma stores_at_no_frame_ready (i : Z) (payload : list Z) :
  List.filter is_frame_ready (stores_at i payload) = [].
Proof. revert i; induction payload as [|b rest IH]; intros i; cbn; auto. Qed.

Lemma quiet_no_frame_ready (evs : list Event) :
  Forall quiet evs -> List.filter is_frame_ready evs = [].
Proof.
  induction 1 as [|e evs [_ He] _ IH]; cbn; [reflexivity|]. rewrite He. exact IH.
Qed.

(** Buffering a payload: from [STATE_MESSAGE] with as many bytes outstanding
    as the payload has, the bytes land in the buffer from the write index on
    and the machine arrives at [STATE_CHECKSUM]. *)
Lemma feed_payload (payload : list Z) (t : Z) (nh : NodeHandle) :
  forall (i s : Z) (buf : list Z) (tr : list Event),
  payload <> [] -> Forall is_byte payload -> 0 <= i ->
  (Z.to_nat i + length payload <= length buf)%nat ->
  feed payload
    (with_rx STATE_MESSAGE (Z.of_nat (length payload)) t i s buf tr nh)
  = with_rx STATE_CHECKSUM 0 t (i + Z.of_nat (length payload))
      (s + sum_bytes payload)
      (take (Z.to_nat i) buf ++ payload
       ++ drop (Z.to_nat i + length payload) buf)
      (tr ++ stores_at i payload) nh.
Proof.
  induction payload as [|b rest IH]; intros i s buf tr Hne Hb Hi Hlen;
    [congruence|].
  inversion Hb as [|? ? Hb1 Hb2]; subst. unfold is_byte in Hb1.
  rewrite feed_cons, ingest_message. cbn [length] in *.
  rewrite (Z.mod_small b 256) by lia.
  replace (Z.of_nat (S (length rest)) - 1) with (Z.of_nat (length rest)) by lia.
  assert (Hins : <[Z.to_nat i := b]> buf
                 = take (Z.to_nat i) buf ++ b :: drop (S (Z.to_nat i)) buf)
    by (apply insert_take_drop; lia).
  destruct rest as [|b' rest'].
  - cbn. f_equal; try lia.
    rewrite Hins. repeat f_equal. lia.
  - replace (Z.of_nat (length (b' :: rest')) =? 0) with false
      by (symmetry; apply Z.eqb_neq; cbn [length]; lia).
    rewrite IH; [|discriminate|assumption|lia|rewrite length_insert; cbn [length] in *; lia].
    f_equal; try (cbn [length sum_bytes fold_right]; lia).
    + replace (Z.to_nat (i + 1)) with (S (Z.to_nat i)) by lia.
      rewrite (take_S_r _ _ b) by (apply list_lookup_insert_eq; lia).
      rewrite take_insert_ge by lia.
      rewrite drop_insert_lt by lia.
      rewrite <- app_assoc. cbn [length].
      replace (S (Z.to_nat i) + S (length rest'))%nat
        with (Z.to_nat i + S (S (length rest')))%nat by lia.
      reflexivity.
    + rewrite <- app_assoc. reflexivity.
Qed.

(** The header of a frame whose declared size fits the buffer. *)
Lemma feed_header (tlo thi slo shi : Z) (nh : NodeHandle) :
  state_ nh = STATE_FIRST_FF ->
  is_byte slo -> is_byte shi -> slo + 256 * shi <= kInputSize ->
  feed [255; 255; tlo; thi; slo; shi] nh
  = with_rx (if slo + 256 * shi =? 0 then STATE_CHECKSUM else STATE_MESSAGE)
      (slo + 256 * shi) (tlo + 256 * thi) (data_index_ nh)
      (tlo + thi + slo + shi) (message_in nh) (trace nh) nh.
Proof.
  intros Hst Hlo Hhi Hsz. unfold is_byte in *.
  rewrite (with_rx_eta nh) at 1. rewrite Hst.
  rewrite !feed_cons.
  rewrite ingest_first_ff, ingest_second_ff, ingest_topic_low,
    ingest_topic_high, ingest_size_low, ingest_size_high.
  cbv zeta. rewrite !shiftl_8, (Z.mod_small shi 65536) by lia.
  replace (slo + shi * 256) with (slo + 256 * shi) by lia.
  replace (tlo + thi * 256) with (tlo + 256 * thi) by lia.
  cbn [feed fold_left].
  destruct (_ =? 0) eqn:E0; [reflexivity|].
  destruct (_ <=? kInputSize) eqn:E1; [reflexivity|lia].
Qed.

Lemma feed_frame_body (topic : Z) (payload : list Z) (nh : NodeHandle) :
  state_ nh = STATE_FIRST_FF -> rx_inv nh ->
  length (message_in nh) = Z.to_nat kInputSize ->
  Forall is_byte payload ->
  Z.of_nat (length payload) <= kInputSize -> Z.of_nat (length payload) < 65536 ->
  feed ([255; 255; topic mod 256; topic / 256;
         Z.of_nat (length payload) mod 256; Z.of_nat (length payload) / 256]
        ++ payload) nh
  = before_checksum topic payload nh.
Proof.
  intros Hst Hinv Hbuf Hb Hlen H16.
  assert (Hdi : data_index_ nh = 0) by (unfold rx_inv in Hinv; rewrite Hst in Hinv; exact Hinv).
  pose proof (Zle_0_nat (length payload)) as Hn0.
  set (n := Z.of_nat (length payload)) in *.
  pose proof (Z.div_mod n 256 ltac:(lia)) as Hn.
  pose proof (Z.mod_pos_bound n 256 ltac:(lia)) as Hn1.
  pose proof (Z.div_mod topic 256 ltac:(lia)) as Ht.
  assert (0 <= n / 256 <= 255) by lia.
  rewrite feed_app, feed_header; unfold is_byte; try lia; [|assumption].
  replace (n mod 256 + 256 * (n / 256)) with n by lia.
  replace (topic mod 256 + 256 * (topic / 256)) with topic by lia.
  rewrite Hdi. unfold before_checksum. fold n.
  destruct (Z.eqb_spec n 0) as [E|E].
  - assert (payload = []) by (apply length_zero_iff_nil; lia). subst payload.
    cbn [length stores_at app feed fold_left].
    rewrite drop_0, app_nil_r. unfold sum_bytes; cbn [fold_right].
    f_equal; lia.
  - subst n. rewrite feed_payload; try lia; [|intros ->; apply E; reflexivity|assumption].
    cbn [Z.to_nat take Nat.add app]. reflexivity.
Qed.

Lemma trace_reset (nh : NodeHandle) : trace (reset nh) = trace nh.
Proof. reflexivity. Qed.

Lemma payload_in_before_checksum (topic sum : Z) (payload rest : list Z)
  (tr : list Event) (nh : NodeHandle) :
  payload_in (with_rx STATE_CHECKSUM 0 topic (Z.of_nat (length payload)) sum
                (payload ++ rest) tr nh) = payload.
Proof.
  unfold payload_in. cbn [data_index_ message_in with_rx set_state_
    set_remaining_data_bytes_ set_topic_ set_data_index_].
  rewrite Nat2Z.id. apply take_app_length.
Qed.

(** The checksum byte of a well-formed frame passes the test of
    [STATE_CHECKSUM]. *)
Lemma checksum_test_passes (topic : Z) (payload : list Z) (checksum : Z) :
  0 <= topic -> Forall is_byte payload -> is_byte checksum ->
  checksum_ok topic payload checksum ->
  (Z.rem (topic mod 256 + topic / 256 + Z.of_nat (length payload) mod 256
          + Z.of_nat (length payload) / 256 + sum_bytes payload + checksum) 256
   =? 255) = true.
Proof.
  intros Ht Hp Hc Hok. unfold checksum_ok, is_byte in *.
  pose proof (sum_bytes_nonneg _ Hp).
  pose proof (Z.mod_pos_bound topic 256 ltac:(lia)).
  pose proof (Z.div_pos topic 256 Ht ltac:(lia)).
  pose proof (Z.mod_pos_bound (Z.of_nat (length payload)) 256 ltac:(lia)).
  pose proof (Z.div_pos (Z.of_nat (length payload)) 256 ltac:(lia) ltac:(lia)).
  rewrite Z.rem_mod_nonneg by lia. apply Z.eqb_eq. exact Hok.
Qed.

(** ** The loop of [spinOnce] and the port *)

Lemma read_spec (nh : NodeHandle) :
  read nh
  = let hw := hardware_ nh in
    match hw_rx hw with
    | [] => (-1, set_hardware_ (mkHardware (hw_clock hw) (hw_time_calls hw) []
                                  (S (hw_reads hw))) nh)
    | b :: rest => (b, set_hardware_ (mkHardware (hw_clock hw) (hw_time_calls hw)
                                        rest (S (hw_reads hw))) nh)
    end.
Proof. unfold read, Hardware_read. destruct (hw_rx (hardware_ nh)); reflexivity. Qed.

(** What the loop does to the port: it consumes [k] bytes, all of them
    non-negative, and stops either after [n] of them or at the first read
    that yields no byte. *)
Lemma spin_loop_port (n : nat) :
  forall (byte_count : Z) (nh : NodeHandle),
  let rx := hw_rx (hardware_ nh) in
  let r := spin_loop n byte_count nh in
  exists k : nat,
    fst r = byte_count + Z.of_nat k /\ (k <= n)%nat /\ (k <= length rx)%nat /\
    Forall (fun b => 0 <= b) (take k rx) /\
    ((k < n)%nat -> match rx !! k with Some b => b < 0 | None => True end) /\
    hw_rx (hardware_ (snd r)) = drop (k + (if (k <? n)%nat then 1 else 0)) rx /\
    hw_reads (hardware_ (snd r))
    = (hw_reads (hardware_ nh) + k + (if (k <? n)%nat then 1 else 0))%nat.
Proof.
  induction n as [|n IH]; intros c nh rx r; subst rx r.
  - exists 0%nat. cbn. rewrite drop_0. repeat split; try lia. constructor.
  - cbn [spin_loop]. rewrite read_spec. cbv zeta.
    destruct (hw_rx (hardware_ nh)) as [|b rest] eqn:Erx.
    + exists 0%nat. cbn. repeat split; try lia. constructor.
    + destruct (b <? 0) eqn:Eb.
      * exists 0%nat. cbn.
        apply Z.ltb_lt in Eb. repeat split; try lia. constructor.
      * apply Z.ltb_ge in Eb.
        match goal with |- context [ingest b ?x] => set (nh1 := x) end.
        destruct (ingest_summary b nh1) as (_ & _ & (Hrx & Hrd & _) & _).
        destruct (IH (c + 1) (ingest b nh1))
          as (k & Hc & Hk & Hlen & Hall & Hstop & Hrx' & Hrd').
        rewrite Hrx in Hlen, Hall, Hstop, Hrx'. rewrite Hrd in Hrd'.
        subst nh1.
        cbn [hardware_ set_hardware_ hw_rx hw_reads] in Hlen, Hall, Hstop, Hrx', Hrd'.
        exists (S k). cbn [take lookup list_lookup length drop Nat.add].
        replace (S k <? S n)%nat with (k <? n)%nat by reflexivity.
        rewrite Hrx', Hrd'.
        repeat split; try lia.
        -- constructor; assumption.
        -- intros Hlt. apply Hstop. lia.
Qed.

(** The loop only appends to the trace and lowers no counter. *)
Lemma spin_loop_summary (n : nat) :
  forall (byte_count : Z) (nh : NodeHandle),
  (exists evs, trace (snd (spin_loop n byte_count nh)) = trace nh ++ evs) /\
  counters_le nh (snd (spin_loop n byte_count nh)) /\
  (connected_ nh = true -> connected_ (snd (spin_loop n byte_count nh)) = true).
Proof.
  induction n as [|n IH]; intros c nh.
  - cbn. split; [exists []; rewrite app_nil_r; reflexivity|].
    split; [apply counters_le_refl | auto].
  - cbn [spin_loop]. rewrite read_spec. cbv zeta.
    destruct (hw_rx (hardware_ nh)) as [|b rest] eqn:Erx.
    + cbn. split; [exists []; rewrite app_nil_r; reflexivity|].
      split; [unfold counters_le; cbn; lia | auto].
    + destruct (b <? 0).
      * cbn. split; [exists []; rewrite app_nil_r; reflexivity|].
        split; [unfold counters_le; cbn; lia | auto].
      * match goal with |- context [ingest b ?x] => set (nh1 := x) end.
        destruct (ingest_summary b nh1) as ((e1 & H1) & Hc1 & _ & _ & Hk1).
        destruct (IH (c + 1) (ingest b nh1)) as ((e2 & H2) & Hc2 & Hk2).
        split; [exists (e1 ++ e2); rewrite H2, H1, app_assoc; reflexivity|].
        split; [|auto].
        eapply counters_le_trans; [|exact Hc2].
        eapply counters_le_trans; [|exact Hc1].
        unfold counters_le; subst nh1; cbn; lia.
Qed.

(** The housekeeping at the head of [spinOnce] only appends to the trace,
    lowers no counter and keeps the invariant of the state machine. *)
Lemma check_connection_summary (t : Z) (nh : NodeHandle) :
  (exists evs, trace (check_connection t nh) = trace nh ++ evs) /\
  counters_le nh (check_connection t nh) /\
  (rx_inv nh -> rx_inv (check_connection t nh)).
Proof.
  unfold check_connection, counters_le, rx_inv.
  destruct (connected_ nh);
    [|split; [exists []; rewrite app_nil_r; reflexivity|]; split; [lia|auto]].
  destruct (ulong (t - time_sync_end_ nh) >? kConnectionTimeout);
    unfold_ops; cbn;
    destruct (ulong (t - time_sync_end_ nh) >? kSyncPeriod); cbn;
    try destruct (time_sync_start_ nh >? 0); cbn;
    (split; [first [exists []; rewrite app_nil_r; reflexivity
                   | eexists; reflexivity]|]);
    (split; [lia|auto]).
Qed.

Lemma time_summary (nh : NodeHandle) :
  trace (snd (time nh)) = trace nh /\ counters_le nh (snd (time nh)) /\
  (rx_inv nh -> rx_inv (snd (time nh))) /\
  hw_rx (hardware_ (snd (time nh))) = hw_rx (hardware_ nh) /\
  hw_reads (hardware_ (snd (time nh))) = hw_reads (hardware_ nh).
Proof. unfold counters_le, rx_inv; cbn. repeat split; auto; lia. Qed.

Lemma spinOnce_unfold (nh : NodeHandle) :
  spinOnce nh
  = spin_loop (Z.to_nat kMaxBytesPerSpin) 0
      (check_connection (fst (time nh)) (snd (time nh))).
Proof. reflexivity. Qed.

(** [spinOnce] lowers no error counter. *)
Lemma spinOnce_counters (nh : NodeHandle) : counters_le nh (snd (spinOnce nh)).
Proof.
  rewrite spinOnce_unfold.
  eapply counters_le_trans; [|apply spin_loop_summary].
  eapply counters_le_trans; [|apply check_connection_summary].
  apply time_summary.
Qed.

(** [spinOnce] keeps the invariant of the state machine, whatever the port
    delivers. *)
Lemma spin_loop_rx_inv (n : nat) :
  forall (byte_count : Z) (nh : NodeHandle),
  rx_inv nh -> rx_inv (snd (spin_loop n byte_count nh)).
Proof.
  induction n as [|n IH]; intros c nh H; [exact H|].
  cbn [spin_loop]. rewrite read_spec. cbv zeta.
  destruct (hw_rx (hardware_ nh)) as [|b rest]; [exact H|].
  destruct (b <? 0) eqn:Eb; [exact H|].
  apply IH, ingest_rx_inv; [apply Z.ltb_ge; exact Eb | exact H].
Qed.

Lemma spinOnce_rx_inv (nh : NodeHandle) : rx_inv nh -> rx_inv (snd (spinOnce nh)).
Proof.
  intros H. rewrite spinOnce_unfold.
  apply spin_loop_rx_inv, check_connection_summary, time_summary, H.
Qed.

(** The constructor establishes the invariant. *)
Lemma ctor_rx_inv (raw : NodeHandle) (hardware : Hardware) :
  rx_inv (NodeHandle_ctor raw hardware).
Proof. reflexivity. Qed.

(** The registry operations, logging and the parameter request lower no
    error counter either. *)
Lemma advertise_counters (publisher : Publisher) (nh : NodeHandle) :
  counters_le nh (snd (advertise publisher nh)).
Proof.
  unfold advertise. generalize (Z.to_nat kMaxPublishers) 0%nat.
  intros n; induction n as [|n IH]; intros i; cbn [advertise_from].
  - apply counters_le_refl.
  - destruct (publishers nh !! i) as [[p|]|]; try apply IH.
    unfold counters_le; cbn; lia.
Qed.

Lemma registerReceiver_counters (receiver : MsgReceiver) (nh : NodeHandle) :
  counters_le nh (snd (registerReceiver receiver nh)).
Proof.
  unfold registerReceiver.
  destruct (total_receivers_ nh >=? kMaxSubscribers); unfold counters_le; cbn; lia.
Qed.

Lemma log_counters (level : LogLevel) (msg : string) (nh : NodeHandle) :
  counters_le nh (log level msg nh).
Proof. unfold counters_le; cbn; lia. Qed.

Lemma requestParam_wait_counters (fuel : nat) (start_time time_out : Z) :
  forall (nh nh' : NodeHandle) (ok : bool),
  requestParam_wait fuel start_time time_out nh = Some (ok, nh') ->
  counters_le nh nh'.
Proof.
  induction fuel as [|fuel IH]; intros nh nh' ok; cbn [requestParam_wait].
  - destruct (param_received_ nh); [|discriminate].
    intros [= _ <-]. apply counters_le_refl.
  - destruct (param_received_ nh); [intros [= _ <-]; apply counters_le_refl|].
    pose proof (spinOnce_counters nh) as Hs.
    destruct (spinOnce nh) as [count nh1]. cbn [snd] in Hs.
    pose proof (time_summary nh1) as (_ & Ht & _).
    destruct (time nh1) as [t nh2]. cbn [snd] in Ht.
    destruct (ulong (t - start_time) >? ulong time_out).
    + intros [= _ <-]. eapply counters_le_trans; eassumption.
    + intros H. apply IH in H.
      eapply counters_le_trans; [|exact H]. eapply counters_le_trans; eassumption.
Qed.

Lemma requestParam_counters (fuel : nat) (name : string) (time_out : Z)
  (nh nh' : NodeHandle) (ok : bool) :
  requestParam fuel name time_out nh = Some (ok, nh') -> counters_le nh nh'.
Proof.
  unfold requestParam.
  match goal with |- context [time ?x] =>
    pose proof (time_summary x) as (_ & Ht & _); destruct (time x) as [t nh1]
  end.
  intros H. apply requestParam_wait_counters in H.
  eapply counters_le_trans; [|exact H].
  eapply counters_le_trans; [|exact Ht]. unfold counters_le; cbn; lia.
Qed.

(** The copy loop of the getters: with room in the caller's array, the whole
    source array lands in its first elements. *)
Lemma copy_from_spec {A : Type} (n : nat) :
  forall (i : nat) (src param : list A),
  (i + n = length src)%nat -> (length src <= length param)%nat ->
  copy_from n i src param = take i param ++ drop i src ++ drop (length src) param.
Proof.
  induction n as [|n IH]; intros i src param Hn Hlen; cbn [copy_from].
  - replace i with (length src) by lia.
    rewrite drop_all. cbn. symmetry; apply take_drop.
  - destruct (src !! i) as [x|] eqn:E;
      [|apply lookup_ge_None in E; lia].
    rewrite IH by (rewrite ?length_insert; lia).
    rewrite (take_S_r _ _ x) by (apply list_lookup_insert_eq; lia).
    rewrite take_insert_ge by lia. rewrite drop_insert_lt by lia.
    rewrite (drop_S _ _ _ E), <- app_assoc. reflexivity.
Qed.

(** The last byte of a frame, when the test of [STATE_CHECKSUM] fails: the
    machine is reset and nothing else happens. *)
Lemma ingest_checksum_failure (b : Z) (nh : NodeHandle) :
  state_ nh = STATE_CHECKSUM -> Z.rem (checksum_ nh + b) 256 <> 255 ->
  ingest b nh = reset nh.
Proof.
  intros Hst Hck. rewrite (with_rx_eta nh) at 1. rewrite Hst, ingest_checksum.
  apply Z.eqb_neq in Hck. rewrite Hck. reflexivity.
Qed.

(** The last byte of a frame, when the test passes: the dispatcher runs on
    the handle with the byte added to the checksum, then the machine is
    reset. *)
Lemma ingest_checksum_success (b : Z) (nh : NodeHandle) :
  state_ nh = STATE_CHECKSUM -> Z.rem (checksum_ nh + b) 256 = 255 ->
  ingest b nh = reset (dispatch (set_checksum_ (checksum_ nh + b) nh)).
Proof.
  intros Hst Hck. rewrite (with_rx_eta nh) at 1. rewrite Hst, ingest_checksum.
  apply Z.eqb_eq in Hck. rewrite Hck.
  do 2 f_equal. destruct nh; cbn in Hst |- *; subst; reflexivity.
Qed.

Lemma check_connection_port (t : Z) (nh : NodeHandle) :
  same_port nh (check_connection t nh).
Proof.
  unfold check_connection, same_port.
  destruct (connected_ nh); [|auto].
  destruct (ulong (t - time_sync_end_ nh) >? kConnectionTimeout);
    unfold_ops; cbn;
    destruct (ulong (t - time_sync_end_ nh) >? kSyncPeriod); cbn;
    try destruct (time_sync_start_ nh >? 0); cbn; auto.
Qed.

(** ** Runs of operations *)

Lemma requestParam_wait_rx_inv (fuel : nat) (start_time time_out : Z) :
  forall (nh nh' : NodeHandle) (ok : bool),
  requestParam_wait fuel start_time time_out nh = Some (ok, nh') ->
  rx_inv nh -> rx_inv nh'.
Proof.
  induction fuel as [|fuel IH]; intros nh nh' ok; cbn [requestParam_wait].
  - destruct (param_received_ nh); [|discriminate]. intros [= _ <-]. auto.
  - destruct (param_received_ nh); [intros [= _ <-]; auto|].
    pose proof (spinOnce_rx_inv nh) as Hs.
    destruct (spinOnce nh) as [count nh1]. cbn [snd] in Hs.
    pose proof (time_summary nh1) as (_ & _ & Ht & _).
    destruct (time nh1) as [t nh2]. cbn [snd] in Ht.
    destruct (ulong (t - start_time) >? ulong time_out).
    + intros [= _ <-]. auto.
    + intros H Hinv. eapply IH; [exact H|]. auto.
Qed.

(** No operation lowers an error counter, and every operation keeps the
    invariant of the state machine. *)
Lemma op_step_counters (nh nh' : NodeHandle) : op_step nh nh' -> counters_le nh nh'.
Proof.
  intros [nh0|p nh0|r nh0|level msg nh0|nh0|fuel name time_out nh0 ok nh1 H].
  - apply spinOnce_counters.
  - apply advertise_counters.
  - apply registerReceiver_counters.
  - apply log_counters.
  - apply time_summary.
  - eapply requestParam_counters; exact H.
Qed.

Lemma op_step_rx_inv (nh nh' : NodeHandle) : op_step nh nh' -> rx_inv nh -> rx_inv nh'.
Proof.
  intros [nh0|p nh0|r nh0|level msg nh0|nh0|fuel name time_out nh0 ok nh1 H].
  - apply spinOnce_rx_inv.
  - unfold advertise. generalize (Z.to_nat kMaxPublishers) 0%nat.
    intros n; induction n as [|n IH]; intros i; cbn [advertise_from]; [auto|].
    destruct (publishers nh0 !! i) as [[p'|]|]; auto.
  - unfold registerReceiver.
    destruct (total_receivers_ nh0 >=? kMaxSubscribers); auto.
  - auto.
  - apply time_summary.
  - unfold requestParam in H. intros Hinv.
    match type of H with context [time ?x] =>
      pose proof (time_summary x) as (_ & _ & Ht & _); destruct (time x) as [t nh2]
    end.
    eapply requestParam_wait_rx_inv; [exact H|]. apply Ht. exact Hinv.
Qed.

(** The buffer keeps its length. *)
Lemma spin_loop_buffer_length (n : nat) :
  forall (byte_count : Z) (nh : NodeHandle),
  length (message_in (snd (spin_loop n byte_count nh))) = length (message_in nh).
Proof.
  induction n as [|n IH]; intros c nh; [reflexivity|].
  cbn [spin_loop]. rewrite read_spec. cbv zeta.
  destruct (hw_rx (hardware_ nh)) as [|b rest]; [reflexivity|].
  destruct (b <? 0); [reflexivity|].
  rewrite IH.
  match goal with |- context [ingest b ?x] =>
    destruct (ingest_summary b x) as (_ & _ & _ & Hl & _); exact Hl
  end.
Qed.

Lemma check_connection_buffer (t : Z) (nh : NodeHandle) :
  message_in (check_connection t nh) = message_in nh.
Proof.
  unfold check_connection.
  destruct (connected_ nh); [|reflexivity].
  destruct (ulong (t - time_sync_end_ nh) >? kConnectionTimeout);
    unfold_ops; cbn;
    destruct (ulong (t - time_sync_end_ nh) >? kSyncPeriod); cbn;
    try destruct (time_sync_start_ nh >? 0); reflexivity.
Qed.

Lemma spinOnce_buffer_length (nh : NodeHandle) :
  length (message_in (snd (spinOnce nh))) = length (message_in nh).
Proof.
  rewrite spinOnce_unfold, spin_loop_buffer_length, check_connection_buffer.
  reflexivity.
Qed.

Lemma requestParam_wait_buffer_length (fuel : nat) (start_time time_out : Z) :
  forall (nh nh' : NodeHandle) (ok : bool),
  requestParam_wait fuel start_time time_out nh = Some (ok, nh') ->
  length (message_in nh') = length (message_in nh).
Proof.
  induction fuel as [|fuel IH]; intros nh nh' ok; cbn [requestParam_wait].
  - destruct (param_received_ nh); [|discriminate]. intros [= _ <-]. reflexivity.
  - destruct (param_received_ nh); [intros [= _ <-]; reflexivity|].
    pose proof (spinOnce_buffer_length nh) as Hs.
    destruct (spinOnce nh) as [count nh1]. cbn [snd] in Hs.
    unfold time. cbn [Hardware_time].
    destruct (_ >? ulong time_out).
    + intros [= _ <-]. exact Hs.
    + intros H. apply IH in H. rewrite H. exact Hs.
Qed.

Lemma op_step_buffer_length (nh nh' : NodeHandle) :
  op_step nh nh' -> length (message_in nh') = length (message_in nh).
Proof.
  intros [nh0|p nh0|r nh0|level msg nh0|nh0|fuel name time_out nh0 ok nh1 H].
  - apply spinOnce_buffer_length.
  - unfold advertise. generalize (Z.to_nat kMaxPublishers) 0%nat.
    intros n; induction n as [|n IH]; intros i; cbn [advertise_from]; [auto|].
    destruct (publishers nh0 !! i) as [[p'|]|]; auto.
  - unfold registerReceiver.
    destruct (total_receivers_ nh0 >=? kMaxSubscribers); auto.
  - reflexivity.
  - reflexivity.
  - unfold requestParam in H.
    apply requestParam_wait_buffer_length in H. exact H.
Qed.

(** Across any sequence of operations the counters only grow, and from a
    constructed handle the invariant holds throughout. *)
Lemma run_counters (nh nh' : NodeHandle) : rtc op_step nh nh' -> counters_le nh nh'.
Proof.
  induction 1 as [|a b c Hab _ IH]; [apply counters_le_refl|].
  eapply counters_le_trans; [apply op_step_counters; exact Hab | exact IH].
Qed.

Lemma run_rx_inv (raw : NodeHandle) (hardware : Hardware) (nh : NodeHandle) :
  rtc op_step (NodeHandle_ctor raw hardware) nh -> rx_inv nh.
Proof.
  intros H. pose proof (ctor_rx_inv raw hardware) as Hinv. revert Hinv.
  induction H as [|a b c Hab _ IH]; [auto|].
  intros Ha. apply IH. eapply op_step_rx_inv; eassumption.
Qed.

Lemma run_buffer_length (nh nh' : NodeHandle) :
  rtc op_step nh nh' -> length (message_in nh') = length (message_in nh).
Proof.
  induction 1 as [|a b c Hab _ IH]; [reflexivity|].
  rewrite IH. apply op_step_buffer_length. exact Hab.
Qed.

(** ** Termination of the parameter request *)

Lemma clock_runs_trans (a b c : NodeHandle) :
  clock_runs a b -> clock_runs b c -> clock_runs a c.
Proof. unfold clock_runs; intros (?&?) (?&?); split; [congruence | lia]. Qed.

Lemma spin_loop_clock (n : nat) :
  forall (byte_count : Z) (nh : NodeHandle),
  clock_runs nh (snd (spin_loop n byte_count nh)).
Proof.
  induction n as [|n IH]; intros c nh; [split; [reflexivity | cbn; lia]|].
  cbn [spin_loop]. rewrite read_spec. cbv zeta.
  destruct (hw_rx (hardware_ nh)) as [|b rest]; [split; [reflexivity | cbn; lia]|].
  destruct (b <? 0); [split; [reflexivity | cbn; lia]|].
  match goal with |- context [ingest b ?x] => set (nh1 := x) end.
  eapply clock_runs_trans; [|apply IH].
  destruct (ingest_summary b nh1) as (_ & _ & (_ & _ & Hck & Hcalls) & _).
  split; [rewrite Hck; reflexivity | exact Hcalls].
Qed.

(** [spinOnce] reads the clock at least once. *)
Lemma spinOnce_clock (nh : NodeHandle) :
  hw_clock (hardware_ (snd (spinOnce nh))) = hw_clock (hardware_ nh) /\
  (hw_time_calls (hardware_ nh) < hw_time_calls (hardware_ (snd (spinOnce nh))))%nat.
Proof.
  rewrite spinOnce_unfold.
  destruct (spin_loop_clock (Z.to_nat kMaxBytesPerSpin) 0
              (check_connection (time nh).1 (time nh).2)) as [Hc1 Hn1].
  destruct (check_connection_port (time nh).1 (time nh).2) as (_ & _ & Hc2 & Hn2).
  rewrite Hc1, Hc2. cbn in Hn1, Hn2 |- *. split; [reflexivity | lia].
Qed.

(** Once every reading of the clock from the [N]-th on is past the deadline,
    the wait of [requestParam] ends within the fuel that takes the count of
    readings to [N]. *)
Lemma requestParam_wait_terminates (start_time time_out : Z) (N : nat)
  (clock : nat -> Z) (fuel : nat) :
  forall nh : NodeHandle,
  hw_clock (hardware_ nh) = clock ->
  (forall k, (N <= k)%nat -> ulong time_out < ulong (ulong (clock k) - start_time)) ->
  (1 <= fuel)%nat -> (N <= hw_time_calls (hardware_ nh) + fuel)%nat ->
  exists ok nh', requestParam_wait fuel start_time time_out nh = Some (ok, nh').
Proof.
  induction fuel as [|fuel IH]; intros nh Hclock Hlate Hfuel HN; [lia|].
  cbn [requestParam_wait].
  destruct (param_received_ nh); [eauto|].
  destruct (spinOnce_clock nh) as [Hc1 Hn1].
  destruct (spinOnce nh) as [count nh1]. cbn [snd] in Hc1, Hn1.
  unfold time, Hardware_time. rewrite Hc1, Hclock.
  destruct (ulong (ulong (clock (hw_time_calls (hardware_ nh1))) - start_time)
            >? ulong time_out) eqn:E; [eauto|].
  assert (hw_time_calls (hardware_ nh1) < N)%nat as Hlt.
  { destruct (Nat.lt_ge_cases (hw_time_calls (hardware_ nh1)) N) as [|Hge]; [assumption|].
    apply Hlate in Hge. apply Z.gtb_lt in Hge. congruence. }
  apply IH; cbn; try lia; [congruence | exact Hlate].
Qed.

Lemma requestParam_terminates (name : string) (time_out : Z) (N : nat)
  (fuel : nat) (nh : NodeHandle) :
  (forall k, (N <= k)%nat ->
     ulong time_out
     < ulong (ulong (hw_clock (hardware_ nh) k)
              - ulong (hw_clock (hardware_ nh) (hw_time_calls (hardware_ nh))))) ->
  (1 <= fuel)%nat -> (N <= hw_time_calls (hardware_ nh) + fuel)%nat ->
  exists ok nh', requestParam fuel name time_out nh = Some (ok, nh').
Proof.
  intros Hlate Hfuel HN. unfold requestParam.
  cbn [time Hardware_time publish emit set_param_received_ set_trace hardware_].
  eapply requestParam_wait_terminates; [reflexivity | exact Hlate | exact Hfuel |].
  cbn. lia.
Qed.

(** ** Further facts about single operations *)

(** What the constructor leaves in the counters: three are zeroed, the
    framing-state counter is whatever the storage held. *)
Lemma to_int_0 : to_int 0 = 0.
Proof.
  unfold to_int. destruct (Z.le_gt_cases 1 int_bits) as [H|H].
  - assert (0 < 2 ^ (int_bits - 1)) by (apply Z.pow_pos_nonneg; lia).
    replace (2 ^ int_bits) with (2 * 2 ^ (int_bits - 1))
      by (rewrite <- Z.pow_succ_r by lia; f_equal; lia).
    rewrite Z.mod_small by lia. lia.
  - destruct (Z.eq_dec int_bits 0) as [E|E].
    + rewrite E. reflexivity.
    + rewrite (Z.pow_neg_r 2 int_bits), (Z.pow_neg_r 2 (int_bits - 1)) by lia.
      reflexivity.
Qed.

(** In the range of [int] the conversion changes nothing. *)
Lemma to_int_id (x : Z) : 1 <= int_bits -> is_int x -> to_int x = x.
Proof.
  unfold to_int, is_int. intros Hb Hx.
  assert (0 < 2 ^ (int_bits - 1)) by (apply Z.pow_pos_nonneg; lia).
  replace (2 ^ int_bits) with (2 * 2 ^ (int_bits - 1))
    by (rewrite <- Z.pow_succ_r by lia; f_equal; lia).
  rewrite Z.mod_small by lia. lia.
Qed.

Lemma ctor_counters (raw : NodeHandle) (hardware : Hardware) :
  getInvalidSizeErrorCount (NodeHandle_ctor raw hardware) = 0 /\
  getChecksumErrorCount (NodeHandle_ctor raw hardware) = 0 /\
  getMalformedMessageErrorCount (NodeHandle_ctor raw hardware) = 0 /\
  getStateErrorCount (NodeHandle_ctor raw hardware)
  = to_int (state_error_count_ raw).
Proof. repeat split; try apply to_int_0; reflexivity. Qed.

(** What the code does on a checksum failure: the
    machine is reset, the trace is as it was (no dispatch, no receiver call)
    and no counter has moved, the checksum-error counter included. *)
Lemma checksum_failure_effect (b : Z) (nh : NodeHandle) :
  state_ nh = STATE_CHECKSUM -> Z.rem (checksum_ nh + b) 256 <> 255 ->
  state_ (ingest b nh) = STATE_FIRST_FF /\
  trace (ingest b nh) = trace nh /\
  checksum_error_count_ (ingest b nh) = checksum_error_count_ nh /\
  invalid_size_error_count_ (ingest b nh) = invalid_size_error_count_ nh /\
  state_error_count_ (ingest b nh) = state_error_count_ nh /\
  malformed_message_error_count_ (ingest b nh) = malformed_message_error_count_ nh.
Proof.
  intros Hst Hck. rewrite ingest_checksum_failure by assumption.
  repeat split; reflexivity.
Qed.


(** The dispatcher on the time topic. *)
Lemma dispatch_time (nh : NodeHandle) :
  topic_ nh = ID_TIME ->
  dispatch nh
  = set_connected_ true
      (completeTimeSync (message_in nh)
         (emit (EvFrameReady (topic_ nh) (payload_in nh)) nh)).
Proof. intros Ht. unfold dispatch. cbn [topic_ emit set_trace]. rewrite Ht. reflexivity. Qed.

(** The dispatcher on the negotiation topic. *)
Lemma dispatch_negotiation (nh : NodeHandle) :
  topic_ nh = TOPIC_NEGOTIATION ->
  dispatch nh
  = negotiateTopics
      (requestTimeSync (emit (EvFrameReady (topic_ nh) (payload_in nh)) nh)).
Proof. intros Ht. unfold dispatch. cbn [topic_ emit set_trace]. rewrite Ht. reflexivity. Qed.

(** The three getters share one shape: the result is that of [requestParam]
    and of the length test together, a failure leaves the caller's array as
    it was, and a success with room in the array copies every element. *)
Lemma getParam_with_spec {A : Type} (field : RequestParamResponse -> list A)
  (fuel : nat) (name : string) (param : list A) (length : Z)
  (nh nh' : NodeHandle) (ok : bool) :
  requestParam fuel name requestParam_time_out nh = Some (ok, nh') ->
  let src := field (req_param_resp nh') in
  let written := ok && (length =? Z.of_nat (List.length src)) in
  exists param',
    getParam_with field fuel name param length nh = Some (written, param', nh') /\
    (written = false -> param' = param) /\
    (written = true -> (List.length src <= List.length param)%nat ->
     param' = src ++ drop (List.length src) param).
Proof.
  intros Hreq src written. unfold getParam_with. rewrite Hreq.
  fold src. fold written. destruct written eqn:Ew.
  - eexists. split; [reflexivity|]. split; [discriminate|].
    intros _ Hroom. apply andb_prop in Ew as [_ El]. apply Z.eqb_eq in El.
    rewrite copy_from_spec by lia. rewrite take_0, drop_0. reflexivity.
  - eexists. split; [reflexivity|]. split; [reflexivity | discriminate].
Qed.

(** Bytes other than 0xFF at [STATE_FIRST_FF]. *)
Lemma ingest_garbage (b : Z) (nh : NodeHandle) :
  state_ nh = STATE_FIRST_FF -> b <> 255 ->
  ingest b nh
  = set_state_error_count_ (state_error_count_ nh + 1) (reset nh).
Proof.
  intros Hst Hb. unfold ingest. cbn [state_ set_checksum_]. rewrite Hst.
  apply Z.eqb_neq in Hb. rewrite Hb. destruct nh; reflexivity.
Qed.

Lemma feed_garbage (garbage : list Z) :
  forall nh : NodeHandle,
  state_ nh = STATE_FIRST_FF -> Forall (fun b => b <> 255) garbage ->
  feed garbage nh = after_garbage (length garbage) nh.
Proof.
  induction garbage as [|b rest IH]; intros nh Hst Hg; [reflexivity|].
  inversion Hg as [|? ? Hb Hrest]; subst.
  rewrite feed_cons, ingest_garbage, IH by (assumption || reflexivity).
  destruct rest as [|b' rest']; [reflexivity|].
  cbn [length after_garbage]. destruct nh.
  cbv -[Z.add Z.of_nat length]. f_equal. lia.
Qed.

(** ** Properties of the protocol *)

(** C1 (round trip).  A well-formed frame for a topic id and a payload of at
    most [kInputSize] bytes, fed byte by byte to the receive state machine at
    [STATE_FIRST_FF], produces exactly one dispatch, and it carries that
    topic id and those payload bytes. *)
Theorem frame_round_trip (topic : Z) (payload : list Z) (checksum : Z)
  (nh : NodeHandle) :
  state_ nh = STATE_FIRST_FF -> rx_inv nh ->
  length (message_in nh) = Z.to_nat kInputSize ->
  0 <= topic < 65536 -> Forall is_byte payload ->
  Z.of_nat (length payload) <= kInputSize ->
  Z.of_nat (length payload) < 65536 ->
  is_byte checksum -> checksum_ok topic payload checksum ->
  exists evs,
    trace (feed (frame topic payload checksum) nh) = trace nh ++ evs /\
    List.filter is_frame_ready evs = [EvFrameReady topic payload].
Proof.
  intros Hst Hinv Hbuf Ht Hp Hlen H16 Hc Hok.
  unfold frame. rewrite app_assoc, feed_app, feed_frame_body by assumption.
  unfold before_checksum. cbn [feed fold_left].
  rewrite ingest_checksum, checksum_test_passes by (assumption || lia).
  rewrite trace_reset.
  match goal with |- context [dispatch ?x] =>
    destruct (dispatch_summary x) as ((evs & Htr & Hq) & _)
  end.
  rewrite payload_in_before_checksum in Htr. cbn [trace topic_ with_rx
    set_state_ set_remaining_data_bytes_ set_topic_ set_data_index_
    set_checksum_ set_message_in set_trace] in Htr.
  exists (stores_at 0 payload ++ EvFrameReady topic payload :: evs).
  split; [rewrite Htr, <- app_assoc; reflexivity|].
  rewrite List.filter_app, stores_at_no_frame_ready. cbn.
  rewrite quiet_no_frame_ready by assumption. reflexivity.
Qed.

(** C2 (no overflow).  On every byte stream, from every state the machine
    can be in, each store into [message_in] is at an index in
    [0, kInputSize).  A header that declares more than [kInputSize] payload
    bytes is dropped at the size-high byte: the machine is reset, the
    invalid-size counter is one higher, and neither the buffer nor the
    trace has changed.  The bytes behind such a header are not skipped:
    they are processed as a stream of their own by the reset machine.
    Bytes free of 0xFF are then never stored, each counting one framing
    error; a frame among them is received like any other, which is why
    "no payload byte of the dropped frame is ever stored" does not hold as
    it is worded. *)
Theorem buffer_writes_in_bounds (bytes : list Z) (nh : NodeHandle) :
  rx_inv nh -> Forall (fun b => 0 <= b) bytes ->
  (exists evs,
     trace (feed bytes nh) = trace nh ++ evs /\ Forall store_in_bounds evs) /\
  (forall tlo thi slo shi,
     state_ nh = STATE_FIRST_FF -> 0 <= kInputSize ->
     is_byte slo -> is_byte shi -> kInputSize < slo + 256 * shi ->
     let header := [255; 255; tlo; thi; slo; shi] in
     let nh' := feed header nh in
     nh' = set_invalid_size_error_count_ (invalid_size_error_count_ nh + 1)
             (reset nh) /\
     state_ nh' = STATE_FIRST_FF /\
     invalid_size_error_count_ nh' = invalid_size_error_count_ nh + 1 /\
     message_in nh' = message_in nh /\ trace nh' = trace nh /\
     feed (header ++ bytes) nh = feed bytes nh' /\
     (exists evs,
        trace (feed (header ++ bytes) nh) = trace nh ++ evs /\
        Forall store_in_bounds evs) /\
     (Forall (fun b => b <> 255) bytes ->
      trace (feed (header ++ bytes) nh) = trace nh /\
      message_in (feed (header ++ bytes) nh) = message_in nh /\
      state_error_count_ (feed (header ++ bytes) nh)
      = state_error_count_ nh + Z.of_nat (length bytes))).
Proof.
  intros Hinv Hb. split; [apply feed_stores_in_bounds; assumption|].
  intros tlo thi slo shi Hst Hk Hlo Hhi Hsz header nh'.
  assert (Hnh' : nh' = set_invalid_size_error_count_
                         (invalid_size_error_count_ nh + 1) (reset nh))
    by (apply feed_oversize_header; assumption).
  split; [exact Hnh'|].
  assert (Happ : feed (header ++ bytes) nh = feed bytes nh')
    by apply feed_app.
  rewrite Happ. rewrite Hnh'.
  do 4 (split; [reflexivity|]). split; [reflexivity|]. split.
  - destruct (feed_stores_in_bounds bytes
                (set_invalid_size_error_count_
                   (invalid_size_error_count_ nh + 1) (reset nh)))
      as (evs & Htr & Hin); [exact Hb | reflexivity |].
    exists evs. split; [exact Htr | exact Hin].
  - intros Hg. rewrite feed_garbage by (reflexivity || assumption).
    destruct bytes as [|b rest]; cbn [length after_garbage].
    + repeat split; reflexivity || (cbn; lia).
    + repeat split; reflexivity.
Qed.


(** C5, as the code has it.  When the last byte of a checksum-valid frame on
    the time topic (id 10) is processed and the time codec accepts the
    buffer, the sync is completed: [time_sync_end_] is the local time sampled
    at completion, [sync_time_] is the decoded timestamp advanced by
    [(time_sync_end_ - time_sync_start_) / 2] milliseconds by the
    duration-addition rule, [time_sync_start_] is cleared and the connection
    is marked live. *)
Theorem time_frame_completes_sync (b : Z) (nh : NodeHandle) :
  state_ nh = STATE_CHECKSUM -> topic_ nh = ID_TIME ->
  Z.rem (checksum_ nh + b) 256 = 255 ->
  0 <= fst (deserialize std_msgs_Time_default (message_in nh) kInputSize) ->
  time_sync_completed b nh.
Proof.
  intros Hst Htopic Hck Hrc. unfold time_sync_completed.
  rewrite ingest_checksum_success, dispatch_time by assumption.
  unfold completeTimeSync, connected.
  cbn [time emit set_trace set_checksum_ hardware_ Hardware_time message_in
       set_hardware_ set_time_sync_end_].
  destruct (deserialize _ _ _) as [rc tm]. cbn [fst snd] in *.
  apply Z.ltb_ge in Hrc. rewrite Hrc.
  cbn. repeat split; reflexivity.
Qed.

(** C10.  When the last byte of a checksum-valid frame on the time topic is
    processed, [connected()] is true afterwards and stays true for the rest
    of the loop of that [spinOnce], whether or not the payload decodes; when
    it does not decode, [time_sync_end_] is still the local time just
    sampled, while [sync_time_] and [time_sync_start_] are as before. *)
Theorem time_frame_marks_connected (b : Z) (nh : NodeHandle) :
  let t := ulong (hw_clock (hardware_ nh) (hw_time_calls (hardware_ nh))) in
  state_ nh = STATE_CHECKSUM -> topic_ nh = ID_TIME ->
  Z.rem (checksum_ nh + b) 256 = 255 ->
  connected (ingest b nh) = true /\
  (forall n byte_count,
     connected (snd (spin_loop n byte_count (ingest b nh))) = true) /\
  (fst (deserialize std_msgs_Time_default (message_in nh) kInputSize) < 0 ->
   time_sync_end_ (ingest b nh) = t /\
   sync_time_ (ingest b nh) = sync_time_ nh /\
   time_sync_start_ (ingest b nh) = time_sync_start_ nh).
Proof.
  intros t Hst Htopic Hck.
  assert (Hcon : connected (ingest b nh) = true).
  { rewrite ingest_checksum_success, dispatch_time by assumption. reflexivity. }
  split; [exact Hcon|]. split.
  { intros n c. apply spin_loop_summary. exact Hcon. }
  intros Hrc.
  rewrite ingest_checksum_success, dispatch_time by assumption.
  unfold completeTimeSync.
  cbn [time emit set_trace set_checksum_ hardware_ Hardware_time message_in
       set_hardware_ set_time_sync_end_].
  destruct (deserialize _ _ _) as [rc tm]. cbn [fst] in Hrc.
  apply Z.ltb_lt in Hrc. rewrite Hrc. cbn. repeat split; reflexivity.
Qed.

(** C8.  When the last byte of a checksum-valid frame on the negotiation
    topic (id 0) is processed, the handle first requests a time sync (which
    publishes an empty time message unless a request is in flight) and then
    publishes one topic-info record on [TOPIC_PUBLISHERS] per occupied
    publisher slot, in slot order up to the first empty slot, followed by
    one on [TOPIC_SUBSCRIBERS] per occupied receiver slot, likewise. *)
Theorem negotiation_frame_publishes_catalogue (b : Z) (nh : NodeHandle) :
  state_ nh = STATE_CHECKSUM -> topic_ nh = TOPIC_NEGOTIATION ->
  Z.rem (checksum_ nh + b) 256 = 255 ->
  trace (ingest b nh)
  = trace nh
    ++ [EvFrameReady TOPIC_NEGOTIATION (payload_in nh)]
    ++ (if time_sync_start_ nh >? 0 then []
        else [EvPublish ID_TIME (MsgTime std_msgs_Time_default)])
    ++ map (fun p => EvPublish TOPIC_PUBLISHERS
                       (MsgTopicInfo (pub_id p) (pub_topic_name p)
                          (pub_message_type p)))
         (occupied (take (Z.to_nat kMaxPublishers) (publishers nh)))
    ++ map (fun r => EvPublish TOPIC_SUBSCRIBERS
                       (MsgTopicInfo (rcv_id r) (rcv_topic_name r)
                          (rcv_message_type r)))
         (occupied (take (Z.to_nat kMaxSubscribers) (receivers nh))) /\
  time_sync_start_ (ingest b nh)
  = (if time_sync_start_ nh >? 0 then time_sync_start_ nh
     else ulong (hw_clock (hardware_ nh) (hw_time_calls (hardware_ nh)))).
Proof.
  intros Hst Htopic Hck.
  rewrite ingest_checksum_success, dispatch_negotiation by assumption.
  rewrite negotiateTopics_spec. unfold requestTimeSync, catalogue.
  cbn [emit set_trace set_checksum_ time_sync_start_ topic_ payload_in
       data_index_ message_in].
  rewrite Htopic.
  destruct (time_sync_start_ nh >? 0); cbn;
    (split; [rewrite <- !app_assoc; reflexivity | reflexivity]).
Qed.


(** C7.  A call of [spinOnce] returns a count between 0 and
    [kMaxBytesPerSpin]; the count is the number of bytes it took from the
    port (the first [count] pending read results, all of them bytes); when it
    is below [kMaxBytesPerSpin] the call stopped because the next read
    reported no byte available, and that was its last read; the port was read
    [count] times, plus once for that failed read. *)
Theorem spinOnce_bounded_reads (nh : NodeHandle) :
  let rx := hw_rx (hardware_ nh) in
  let count := fst (spinOnce nh) in
  let nh' := snd (spinOnce nh) in
  0 <= kMaxBytesPerSpin ->
  0 <= count <= kMaxBytesPerSpin /\
  (Z.to_nat count <= length rx)%nat /\
  Forall (fun b => 0 <= b) (take (Z.to_nat count) rx) /\
  (count < kMaxBytesPerSpin ->
   match rx !! Z.to_nat count with Some b => b < 0 | None => True end /\
   hw_reads (hardware_ nh') = (hw_reads (hardware_ nh) + Z.to_nat count + 1)%nat /\
   hw_rx (hardware_ nh') = drop (Z.to_nat count + 1) rx) /\
  (count = kMaxBytesPerSpin ->
   hw_reads (hardware_ nh') = (hw_reads (hardware_ nh) + Z.to_nat count)%nat /\
   hw_rx (hardware_ nh') = drop (Z.to_nat count) rx).
Proof.
  intros rx count nh' Hk. subst rx count nh'. rewrite spinOnce_unfold.
  set (nh1 := check_connection (time nh).1 (time nh).2).
  assert (Hp : same_port nh nh1).
  { eapply same_port_trans; [|apply check_connection_port].
    unfold same_port; cbn; auto. }
  destruct Hp as (Hrx & Hrd & _).
  destruct (spin_loop_port (Z.to_nat kMaxBytesPerSpin) 0 nh1)
    as (k & Hc & Hkn & Hlen & Hall & Hstop & Hrx' & Hrd').
  rewrite Hrx in Hlen, Hall, Hstop, Hrx'. rewrite Hrd in Hrd'.
  rewrite Hc, Hrx', Hrd'.
  replace (Z.to_nat (0 + Z.of_nat k)) with k by lia.
  split; [lia|]. split; [exact Hlen|]. split; [exact Hall|].
  destruct (Nat.ltb_spec k (Z.to_nat kMaxBytesPerSpin)) as [Hlt|Hge].
  - split; [|lia]. intros _. split; [apply Hstop; exact Hlt|]. split; reflexivity.
  - split; [lia|]. intros _. rewrite !Nat.add_0_r. split; reflexivity.
Qed.

(** C9.  For each of the three getters, declared length [length] and a
    parameter request that returns: the getter returns true exactly when the
    request succeeded and [length] equals the length field of the response;
    then, the caller's array having room, its first [length] elements are
    the response's elements; otherwise it returns false and the caller's
    array is untouched. *)
Theorem getParam_writes_iff_request_and_length (fuel : nat) (name : string)
  (length : Z) (nh nh' : NodeHandle) (ok : bool)
  (iparam : list Z) (fparam : list float32) (sparam : list string) :
  requestParam fuel name requestParam_time_out nh = Some (ok, nh') ->
  let resp := req_param_resp nh' in
  (exists param',
     getParam_int fuel name iparam length nh
     = Some (ok && (length =? ints_length resp), param', nh') /\
     (ok && (length =? ints_length resp) = false -> param' = iparam) /\
     (ok && (length =? ints_length resp) = true ->
      (List.length (ints resp) <= List.length iparam)%nat ->
      param' = ints resp ++ drop (List.length (ints resp)) iparam)) /\
  (exists param',
     getParam_float fuel name fparam length nh
     = Some (ok && (length =? floats_length resp), param', nh') /\
     (ok && (length =? floats_length resp) = false -> param' = fparam) /\
     (ok && (length =? floats_length resp) = true ->
      (List.length (floats resp) <= List.length fparam)%nat ->
      param' = floats resp ++ drop (List.length (floats resp)) fparam)) /\
  (exists param',
     getParam_string fuel name sparam length nh
     = Some (ok && (length =? strings_length resp), param', nh') /\
     (ok && (length =? strings_length resp) = false -> param' = sparam) /\
     (ok && (length =? strings_length resp) = true ->
      (List.length (strings resp) <= List.length sparam)%nat ->
      param' = strings resp ++ drop (List.length (strings resp)) sparam)).
Proof.
  intros Hreq resp. repeat split.
  - apply (getParam_with_spec ints _ _ iparam length _ _ _ Hreq).
  - apply (getParam_with_spec floats _ _ fparam length _ _ _ Hreq).
  - apply (getParam_with_spec strings _ _ sparam length _ _ _ Hreq).
Qed.

End Properties.

(** * Further properties of the handle *)

Section Reception.

Context {config : Config}.
Context {time_arith : TimeArith}.
Context {Time_codec : Msg std_msgs_Time}.
Context {RequestParamResponse_codec : Msg RequestParamResponse}.

(** ** Framing errors and resynchronisation *)

(** The trace of a well-formed frame fed at [STATE_FIRST_FF]: the stores of
    the payload, the frame-ready mark, and what the dispatcher did. *)
Lemma feed_frame_trace (topic : Z) (payload : list Z) (checksum : Z)
  (nh : NodeHandle) :
  state_ nh = STATE_FIRST_FF -> rx_inv nh ->
  length (message_in nh) = Z.to_nat kInputSize ->
  0 <= topic < 65536 -> Forall is_byte payload ->
  Z.of_nat (length payload) <= kInputSize ->
  Z.of_nat (length payload) < 65536 ->
  is_byte checksum -> checksum_ok topic payload checksum ->
  exists evs,
    trace (feed (frame topic payload checksum) nh)
    = trace nh ++ stores_at 0 payload ++ EvFrameReady topic payload :: evs /\
    Forall quiet evs.
Proof.
  intros Hst Hinv Hbuf Ht Hp Hlen H16 Hc Hok.
  unfold frame. rewrite app_assoc, feed_app, feed_frame_body by assumption.
  unfold before_checksum. cbn [feed fold_left].
  rewrite ingest_checksum, checksum_test_passes by (assumption || lia).
  rewrite trace_reset.
  match goal with |- context [dispatch ?x] =>
    destruct (dispatch_summary x) as ((evs & Htr & Hq) & _)
  end.
  rewrite payload_in_before_checksum in Htr. cbn [trace topic_ with_rx
    set_state_ set_remaining_data_bytes_ set_topic_ set_data_index_
    set_checksum_ set_message_in set_trace] in Htr.
  exists evs. split; [rewrite Htr, <- app_assoc; reflexivity | exact Hq].
Qed.

Lemma frame_ready_once (topic : Z) (payload : list Z) (evs : list Event) :
  Forall quiet evs ->
  List.filter is_frame_ready
    (stores_at 0 payload ++ EvFrameReady topic payload :: evs)
  = [EvFrameReady topic payload].
Proof.
  intros Hq. rewrite List.filter_app, stores_at_no_frame_ready. cbn.
  rewrite quiet_no_frame_ready by assumption. reflexivity.
Qed.

Ltac unfold_handle_ops :=
  unfold completeTimeSync, requestTimeSync, check_connection,
    logdebug, log, publish, emit, store, reset, payload_in, time, read,
    Hardware_time, Hardware_read in *;
  try rewrite !negotiateTopics_spec in *.

Lemma state_error_count_reset (nh : NodeHandle) :
  state_error_count_ (reset nh) = state_error_count_ nh.
Proof. reflexivity. Qed.

(** What the dispatcher never touches: the framing-state and invalid-size
    counters, the buffer, the registries and the state machine's members. *)
Lemma dispatch_untouched (nh : NodeHandle) :
  state_error_count_ (dispatch nh) = state_error_count_ nh /\
  invalid_size_error_count_ (dispatch nh) = invalid_size_error_count_ nh /\
  message_in (dispatch nh) = message_in nh /\
  publishers (dispatch nh) = publishers nh /\
  receivers (dispatch nh) = receivers nh /\
  total_receivers_ (dispatch nh) = total_receivers_ nh.
Proof.
  unfold dispatch. cbn [topic_ emit set_trace].
  destruct (topic_ nh =? TOPIC_NEGOTIATION).
  { unfold_handle_ops. cbn. destruct (time_sync_start_ nh >? 0); cbn;
      repeat split; reflexivity. }
  destruct (topic_ nh =? ID_TIME).
  { unfold_handle_ops. cbn.
    destruct (deserialize _ _ _) as [rc tm]. destruct (rc <? 0); cbn;
      repeat split; reflexivity. }
  destruct (topic_ nh =? ID_PARAMETER_REQUEST).
  { unfold_handle_ops. cbn.
    destruct (deserialize _ _ _) as [rc resp]. destruct (rc >=? 0); cbn;
      repeat split; reflexivity. }
  cbn [receivers message_in data_index_ emit set_trace].
  match goal with
  | |- context [if ?c then receivers nh !! ?i else None] =>
      destruct (if c then receivers nh !! i else None) as [[r|]|]
  end; cbn; try destruct (negb _); cbn; repeat split; reflexivity.
Qed.

(** X1.  Bytes other than 0xFF arriving at [STATE_FIRST_FF] are thrown away
    one by one: each adds one to the framing-state counter and resets the
    machine, which stays at [STATE_FIRST_FF]; the other counters, the buffer,
    the trace, the connection flag and the port are as before. *)
Theorem garbage_only_counts_framing_errors (garbage : list Z) (nh : NodeHandle) :
  state_ nh = STATE_FIRST_FF -> Forall (fun b => b <> 255) garbage ->
  let nh' := feed garbage nh in
  state_ nh' = STATE_FIRST_FF /\
  state_error_count_ nh' = state_error_count_ nh + Z.of_nat (length garbage) /\
  invalid_size_error_count_ nh' = invalid_size_error_count_ nh /\
  checksum_error_count_ nh' = checksum_error_count_ nh /\
  malformed_message_error_count_ nh' = malformed_message_error_count_ nh /\
  trace nh' = trace nh /\ message_in nh' = message_in nh /\
  connected_ nh' = connected_ nh /\ hardware_ nh' = hardware_ nh.
Proof.
  intros Hst Hg nh'. subst nh'. rewrite feed_garbage by assumption.
  destruct garbage as [|b rest]; cbn [length after_garbage].
  - rewrite Hst. repeat split; reflexivity || (cbn; lia).
  - repeat split; reflexivity.
Qed.

(** X2.  Resynchronisation: garbage free of 0xFF in front of a well-formed
    frame costs one framing error per byte, and the frame behind it is
    still dispatched exactly once with its topic and payload. *)
Theorem resync_after_garbage (garbage : list Z) (topic : Z) (payload : list Z)
  (checksum : Z) (nh : NodeHandle) :
  state_ nh = STATE_FIRST_FF -> rx_inv nh ->
  length (message_in nh) = Z.to_nat kInputSize ->
  Forall (fun b => b <> 255) garbage ->
  0 <= topic < 65536 -> Forall is_byte payload ->
  Z.of_nat (length payload) <= kInputSize ->
  Z.of_nat (length payload) < 65536 ->
  is_byte checksum -> checksum_ok topic payload checksum ->
  exists evs,
    trace (feed (garbage ++ frame topic payload checksum) nh) = trace nh ++ evs /\
    List.filter is_frame_ready evs = [EvFrameReady topic payload] /\
    state_error_count_ (feed (garbage ++ frame topic payload checksum) nh)
    = state_error_count_ nh + Z.of_nat (length garbage).
Proof.
  intros Hst Hinv Hbuf Hg Ht Hp Hlen H16 Hc Hok.
  rewrite feed_app, (feed_garbage garbage nh) by assumption.
  set (nh1 := after_garbage (length garbage) nh).
  assert (H1 : state_ nh1 = STATE_FIRST_FF /\ rx_inv nh1 /\
               message_in nh1 = message_in nh /\ trace nh1 = trace nh /\
               state_error_count_ nh1
               = state_error_count_ nh + Z.of_nat (length garbage)).
  { subst nh1. destruct (length garbage); cbn [after_garbage].
    - repeat split; auto. cbn; lia.
    - repeat split; reflexivity. }
  destruct H1 as (Hst1 & Hinv1 & Hbuf1 & Htr1 & Hcnt1).
  destruct (feed_frame_trace topic payload checksum nh1) as (evs & Htr & Hq);
    try assumption; [rewrite Hbuf1; exact Hbuf|].
  eexists. split; [rewrite Htr, Htr1; reflexivity|].
  split; [apply frame_ready_once; exact Hq|].
  rewrite <- Hcnt1. unfold frame.
  rewrite app_assoc, feed_app, feed_frame_body by (assumption || congruence).
  unfold before_checksum. cbn [feed fold_left]. rewrite ingest_checksum.
  destruct (_ =? 255); [|reflexivity].
  rewrite state_error_count_reset.
  match goal with |- context [dispatch ?x] =>
    destruct (dispatch_untouched x) as (Hs & _); rewrite Hs
  end. reflexivity.
Qed.

(** X3.  A frame whose checksum byte fails the test is never delivered: fed
    at [STATE_FIRST_FF], it leaves only the stores of its payload on the
    trace (no dispatch, no publish, no receiver call), the registries, the
    connection flag and the time-sync state are untouched, and the machine
    is back at [STATE_FIRST_FF]. *)
Theorem corrupt_frame_not_delivered (topic : Z) (payload : list Z) (checksum : Z)
  (nh : NodeHandle) :
  state_ nh = STATE_FIRST_FF -> rx_inv nh ->
  length (message_in nh) = Z.to_nat kInputSize ->
  0 <= topic < 65536 -> Forall is_byte payload ->
  Z.of_nat (length payload) <= kInputSize ->
  Z.of_nat (length payload) < 65536 ->
  is_byte checksum -> ~ checksum_ok topic payload checksum ->
  let nh' := feed (frame topic payload checksum) nh in
  trace nh' = trace nh ++ stores_at 0 payload /\
  state_ nh' = STATE_FIRST_FF /\ data_index_ nh' = 0 /\
  connected_ nh' = connected_ nh /\ param_received_ nh' = param_received_ nh /\
  time_sync_start_ nh' = time_sync_start_ nh /\
  time_sync_end_ nh' = time_sync_end_ nh /\ sync_time_ nh' = sync_time_ nh /\
  req_param_resp nh' = req_param_resp nh /\
  malformed_message_error_count_ nh' = malformed_message_error_count_ nh /\
  hardware_ nh' = hardware_ nh.
Proof.
  intros Hst Hinv Hbuf Ht Hp Hlen H16 Hc Hbad nh'. subst nh'.
  unfold frame. rewrite app_assoc, feed_app, feed_frame_body by assumption.
  unfold before_checksum. cbn [feed fold_left]. rewrite ingest_checksum.
  match goal with |- context [if ?c then _ else _] => destruct c eqn:E end.
  - exfalso. apply Hbad. unfold checksum_ok, is_byte in *.
    apply Z.eqb_eq in E.
    pose proof (sum_bytes_nonneg _ Hp).
    pose proof (Z.mod_pos_bound topic 256 ltac:(lia)).
    pose proof (Z.div_pos topic 256 ltac:(lia) ltac:(lia)).
    pose proof (Z.mod_pos_bound (Z.of_nat (length payload)) 256 ltac:(lia)).
    pose proof (Z.div_pos (Z.of_nat (length payload)) 256 ltac:(lia) ltac:(lia)).
    rewrite Z.rem_mod_nonneg in E by lia. exact E.
  - repeat split; reflexivity.
Qed.

(** ** What a checksum-valid frame does, topic by topic *)

Lemma dispatch_other_topic (nh : NodeHandle) :
  topic_ nh <> TOPIC_NEGOTIATION -> topic_ nh <> ID_TIME ->
  topic_ nh <> ID_PARAMETER_REQUEST ->
  dispatch nh
  = let nh1 := emit (EvFrameReady (topic_ nh) (payload_in nh)) nh in
    match
      (if (topic_ nh >=? 100) && (topic_ nh - 100 <? kMaxSubscribers)
       then receivers nh !! Z.to_nat (topic_ nh - 100) else None)
    with
    | Some (Some r) =>
        let success := rcv_receive r (message_in nh) (data_index_ nh) in
        let nh2 := emit (EvReceive (topic_ nh - 100) (payload_in nh)) nh1 in
        if negb success then
          set_malformed_message_error_count_
            (malformed_message_error_count_ nh + 1) nh2
        else nh2
    | _ => set_checksum_error_count_ (checksum_error_count_ nh + 1) nh1
    end.
Proof.
  intros H0 H10 H6. unfold dispatch. cbn [topic_ emit set_trace].
  apply Z.eqb_neq in H0, H10, H6. rewrite H0, H10, H6. reflexivity.
Qed.

Lemma dispatch_parameter (nh : NodeHandle) :
  topic_ nh = ID_PARAMETER_REQUEST ->
  dispatch nh
  = let nh1 := emit (EvFrameReady (topic_ nh) (payload_in nh)) nh in
    let '(rc, resp) := deserialize (req_param_resp nh) (message_in nh) kInputSize in
    let nh2 := set_req_param_resp resp nh1 in
    if rc >=? 0 then set_param_received_ true nh2 else nh2.
Proof.
  intros H6. unfold dispatch. cbn [topic_ emit set_trace]. rewrite H6. reflexivity.
Qed.

(** X4.  Delivery to a subscriber.  When the last byte of a checksum-valid
    frame is processed and its topic is 100 + i for a receiver slot i that
    is occupied, that receiver's [receive] is called once with the buffer and
    the payload length, after the frame-ready mark; the malformed-message
    counter goes up by one exactly when [receive] reports failure, the other
    counters stay, and the machine is reset. *)
Theorem subscriber_frame_delivered (b : Z) (nh : NodeHandle) (r : MsgReceiver) :
  state_ nh = STATE_CHECKSUM -> Z.rem (checksum_ nh + b) 256 = 255 ->
  100 <= topic_ nh -> topic_ nh - 100 < kMaxSubscribers ->
  receivers nh !! Z.to_nat (topic_ nh - 100) = Some (Some r) ->
  let nh' := ingest b nh in
  trace nh'
  = trace nh ++ [EvFrameReady (topic_ nh) (payload_in nh);
                 EvReceive (topic_ nh - 100) (payload_in nh)] /\
  malformed_message_error_count_ nh'
  = malformed_message_error_count_ nh
    + (if rcv_receive r (message_in nh) (data_index_ nh) then 0 else 1) /\
  checksum_error_count_ nh' = checksum_error_count_ nh /\
  invalid_size_error_count_ nh' = invalid_size_error_count_ nh /\
  state_error_count_ nh' = state_error_count_ nh /\
  state_ nh' = STATE_FIRST_FF /\ data_index_ nh' = 0 /\
  connected_ nh' = connected_ nh /\ param_received_ nh' = param_received_ nh.
Proof.
  intros Hst Hck Hlo Hhi Hslot nh'. subst nh'.
  rewrite ingest_checksum_success by assumption.
  rewrite dispatch_other_topic
    by (cbn [topic_ set_checksum_]; unfold TOPIC_NEGOTIATION, ID_TIME,
        ID_PARAMETER_REQUEST; lia).
  cbv zeta. cbn [topic_ receivers message_in data_index_ set_checksum_
    payload_in].
  replace (topic_ nh >=? 100) with true by (symmetry; apply Z.geb_le; lia).
  replace (topic_ nh - 100 <? kMaxSubscribers) with true
    by (symmetry; apply Z.ltb_lt; lia).
  cbn [andb]. rewrite Hslot.
  destruct (rcv_receive r (message_in nh) (data_index_ nh)); cbn;
    rewrite <- ?app_assoc; repeat split; reflexivity || lia.
Qed.

(** X5.  A checksum-valid frame on a topic that is neither reserved (0, 10,
    6) nor the channel of an occupied receiver slot is dropped: apart from
    the frame-ready mark nothing is published or called, and it is the
    checksum-error counter that goes up by one. *)
Theorem unknown_topic_frame_counted (b : Z) (nh : NodeHandle) :
  state_ nh = STATE_CHECKSUM -> Z.rem (checksum_ nh + b) 256 = 255 ->
  topic_ nh <> TOPIC_NEGOTIATION -> topic_ nh <> ID_TIME ->
  topic_ nh <> ID_PARAMETER_REQUEST ->
  (topic_ nh < 100 \/ kMaxSubscribers <= topic_ nh - 100 \/
   receivers nh !! Z.to_nat (topic_ nh - 100) = Some None) ->
  let nh' := ingest b nh in
  trace nh' = trace nh ++ [EvFrameReady (topic_ nh) (payload_in nh)] /\
  checksum_error_count_ nh' = checksum_error_count_ nh + 1 /\
  malformed_message_error_count_ nh' = malformed_message_error_count_ nh /\
  invalid_size_error_count_ nh' = invalid_size_error_count_ nh /\
  state_error_count_ nh' = state_error_count_ nh /\
  state_ nh' = STATE_FIRST_FF /\
  connected_ nh' = connected_ nh /\ param_received_ nh' = param_received_ nh.
Proof.
  intros Hst Hck H0 H10 H6 Hno nh'. subst nh'.
  rewrite ingest_checksum_success by assumption.
  rewrite dispatch_other_topic by assumption.
  cbv zeta. cbn [topic_ receivers message_in data_index_ set_checksum_
    payload_in].
  assert (E : (if (topic_ nh >=? 100) && (topic_ nh - 100 <? kMaxSubscribers)
               then receivers nh !! Z.to_nat (topic_ nh - 100) else None)
              = None \/
              (if (topic_ nh >=? 100) && (topic_ nh - 100 <? kMaxSubscribers)
               then receivers nh !! Z.to_nat (topic_ nh - 100) else None)
              = Some None).
  { destruct (Z.geb_spec (topic_ nh) 100), (Z.ltb_spec (topic_ nh - 100) kMaxSubscribers);
      cbn [andb]; auto.
    destruct Hno as [?|[?|Hn]]; [lia|lia|rewrite Hn; auto]. }
  destruct E as [-> | ->]; cbn; repeat split; reflexivity.
Qed.

(** X6.  A checksum-valid frame on the parameter topic (6) is decoded into
    the response buffer; [param_received_] is raised exactly when the codec
    accepts it.  A response the codec rejects changes no error counter. *)
Theorem parameter_frame_decoded (b : Z) (nh : NodeHandle) :
  state_ nh = STATE_CHECKSUM -> Z.rem (checksum_ nh + b) 256 = 255 ->
  topic_ nh = ID_PARAMETER_REQUEST ->
  let decoded := deserialize (req_param_resp nh) (message_in nh) kInputSize in
  let nh' := ingest b nh in
  req_param_resp nh' = snd decoded /\
  param_received_ nh' = (if fst decoded >=? 0 then true else param_received_ nh) /\
  trace nh' = trace nh ++ [EvFrameReady ID_PARAMETER_REQUEST (payload_in nh)] /\
  checksum_error_count_ nh' = checksum_error_count_ nh /\
  malformed_message_error_count_ nh' = malformed_message_error_count_ nh /\
  invalid_size_error_count_ nh' = invalid_size_error_count_ nh /\
  state_error_count_ nh' = state_error_count_ nh /\
  state_ nh' = STATE_FIRST_FF.
Proof.
  intros Hst Hck H6 decoded nh'. subst nh' decoded.
  rewrite ingest_checksum_success by assumption.
  rewrite dispatch_parameter by exact H6.
  cbv zeta. cbn [topic_ req_param_resp message_in set_checksum_ payload_in
    data_index_].
  rewrite H6.
  destruct (deserialize _ _ _) as [rc resp]. cbn [fst snd].
  destruct (rc >=? 0); cbn; repeat split; reflexivity.
Qed.

(** ** [spinOnce] and the state machine *)

Lemma with_queue_with_queue (rx1 rx2 : list Z) (r1 r2 : nat) (nh : NodeHandle) :
  with_queue rx2 r2 (with_queue rx1 r1 nh) = with_queue rx2 r2 nh.
Proof. reflexivity. Qed.

Lemma with_queue_id (nh : NodeHandle) :
  with_queue (hw_rx (hardware_ nh)) (hw_reads (hardware_ nh)) nh = nh.
Proof. destruct nh as [[] ]; reflexivity. Qed.

Lemma reset_with_queue (rx : list Z) (reads : nat) (nh : NodeHandle) :
  reset (with_queue rx reads nh) = with_queue rx reads (reset nh).
Proof. reflexivity. Qed.

(** The dispatcher and the state machine do not look at the port's queue. *)
Lemma dispatch_with_queue (rx : list Z) (reads : nat) (nh : NodeHandle) :
  dispatch (with_queue rx reads nh) = with_queue rx reads (dispatch nh).
Proof.
  unfold dispatch. cbn [topic_ emit set_trace with_queue set_hardware_].
  destruct (topic_ nh =? TOPIC_NEGOTIATION).
  { unfold_handle_ops. unfold with_queue. cbn.
    destruct (time_sync_start_ nh >? 0); reflexivity. }
  destruct (topic_ nh =? ID_TIME).
  { unfold_handle_ops. unfold with_queue. cbn.
    destruct (deserialize _ _ _) as [rc tm]. destruct (rc <? 0); reflexivity. }
  destruct (topic_ nh =? ID_PARAMETER_REQUEST).
  { unfold with_queue. cbn.
    destruct (deserialize _ _ _) as [rc resp]. destruct (rc >=? 0); reflexivity. }
  unfold with_queue, payload_in. cbn.
  match goal with
  | |- context [if ?c then receivers nh !! ?i else None] =>
      destruct (if c then receivers nh !! i else None) as [[r|]|]
  end; try destruct (negb _); reflexivity.
Qed.

Lemma ingest_with_queue (b : Z) (rx : list Z) (reads : nat) (nh : NodeHandle) :
  ingest b (with_queue rx reads nh) = with_queue rx reads (ingest b nh).
Proof.
  destruct (state_ nh) eqn:Est.
  8: { destruct (Z.eq_dec (Z.rem (checksum_ nh + b) 256) 255) as [E|E].
       - rewrite (ingest_checksum_success b nh Est E).
         rewrite (ingest_checksum_success b (with_queue rx reads nh) Est E).
         change (set_checksum_ (checksum_ (with_queue rx reads nh) + b)
                   (with_queue rx reads nh))
           with (with_queue rx reads (set_checksum_ (checksum_ nh + b) nh)).
         rewrite dispatch_with_queue. apply reset_with_queue.
       - rewrite (ingest_checksum_failure b nh Est E).
         rewrite (ingest_checksum_failure b (with_queue rx reads nh) Est E).
         reflexivity. }
  all: unfold ingest; cbn [state_ set_checksum_ with_queue set_hardware_];
    rewrite Est; unfold with_queue, store, emit, reset; cbn;
    repeat match goal with |- context [if ?c then _ else _] => destruct c end;
    reflexivity.
Qed.

Lemma feed_with_queue (bytes : list Z) (rx : list Z) (reads : nat) :
  forall nh : NodeHandle,
  feed bytes (with_queue rx reads nh) = with_queue rx reads (feed bytes nh).
Proof.
  induction bytes as [|b bytes IH]; intros nh; [reflexivity|].
  rewrite !feed_cons, ingest_with_queue. apply IH.
Qed.

Lemma feed_snoc (bytes : list Z) (b : Z) (nh : NodeHandle) :
  feed (bytes ++ [b]) nh = ingest b (feed bytes nh).
Proof. rewrite feed_app. reflexivity. Qed.

(** The loop of [spinOnce] is the state machine fed with the bytes it took
    from the port, in order. *)
Lemma spin_loop_feed (n : nat) :
  forall (byte_count : Z) (nh : NodeHandle),
  let r := spin_loop n byte_count nh in
  let k := Z.to_nat (fst r - byte_count) in
  snd r
  = with_queue (hw_rx (hardware_ (snd r))) (hw_reads (hardware_ (snd r)))
      (feed (take k (hw_rx (hardware_ nh))) nh).
Proof.
  induction n as [|n IH]; intros c nh r k; subst r k.
  - cbn [spin_loop fst snd]. replace (Z.to_nat (c - c)) with 0%nat by lia.
    rewrite take_0. symmetry. apply with_queue_id.
  - cbn [spin_loop]. rewrite read_spec. cbv zeta.
    destruct (hw_rx (hardware_ nh)) as [|b rest] eqn:Erx.
    + change (-1 <? 0) with true. cbv iota. cbn [fst snd].
      replace (Z.to_nat (c - c)) with 0%nat by lia. reflexivity.
    + destruct (b <? 0).
      * cbn [fst snd]. replace (Z.to_nat (c - c)) with 0%nat by lia. reflexivity.
      * match goal with |- context [ingest b ?x] => set (nh1 := x) end.
        specialize (IH (c + 1) (ingest b nh1)).
        destruct (spin_loop_port n (c + 1) (ingest b nh1)) as (k & Hc & _).
        cbv zeta in IH. rewrite IH at 1. rewrite Hc.
        replace (Z.to_nat (c + 1 + Z.of_nat k - (c + 1))) with k by lia.
        replace (Z.to_nat (c + 1 + Z.of_nat k - c)) with (S k) by lia.
        cbn [take]. rewrite feed_cons.
        destruct (ingest_summary b nh1) as (_ & _ & (Hrx & _) & _).
        rewrite Hrx.
        change nh1 with (with_queue rest (S (hw_reads (hardware_ nh))) nh).
        cbn [hardware_ with_queue set_hardware_ hw_rx].
        rewrite ingest_with_queue, feed_with_queue, with_queue_with_queue.
        reflexivity.
Qed.

(** [spinOnce] in terms of [feed]. *)
Lemma spinOnce_as_feed (nh : NodeHandle) :
  snd (spinOnce nh)
  = with_queue (hw_rx (hardware_ (snd (spinOnce nh))))
      (hw_reads (hardware_ (snd (spinOnce nh))))
      (feed (take (Z.to_nat (fst (spinOnce nh))) (hw_rx (hardware_ nh)))
         (check_connection (fst (time nh)) (snd (time nh)))).
Proof.
  rewrite spinOnce_unfold.
  set (nh1 := check_connection (time nh).1 (time nh).2).
  pose proof (spin_loop_feed (Z.to_nat kMaxBytesPerSpin) 0 nh1) as H.
  cbv zeta in H. rewrite Z.sub_0_r in H.
  assert (Hrx : hw_rx (hardware_ nh1) = hw_rx (hardware_ nh)).
  { destruct (check_connection_port (time nh).1 (time nh).2) as (Hq & _).
    subst nh1. rewrite Hq. reflexivity. }
  rewrite Hrx in H. exact H.
Qed.

(** X7.  [spinOnce] is housekeeping followed by the state machine fed with
    exactly the bytes the call took from the port, in the order the port
    delivered them: apart from the port's queue and read count, the handle
    it leaves is [feed] of those bytes. *)
Theorem spinOnce_feeds_consumed_bytes (nh : NodeHandle) :
  let count := fst (spinOnce nh) in
  let nh' := snd (spinOnce nh) in
  nh' = with_queue (hw_rx (hardware_ nh')) (hw_reads (hardware_ nh'))
          (feed (take (Z.to_nat count) (hw_rx (hardware_ nh)))
             (check_connection (fst (time nh)) (snd (time nh)))).
Proof. intros count nh'. apply spinOnce_as_feed. Qed.

(** What the housekeeping at the head of [spinOnce] leaves alone: it appends
    at most publishes to the trace, never writes the buffer, and a machine
    waiting at [STATE_FIRST_FF] still waits there. *)
Lemma check_connection_reception (t : Z) (nh : NodeHandle) :
  (exists evs, trace (check_connection t nh) = trace nh ++ evs /\ Forall quiet evs) /\
  message_in (check_connection t nh) = message_in nh /\
  (state_ nh = STATE_FIRST_FF -> state_ (check_connection t nh) = STATE_FIRST_FF).
Proof.
  unfold check_connection.
  destruct (connected_ nh);
    [|split; [exists []; rewrite app_nil_r; split; [reflexivity|constructor]|auto]].
  destruct (ulong (t - time_sync_end_ nh) >? kConnectionTimeout);
    unfold_handle_ops; cbn;
    destruct (ulong (t - time_sync_end_ nh) >? kSyncPeriod); cbn;
    try destruct (time_sync_start_ nh >? 0); cbn;
    (split; [first [exists []; rewrite app_nil_r; split; [reflexivity|constructor]
                   | eexists; split; [reflexivity|];
                     constructor; [split; reflexivity|constructor]]|auto]).
Qed.

Lemma frame_bytes_nonneg (topic : Z) (payload : list Z) (checksum : Z) :
  0 <= topic -> Forall is_byte payload -> is_byte checksum ->
  Forall (fun b => 0 <= b) (frame topic payload checksum).
Proof.
  intros Ht Hp Hc. unfold frame, is_byte in *.
  pose proof (Z.mod_pos_bound topic 256 ltac:(lia)).
  pose proof (Z.div_pos topic 256 Ht ltac:(lia)).
  pose proof (Z.mod_pos_bound (Z.of_nat (length payload)) 256 ltac:(lia)).
  pose proof (Z.div_pos (Z.of_nat (length payload)) 256 ltac:(lia) ltac:(lia)).
  repeat (constructor; [lia|]).
  apply Forall_app; split.
  - eapply Forall_impl; [exact Hp|]. cbn; intros; lia.
  - constructor; [lia|constructor].
Qed.

(** X8.  A whole well-formed frame waiting on the port, with nothing behind
    it, is taken by one call of [spinOnce] when it fits in
    [kMaxBytesPerSpin] bytes and the machine is at [STATE_FIRST_FF]: the call
    returns the frame's length and dispatches the frame exactly once. *)
Theorem spinOnce_receives_pending_frame (topic : Z) (payload : list Z)
  (checksum : Z) (rest : list Z) (nh : NodeHandle) :
  state_ nh = STATE_FIRST_FF -> rx_inv nh ->
  length (message_in nh) = Z.to_nat kInputSize ->
  0 <= topic < 65536 -> Forall is_byte payload ->
  Z.of_nat (length payload) <= kInputSize ->
  Z.of_nat (length payload) < 65536 ->
  is_byte checksum -> checksum_ok topic payload checksum ->
  hw_rx (hardware_ nh) = frame topic payload checksum ++ rest ->
  match rest with [] => True | b :: _ => b < 0 end ->
  Z.of_nat (length (frame topic payload checksum)) <= kMaxBytesPerSpin ->
  fst (spinOnce nh) = Z.of_nat (length (frame topic payload checksum)) /\
  exists evs,
    trace (snd (spinOnce nh)) = trace nh ++ evs /\
    List.filter is_frame_ready evs = [EvFrameReady topic payload].
Proof.
  intros Hst Hinv Hbuf Ht Hp Hlen H16 Hc Hok Hrx Hrest Hfit.
  set (fr := frame topic payload checksum) in *.
  assert (Hnn : Forall (fun b => 0 <= b) fr)
    by (apply frame_bytes_nonneg; [lia|assumption|assumption]).
  pose proof (spinOnce_as_feed nh) as Hfeed.
  rewrite spinOnce_unfold in *.
  set (nh1 := check_connection (time nh).1 (time nh).2) in *.
  destruct (check_connection_port (time nh).1 (time nh).2) as (Hq & _).
  fold nh1 in Hq. cbn [hardware_ time set_hardware_ Hardware_time snd hw_rx] in Hq.
  destruct (spin_loop_port (Z.to_nat kMaxBytesPerSpin) 0 nh1)
    as (k & Hcnt & Hkn & Hklen & Hall & Hstop & _).
  rewrite Hq, Hrx in Hklen, Hall, Hstop.
  assert (Hk : k = length fr).
  { destruct (Nat.lt_trichotomy k (length fr)) as [Hlt|[Heq|Hgt]]; [|exact Heq|].
    - exfalso. specialize (Hstop ltac:(lia)).
      rewrite lookup_app_l in Hstop by exact Hlt.
      destruct (lookup_lt_is_Some_2 fr k Hlt) as [x Hx]. rewrite Hx in Hstop.
      rewrite Forall_lookup in Hnn. specialize (Hnn _ _ Hx). cbn in Hnn. lia.
    - exfalso. destruct rest as [|b rest'].
      + rewrite app_nil_r in Hklen. lia.
      + rewrite Forall_lookup in Hall.
        assert (Hb : take k (fr ++ b :: rest') !! length fr = Some b).
        { rewrite lookup_take_lt by lia. rewrite lookup_app_r by lia.
          rewrite Nat.sub_diag. reflexivity. }
        specialize (Hall _ _ Hb). cbn in Hall. lia. }
  split; [rewrite Hcnt, Hk; lia|].
  rewrite Hfeed. rewrite Hcnt, Hrx.
  replace (Z.to_nat (0 + Z.of_nat k)) with (length fr) by lia.
  rewrite take_app_length.
  change (trace (with_queue ?a ?b ?x)) with (trace x).
  destruct (check_connection_reception (time nh).1 (time nh).2)
    as ((evs0 & Htr0 & Hq0) & Hmsg & Hst1).
  fold nh1 in Htr0, Hmsg, Hst1.
  destruct (feed_frame_trace topic payload checksum nh1) as (evs & Htr & Hqv);
    try assumption.
  - apply Hst1. exact Hst.
  - unfold nh1. apply check_connection_summary, time_summary, Hinv.
  - rewrite Hmsg. exact Hbuf.
  - fold fr in Htr. eexists. split.
    + rewrite Htr, Htr0. cbn [trace time snd set_hardware_]. rewrite <- app_assoc.
      reflexivity.
    + rewrite List.filter_app, (quiet_no_frame_ready _ Hq0).
      apply frame_ready_once. exact Hqv.
Qed.

(** ** A frame that arrives in two pieces *)

(** One byte either ends a frame that is dispatched, or is processed without
    a look at the port and without a change of the connection flag. *)
Lemma ingest_quiet_or_dispatch (b : Z) (nh : NodeHandle) :
  (connected_ (ingest b nh) = connected_ nh /\
   forall hw, ingest b (set_hardware_ hw nh) = set_hardware_ hw (ingest b nh)) \/
  (exists topic payload evs,
     trace (ingest b nh) = trace nh ++ EvFrameReady topic payload :: evs).
Proof.
  destruct (state_ nh) eqn:Est.
  8: { destruct (Z.eq_dec (Z.rem (checksum_ nh + b) 256) 255) as [E|E].
       - right. rewrite (ingest_checksum_success b nh Est E).
         set (nh1 := set_checksum_ (checksum_ nh + b) nh).
         destruct (dispatch_summary nh1) as ((evs & Htr & _) & _).
         exists (topic_ nh1), (payload_in nh1), evs. exact Htr.
       - left. rewrite (ingest_checksum_failure b nh Est E).
         split; [reflexivity|]. intros hw.
         apply (ingest_checksum_failure b (set_hardware_ hw nh) Est E). }
  all: left; destruct nh; cbn in Est; subst;
    unfold ingest, store, emit, reset; cbn;
    repeat match goal with |- context [if ?c then _ else _] => destruct c end;
    split; reflexivity.
Qed.

Lemma feed_quiet_or_dispatch (bytes : list Z) :
  forall nh : NodeHandle,
  (connected_ (feed bytes nh) = connected_ nh /\
   forall hw, feed bytes (set_hardware_ hw nh) = set_hardware_ hw (feed bytes nh)) \/
  (exists topic payload evs1 evs2,
     trace (feed bytes nh) = trace nh ++ evs1 ++ EvFrameReady topic payload :: evs2).
Proof.
  induction bytes as [|b bytes IH]; intros nh.
  - left. split; reflexivity.
  - rewrite feed_cons.
    destruct (ingest_quiet_or_dispatch b nh) as [[Hc Hhw]|(t & p & evs & Htr)].
    + destruct (IH (ingest b nh)) as [[Hc' Hhw']|(t & p & evs1 & evs2 & Htr)].
      * left. split; [rewrite Hc'; exact Hc|].
        intros hw. rewrite feed_cons, Hhw. apply Hhw'.
      * right. destruct (ingest_summary b nh) as ((evs0 & Htr0) & _).
        exists t, p, (evs0 ++ evs1), evs2.
        rewrite Htr, Htr0, <- !app_assoc. reflexivity.
    + right. destruct (feed_summary bytes (ingest b nh)) as ((evs' & Htr') & _).
      exists t, p, [], (evs ++ evs'). rewrite Htr', Htr, <- app_assoc. reflexivity.
Qed.

(** No byte of a proper prefix of a well-formed frame is dispatched. *)
Lemma feed_frame_prefix (topic : Z) (payload : list Z) (checksum : Z)
  (part1 part2 : list Z) (nh : NodeHandle) :
  state_ nh = STATE_FIRST_FF -> rx_inv nh ->
  length (message_in nh) = Z.to_nat kInputSize ->
  Forall is_byte payload ->
  Z.of_nat (length payload) <= kInputSize -> Z.of_nat (length payload) < 65536 ->
  part1 ++ part2 = frame topic payload checksum -> part2 <> [] ->
  connected_ (feed part1 nh) = connected_ nh /\
  forall hw, feed part1 (set_hardware_ hw nh) = set_hardware_ hw (feed part1 nh).
Proof.
  intros Hst Hinv Hbuf Hp Hlen H16 Hsplit Hne.
  destruct (feed_quiet_or_dispatch part1 nh)
    as [H|(t & p & evs1 & evs2 & Htr)]; [exact H|exfalso].
  destruct part2 as [|x mid _] using rev_ind; [congruence|].
  unfold frame in Hsplit. rewrite !app_assoc in Hsplit.
  apply app_inj_tail in Hsplit. destruct Hsplit as [Hbody _].
  pose proof (feed_frame_body topic payload nh Hst Hinv Hbuf Hp Hlen H16) as Hfb.
  rewrite <- Hbody, feed_app in Hfb.
  destruct (feed_summary mid (feed part1 nh)) as ((evs' & Htr') & _).
  rewrite Hfb in Htr'. unfold before_checksum in Htr'.
  cbn [trace with_rx set_state_ set_remaining_data_bytes_ set_topic_
       set_data_index_ set_checksum_ set_message_in set_trace] in Htr'.
  rewrite Htr, <- !app_assoc in Htr'. apply app_inv_head in Htr'.
  apply (f_equal (List.filter is_frame_ready)) in Htr'.
  rewrite stores_at_no_frame_ready, !List.filter_app in Htr'. cbn in Htr'.
  destruct (List.filter is_frame_ready evs1); discriminate Htr'.
Qed.

(** A call of [spinOnce] takes the run of bytes at the head of the queue
    when it fits in [kMaxBytesPerSpin]; a shorter run costs one more read,
    the one that found nothing. *)
Lemma spinOnce_takes_chunk (chunk rest : list Z) (nh : NodeHandle) :
  hw_rx (hardware_ nh) = chunk ++ rest ->
  Forall (fun b => 0 <= b) chunk ->
  match rest with [] => True | b :: _ => b < 0 end ->
  Z.of_nat (length chunk) <= kMaxBytesPerSpin ->
  fst (spinOnce nh) = Z.of_nat (length chunk) /\
  snd (spinOnce nh)
  = with_queue (hw_rx (hardware_ (snd (spinOnce nh))))
      (hw_reads (hardware_ (snd (spinOnce nh))))
      (feed chunk (check_connection (fst (time nh)) (snd (time nh)))) /\
  (Z.of_nat (length chunk) < kMaxBytesPerSpin ->
   hw_rx (hardware_ (snd (spinOnce nh))) = drop 1 rest).
Proof.
  intros Hrx Hnn Hrest Hfit.
  pose proof (spinOnce_as_feed nh) as Hfeed.
  rewrite spinOnce_unfold in *.
  set (nh1 := check_connection (time nh).1 (time nh).2) in *.
  destruct (check_connection_port (time nh).1 (time nh).2) as (Hq & _).
  fold nh1 in Hq. cbn [hardware_ time set_hardware_ Hardware_time snd hw_rx] in Hq.
  destruct (spin_loop_port (Z.to_nat kMaxBytesPerSpin) 0 nh1)
    as (k & Hcnt & Hkn & Hklen & Hall & Hstop & Hleft & _).
  rewrite Hq, Hrx in Hklen, Hall, Hstop, Hleft.
  assert (Hk : k = length chunk).
  { destruct (Nat.lt_trichotomy k (length chunk)) as [Hlt|[Heq|Hgt]]; [|exact Heq|].
    - exfalso. specialize (Hstop ltac:(lia)).
      rewrite lookup_app_l in Hstop by exact Hlt.
      destruct (lookup_lt_is_Some_2 chunk k Hlt) as [x Hx]. rewrite Hx in Hstop.
      rewrite Forall_lookup in Hnn. specialize (Hnn _ _ Hx). cbn in Hnn. lia.
    - exfalso. destruct rest as [|b rest'].
      + rewrite app_nil_r in Hklen. lia.
      + rewrite Forall_lookup in Hall.
        assert (Hb : take k (chunk ++ b :: rest') !! length chunk = Some b).
        { rewrite lookup_take_lt by lia. rewrite lookup_app_r by lia.
          rewrite Nat.sub_diag. reflexivity. }
        specialize (Hall _ _ Hb). cbn in Hall. lia. }
  split; [rewrite Hcnt, Hk; lia|]. split.
  - rewrite Hcnt, Hrx in Hfeed.
    replace (Z.to_nat (0 + Z.of_nat k)) with (length chunk) in Hfeed by lia.
    rewrite take_app_length in Hfeed. exact Hfeed.
  - intros Hlt. rewrite Hleft.
    assert (E : (k <? Z.to_nat kMaxBytesPerSpin)%nat = true)
      by (apply Nat.ltb_lt; lia).
    rewrite E, Hk. rewrite <- drop_drop, drop_app_length. reflexivity.
Qed.

Lemma check_connection_idle (t : Z) (nh : NodeHandle) :
  connected_ nh = false -> check_connection t nh = nh.
Proof. intros H. unfold check_connection. rewrite H. reflexivity. Qed.

(** X9.  Reception carries over from one call of [spinOnce] to the next: on
    a handle that is not connected (so that the housekeeping does not reset
    the machine in between), a well-formed frame of which the port delivers
    a first piece, then nothing, then the rest, is dispatched exactly once,
    by the second call; the first call dispatches nothing. *)
Theorem frame_split_over_two_spins (topic : Z) (payload : list Z) (checksum : Z)
  (part1 part2 rest : list Z) (gap : Z) (nh : NodeHandle) :
  state_ nh = STATE_FIRST_FF -> rx_inv nh ->
  length (message_in nh) = Z.to_nat kInputSize ->
  0 <= topic < 65536 -> Forall is_byte payload ->
  Z.of_nat (length payload) <= kInputSize ->
  Z.of_nat (length payload) < 65536 ->
  is_byte checksum -> checksum_ok topic payload checksum ->
  connected_ nh = false ->
  part1 ++ part2 = frame topic payload checksum -> part2 <> [] ->
  hw_rx (hardware_ nh) = part1 ++ gap :: part2 ++ rest -> gap < 0 ->
  match rest with [] => True | b :: _ => b < 0 end ->
  Z.of_nat (length part1) < kMaxBytesPerSpin ->
  Z.of_nat (length part2) <= kMaxBytesPerSpin ->
  let nh1 := snd (spinOnce nh) in
  let nh2 := snd (spinOnce nh1) in
  fst (spinOnce nh) = Z.of_nat (length part1) /\
  fst (spinOnce nh1) = Z.of_nat (length part2) /\
  (exists evs, trace nh1 = trace nh ++ evs /\ List.filter is_frame_ready evs = []) /\
  exists evs,
    trace nh2 = trace nh ++ evs /\
    List.filter is_frame_ready evs = [EvFrameReady topic payload].
Proof.
  intros Hst Hinv Hbuf Ht Hp Hlen H16 Hc Hok Hconn Hsplit Hne Hrx Hgap Hrest
    Hfit1 Hfit2 nh1 nh2.
  assert (Hnn : Forall (fun b => 0 <= b) (part1 ++ part2)).
  { rewrite Hsplit. apply frame_bytes_nonneg; [lia|assumption|assumption]. }
  apply Forall_app in Hnn. destruct Hnn as [Hnn1 Hnn2].
  (* the first call *)
  destruct (spinOnce_takes_chunk part1 (gap :: part2 ++ rest) nh Hrx Hnn1 Hgap
              ltac:(lia)) as (Hn1 & Hnh1 & Hq1).
  specialize (Hq1 Hfit1). fold nh1 in Hnh1, Hq1. cbn [drop] in Hq1.
  rewrite drop_0 in Hq1.
  set (nh0 := snd (time nh)) in *.
  rewrite (check_connection_idle _ nh0 Hconn) in Hnh1.
  destruct (feed_frame_prefix topic payload checksum part1 part2 nh0)
    as [Hconn1 Hhw1]; try assumption.
  (* the second call *)
  destruct (spinOnce_takes_chunk part2 rest nh1 Hq1 Hnn2 Hrest Hfit2)
    as (Hn2 & Hnh2 & _).
  fold nh2 in Hnh2.
  assert (Hc1 : connected_ (snd (time nh1)) = false).
  { rewrite Hnh1. cbn [time snd connected_ set_hardware_ with_queue].
    exact (eq_trans Hconn1 Hconn). }
  rewrite (check_connection_idle _ _ Hc1) in Hnh2.
  set (hw2 := snd (Hardware_time (hardware_ nh1))).
  assert (Hm : snd (time nh1) = feed part1 (set_hardware_ hw2 nh0)).
  { rewrite Hhw1. transitivity (set_hardware_ hw2 nh1); [reflexivity|].
    clearbody hw2. rewrite Hnh1. reflexivity. }
  rewrite Hm, <- feed_app, Hsplit in Hnh2.
  split; [exact Hn1|]. split; [exact Hn2|]. split.
  - rewrite Hnh1. change (trace (with_queue ?a ?b ?x)) with (trace x).
    destruct (feed_summary part1 nh0) as ((evs & Htr) & _).
    exists evs. split; [exact Htr|].
    destruct part2 as [|x mid _] using rev_ind; [congruence|].
    unfold frame in Hsplit. rewrite !app_assoc in Hsplit.
    apply app_inj_tail in Hsplit. destruct Hsplit as [Hbody _].
    pose proof (feed_frame_body topic payload nh0 Hst Hinv Hbuf Hp Hlen H16) as Hfb.
    rewrite <- Hbody, feed_app in Hfb.
    destruct (feed_summary mid (feed part1 nh0)) as ((evs' & Htr') & _).
    rewrite Hfb in Htr'. unfold before_checksum in Htr'.
    cbn [trace with_rx set_state_ set_remaining_data_bytes_ set_topic_
         set_data_index_ set_checksum_ set_message_in set_trace] in Htr'.
    rewrite Htr, <- !app_assoc in Htr'. apply app_inv_head in Htr'.
    apply (f_equal (List.filter is_frame_ready)) in Htr'.
    rewrite stores_at_no_frame_ready, List.filter_app in Htr'.
    symmetry in Htr'. apply app_eq_nil in Htr'. apply Htr'.
  - rewrite Hnh2. change (trace (with_queue ?a ?b ?x)) with (trace x).
    destruct (feed_frame_trace topic payload checksum (set_hardware_ hw2 nh0))
      as (evs & Htr & Hqv); try assumption.
    eexists. split; [exact Htr|]. apply frame_ready_once. exact Hqv.
Qed.

(** ** Time-sync requests and housekeeping *)

Lemma gtb_le_false (x y : Z) : x <= y -> (x >? y) = false.
Proof. intros H. rewrite Z.gtb_ltb. apply Z.ltb_ge. exact H. Qed.

(** X10.  [requestTimeSync] publishes one empty time message on topic 10 and
    records the clock in [time_sync_start_] when no request is in flight,
    and does nothing at all while one is; so a second request in a row is
    dropped, provided the first was stamped with a non-zero clock reading (a
    reading of 0 is the "none in flight" mark). *)
Theorem requestTimeSync_once_in_flight (nh : NodeHandle) :
  let t := ulong (hw_clock (hardware_ nh) (hw_time_calls (hardware_ nh))) in
  (0 < time_sync_start_ nh -> requestTimeSync nh = nh) /\
  (time_sync_start_ nh <= 0 ->
   trace (requestTimeSync nh)
   = trace nh ++ [EvPublish ID_TIME (MsgTime std_msgs_Time_default)] /\
   time_sync_start_ (requestTimeSync nh) = t /\
   connected_ (requestTimeSync nh) = connected_ nh /\
   state_ (requestTimeSync nh) = state_ nh) /\
  (0 < time_sync_start_ nh \/ 0 < t ->
   requestTimeSync (requestTimeSync nh) = requestTimeSync nh).
Proof.
  intros t. subst t.
  destruct (time_sync_start_ nh >? 0) eqn:E.
  - assert (Hid : requestTimeSync nh = nh)
      by (unfold requestTimeSync; rewrite E; reflexivity).
    apply Z.gtb_lt in E.
    split; [intros _; exact Hid|]. split; [lia|]. intros _. rewrite !Hid. reflexivity.
  - assert (Hle : time_sync_start_ nh <= 0)
      by (apply Z.ltb_ge; rewrite <- Z.gtb_ltb; exact E).
    split; [lia|].
    assert (Heq : requestTimeSync nh
                  = publish ID_TIME (MsgTime std_msgs_Time_default)
                      (set_time_sync_start_ (fst (time nh)) (snd (time nh))))
      by (unfold requestTimeSync; rewrite E; reflexivity).
    split; [intros _; rewrite Heq; repeat split; reflexivity|].
    intros [H|H]; [lia|]. rewrite Heq. unfold requestTimeSync at 1.
    cbn [time_sync_start_ publish emit set_trace set_time_sync_start_ time fst
         Hardware_time].
    apply Z.gtb_lt in H. rewrite H. reflexivity.
Qed.

(** X11.  The housekeeping at the head of [spinOnce] does nothing to a handle
    that is not connected, to one whose last sync is at most [kSyncPeriod]
    and [kConnectionTimeout] old, and, before the timeout, to one with a
    sync request in flight: no request is repeated and a frame in the middle
    of reception is not disturbed. *)
Theorem housekeeping_idle (t : Z) (nh : NodeHandle) :
  connected_ nh = false \/
  (ulong (t - time_sync_end_ nh) <= kConnectionTimeout /\
   (ulong (t - time_sync_end_ nh) <= kSyncPeriod \/ 0 < time_sync_start_ nh)) ->
  check_connection t nh = nh.
Proof.
  intros H. unfold check_connection.
  destruct (connected_ nh); [|reflexivity].
  destruct H as [H|(Hto & H)]; [discriminate|].
  replace (ulong (t - time_sync_end_ nh) >? kConnectionTimeout) with false
    by (symmetry; apply gtb_le_false; lia).
  destruct (Z.gtb_spec (ulong (t - time_sync_end_ nh)) kSyncPeriod) as [Hsp|Hsp];
    [|reflexivity].
  destruct H as [H|H]; [lia|].
  unfold requestTimeSync. apply Z.gtb_lt in H. rewrite H. reflexivity.
Qed.

(** X12.  The periodic sync: on a connected handle whose last sync is more
    than [kSyncPeriod] but at most [kConnectionTimeout] old and that has no
    request in flight, the housekeeping publishes one empty time message on
    topic 10 and stamps [time_sync_start_]; the handle stays connected and
    the state machine, with the frame it may be receiving, is untouched. *)
Theorem periodic_sync_request (t : Z) (nh : NodeHandle) :
  connected_ nh = true ->
  kSyncPeriod < ulong (t - time_sync_end_ nh) <= kConnectionTimeout ->
  time_sync_start_ nh <= 0 ->
  let nh' := check_connection t nh in
  trace nh' = trace nh ++ [EvPublish ID_TIME (MsgTime std_msgs_Time_default)] /\
  time_sync_start_ nh'
  = ulong (hw_clock (hardware_ nh) (hw_time_calls (hardware_ nh))) /\
  connected_ nh' = true /\
  state_ nh' = state_ nh /\ remaining_data_bytes_ nh' = remaining_data_bytes_ nh /\
  topic_ nh' = topic_ nh /\ data_index_ nh' = data_index_ nh /\
  checksum_ nh' = checksum_ nh /\ message_in nh' = message_in nh.
Proof.
  intros Hcon [Hsp Hto] Hstart nh'. subst nh'. unfold check_connection.
  rewrite Hcon.
  replace (ulong (t - time_sync_end_ nh) >? kConnectionTimeout) with false
    by (symmetry; apply gtb_le_false; lia).
  apply Z.gtb_lt in Hsp. rewrite Hsp. unfold requestTimeSync.
  replace (time_sync_start_ nh >? 0) with false
    by (symmetry; apply gtb_le_false; lia).
  cbn. rewrite Hcon. repeat split; reflexivity.
Qed.

(** ** The registries *)

Lemma length_slots {A : Type} (n : Z) (xs : list A) :
  (length xs <= Z.to_nat n)%nat -> length (slots n xs) = Z.to_nat n.
Proof.
  intros H. unfold slots. rewrite length_app, length_fmap, length_replicate. lia.
Qed.

Lemma lookup_slots_occupied {A : Type} (n : Z) (xs : list A) (i : nat) (x : A) :
  xs !! i = Some x -> slots n xs !! i = Some (Some x).
Proof.
  intros H. unfold slots.
  rewrite lookup_app_l by (rewrite length_fmap; eapply lookup_lt_Some; exact H).
  rewrite list_lookup_fmap, H. reflexivity.
Qed.

Lemma lookup_slots_empty {A : Type} (n : Z) (xs : list A) (i : nat) :
  (length xs <= i < Z.to_nat n)%nat -> slots n xs !! i = Some None.
Proof.
  intros H. unfold slots.
  rewrite lookup_app_r by (rewrite length_fmap; lia).
  rewrite length_fmap. apply lookup_replicate_2. lia.
Qed.

Lemma lookup_slots_Some {A : Type} (n : Z) (xs : list A) (i : nat) (x : A) :
  slots n xs !! i = Some (Some x) -> xs !! i = Some x.
Proof.
  unfold slots. intros H. apply lookup_app_Some in H.
  destruct H as [H|[_ H]].
  - apply list_lookup_fmap_Some in H. destruct H as (y & [= ->] & H). exact H.
  - apply lookup_replicate in H. destruct H as [H _]. discriminate H.
Qed.

Lemma insert_slots {A : Type} (n : Z) (xs : list A) (x : A) :
  (length xs < Z.to_nat n)%nat ->
  <[length xs := Some x]> (slots n xs) = slots n (xs ++ [x]).
Proof.
  intros H. unfold slots.
  replace (Z.to_nat n - length xs)%nat with (S (Z.to_nat n - length (xs ++ [x])))
    by (rewrite length_app; cbn; lia).
  cbn [replicate].
  replace (length xs) with (length (Some <$> xs) + 0)%nat at 1
    by (rewrite length_fmap; lia).
  rewrite insert_app_r. cbn. rewrite fmap_app, <- app_assoc. reflexivity.
Qed.

Lemma insert_slots_at {A : Type} (n : Z) (xs : list A) (x : A) (k : nat) :
  k = length xs -> (k < Z.to_nat n)%nat ->
  <[k := Some x]> (slots n xs) = slots n (xs ++ [x]).
Proof. intros -> H. apply insert_slots. exact H. Qed.

Lemma occupied_slots {A : Type} (n : Z) (xs : list A) : occupied (slots n xs) = xs.
Proof.
  unfold slots. generalize (Z.to_nat n - length xs)%nat. intros m.
  induction xs as [|x xs IH]; cbn.
  - destruct m; reflexivity.
  - f_equal. exact IH.
Qed.

(** Writes through a pointer. *)
Lemma written_this {A : Type} (this : A -> nat) (x y : A) :
  this (written this x y) = this y.
Proof. unfold written. destruct (Nat.eqb_spec (this y) (this x)); congruence. Qed.

Lemma written_same {A : Type} (this : A -> nat) (x y : A) :
  this y = this x -> written this x y = x.
Proof. intros H. unfold written. rewrite H, Nat.eqb_refl. reflexivity. Qed.

Lemma written_other {A : Type} (this : A -> nat) (x y : A) :
  this y <> this x -> written this x y = y.
Proof.
  intros H. unfold written. destruct (Nat.eqb_spec (this y) (this x)); congruence.
Qed.

Lemma written_fresh {A : Type} (this : A -> nat) (x : A) (xs : list A) :
  Forall (fun y => this y <> this x) xs -> written this x <$> xs = xs.
Proof.
  intros H. rewrite <- (list_fmap_id xs) at 2. apply Forall_fmap_ext_1.
  eapply Forall_impl; [exact H|]. intros y Hy. apply written_other. exact Hy.
Qed.

Lemma write_through_slots {A : Type} (this : A -> nat) (x : A) (n : Z)
  (xs : list A) :
  write_through this x (slots n xs) = slots n (written this x <$> xs).
Proof.
  unfold write_through, slots.
  rewrite fmap_app, fmap_replicate, length_fmap, <- !list_fmap_compose.
  reflexivity.
Qed.

Lemma registry_ok_holds (ps : list Publisher) (rs : list MsgReceiver)
  (nh : NodeHandle) :
  registry_ok ps rs nh -> registry_holds ps rs nh.
Proof. intros (?&?&?&?&?&_). repeat split; assumption. Qed.

Lemma catalogue_registry (ps : list Publisher) (rs : list MsgReceiver)
  (nh : NodeHandle) :
  registry_ok ps rs nh ->
  catalogue nh = map publisher_info ps ++ map receiver_info rs.
Proof.
  intros (Hp & Hpl & Hr & Hrl & _). unfold catalogue. rewrite Hp, Hr.
  rewrite !take_ge by (rewrite length_slots; lia).
  rewrite !occupied_slots. reflexivity.
Qed.

Lemma advertise_from_spec (ps : list Publisher) (publisher : Publisher)
  (nh : NodeHandle) (n : nat) :
  forall i : nat,
  publishers nh = slots kMaxPublishers ps ->
  (length ps <= Z.to_nat kMaxPublishers)%nat ->
  (i <= length ps)%nat -> (i + n = Z.to_nat kMaxPublishers)%nat ->
  advertise_from n i publisher nh
  = if (length ps <? Z.to_nat kMaxPublishers)%nat then
      let p := Publisher_setId (Z.of_nat (length ps) + 100 + kMaxSubscribers)
                 publisher in
      (true, p,
       set_publishers
         (slots kMaxPublishers ((written pub_this p <$> ps) ++ [p])) nh)
    else (false, publisher, nh).
Proof.
  induction n as [|n IH]; intros i Hp Hlen Hi Hn; cbn [advertise_from].
  - replace (length ps <? Z.to_nat kMaxPublishers)%nat with false
      by (symmetry; apply Nat.ltb_ge; lia).
    reflexivity.
  - rewrite Hp. destruct (Nat.eq_dec i (length ps)) as [->|Hne].
    + rewrite lookup_slots_empty by lia.
      replace (length ps <? Z.to_nat kMaxPublishers)%nat with true
        by (symmetry; apply Nat.ltb_lt; lia).
      cbv zeta. rewrite write_through_slots.
      rewrite insert_slots_at by (rewrite ?length_fmap; lia). reflexivity.
    + destruct (lookup_lt_is_Some_2 ps i ltac:(lia)) as [p Hpi].
      rewrite (lookup_slots_occupied _ _ _ _ Hpi).
      apply IH; try assumption; lia.
Qed.

(** [advertise] on contiguous tables. *)
Lemma advertise_holds (ps : list Publisher) (rs : list MsgReceiver)
  (publisher : Publisher) (nh : NodeHandle) :
  registry_holds ps rs nh ->
  let p := Publisher_setId (Z.of_nat (length ps) + 100 + kMaxSubscribers)
             publisher in
  (Z.of_nat (length ps) < kMaxPublishers ->
   advertise publisher nh
   = (true, p,
      set_publishers
        (slots kMaxPublishers ((written pub_this p <$> ps) ++ [p])) nh) /\
   registry_holds ((written pub_this p <$> ps) ++ [p]) rs
     (snd (advertise publisher nh))) /\
  (kMaxPublishers <= Z.of_nat (length ps) ->
   advertise publisher nh = (false, publisher, nh)).
Proof.
  intros (Hp & Hpl & Hr & Hrl & Ht) p. unfold advertise.
  rewrite (advertise_from_spec ps publisher nh _ 0 Hp Hpl) by lia.
  fold p. split; intros Hfree.
  - replace (length ps <? Z.to_nat kMaxPublishers)%nat with true
      by (symmetry; apply Nat.ltb_lt; lia).
    split; [reflexivity|]. cbn [snd].
    unfold registry_holds.
    cbn [publishers receivers total_receivers_ set_publishers].
    rewrite length_app, length_fmap. cbn [length].
    repeat split; try assumption; lia.
  - replace (length ps <? Z.to_nat kMaxPublishers)%nat with false
      by (symmetry; apply Nat.ltb_ge; lia).
    reflexivity.
Qed.

(** An object that is not yet registered leaves the other slots as they
    are. *)
Lemma advertise_registry (ps : list Publisher)
  (rs : list MsgReceiver) (publisher : Publisher) (nh : NodeHandle) :
  registry_ok ps rs nh ->
  Forall (fun q => pub_this q <> pub_this publisher) ps ->
  Z.of_nat (length ps) < kMaxPublishers ->
  let p := Publisher_setId (Z.of_nat (length ps) + 100 + kMaxSubscribers)
             publisher in
  advertise publisher nh
  = (true, p, set_publishers (slots kMaxPublishers (ps ++ [p])) nh) /\
  registry_ok (ps ++ [p]) rs (snd (advertise publisher nh)).
Proof.
  intros Hok Hfresh Hfree p.
  destruct (advertise_holds ps rs publisher nh (registry_ok_holds _ _ _ Hok))
    as [Hadv _].
  destruct (Hadv Hfree) as [Heq _]. fold p in Heq.
  rewrite (written_fresh pub_this p ps Hfresh) in Heq.
  split; [exact Heq|]. rewrite Heq. cbn [snd].
  destruct Hok as (Hp & Hpl & Hr & Hrl & Ht & Hpid & Hrid).
  unfold registry_ok. cbn [publishers receivers total_receivers_ set_publishers].
  rewrite length_app. cbn [length].
  repeat split; try assumption; try lia.
  intros i q Hq. destruct (Nat.eq_dec i (length ps)) as [->|Hne].
  - rewrite lookup_app_r, Nat.sub_diag in Hq by lia.
    injection Hq as <-. reflexivity.
  - apply Hpid. rewrite lookup_app_l in Hq; [exact Hq|].
    apply lookup_lt_Some in Hq. rewrite length_app in Hq. cbn in Hq. lia.
Qed.

(** X13.  [advertise] on contiguous tables.  While a slot is free the call
    returns true, the pointer goes into the first free slot i and the
    object gets the identifier i + 100 + [kMaxSubscribers]; the slots that
    already point to that object show the new identifier too, and nothing
    else in the handle changes.  So an object that was not registered yet
    leaves the earlier slots as they are (and identifiers that matched the
    slots still do), while advertising a registered object again renumbers
    its earlier slot.  When all [kMaxPublishers] slots are taken the call
    returns false and the handle and the publisher are as they were. *)
Theorem advertise_takes_first_free_slot (ps : list Publisher)
  (rs : list MsgReceiver) (publisher : Publisher) (nh : NodeHandle) :
  registry_holds ps rs nh ->
  let p := Publisher_setId (Z.of_nat (length ps) + 100 + kMaxSubscribers)
             publisher in
  (Z.of_nat (length ps) < kMaxPublishers ->
   advertise publisher nh
   = (true, p,
      set_publishers
        (slots kMaxPublishers ((written pub_this p <$> ps) ++ [p])) nh) /\
   (Forall (fun q => pub_this q <> pub_this publisher) ps ->
    snd (advertise publisher nh)
    = set_publishers (slots kMaxPublishers (ps ++ [p])) nh /\
    (registry_ok ps rs nh ->
     registry_ok (ps ++ [p]) rs (snd (advertise publisher nh)))) /\
   (forall i q, ps !! i = Some q -> pub_this q = pub_this publisher ->
    publishers (snd (advertise publisher nh)) !! i = Some (Some p))) /\
  (kMaxPublishers <= Z.of_nat (length ps) ->
   advertise publisher nh = (false, publisher, nh)).
Proof.
  intros Hh p. destruct (advertise_holds ps rs publisher nh Hh) as [Hadv Hfull].
  fold p in Hadv. split; [|exact Hfull]. intros Hfree.
  destruct (Hadv Hfree) as [Heq _]. split; [exact Heq|]. split.
  - intros Hfresh. split.
    + rewrite Heq. cbn [snd].
      rewrite (written_fresh pub_this p ps Hfresh). reflexivity.
    + intros Hok.
      apply (advertise_registry ps rs publisher nh Hok Hfresh Hfree).
  - intros i q Hq Hsame. rewrite Heq. cbn [snd publishers set_publishers].
    apply lookup_slots_occupied.
    rewrite lookup_app_l
      by (rewrite length_fmap; eapply lookup_lt_Some; exact Hq).
    rewrite list_lookup_fmap, Hq. cbn.
    rewrite written_same by exact Hsame. reflexivity.
Qed.

(** [registerReceiver] on contiguous tables. *)
Lemma registerReceiver_holds (ps : list Publisher)
  (rs : list MsgReceiver) (receiver : MsgReceiver) (nh : NodeHandle) :
  registry_holds ps rs nh ->
  let r := MsgReceiver_setId (100 + Z.of_nat (length rs)) receiver in
  (Z.of_nat (length rs) < kMaxSubscribers ->
   registerReceiver receiver nh
   = (true, r,
      set_total_receivers_ (Z.of_nat (length rs) + 1)
        (set_receivers
           (slots kMaxSubscribers ((written rcv_this r <$> rs) ++ [r])) nh)) /\
   registry_holds ps ((written rcv_this r <$> rs) ++ [r])
     (snd (registerReceiver receiver nh))) /\
  (kMaxSubscribers <= Z.of_nat (length rs) ->
   registerReceiver receiver nh = (false, receiver, nh)).
Proof.
  intros (Hp & Hpl & Hr & Hrl & Ht) r.
  unfold registerReceiver. rewrite Ht. split; intros Hfree.
  - replace (Z.of_nat (length rs) >=? kMaxSubscribers) with false
      by (symmetry; rewrite Z.geb_leb; apply Z.leb_gt; lia).
    cbv zeta. fold r.
    cbn [total_receivers_ set_receivers].
    rewrite Hr, Nat2Z.id, write_through_slots.
    rewrite insert_slots_at by (rewrite ?length_fmap; lia).
    rewrite Ht. split; [reflexivity|]. cbn [snd].
    unfold registry_holds.
    cbn [publishers receivers total_receivers_ set_receivers set_total_receivers_].
    rewrite length_app, length_fmap. cbn [length].
    repeat split; try assumption; lia.
  - replace (Z.of_nat (length rs) >=? kMaxSubscribers) with true
      by (symmetry; apply Z.geb_le; lia).
    reflexivity.
Qed.

(** X14.  [registerReceiver] on contiguous tables.  While fewer than
    [kMaxSubscribers] are registered the call returns true, the pointer goes
    into slot [total_receivers_], the object gets the identifier
    100 + [total_receivers_], the slots that already point to that object
    show the new identifier too, the count goes up by one and nothing is
    published.  So a receiver that was not registered yet leaves the earlier
    slots as they are, while registering a registered receiver again
    renumbers its earlier slot.  Once [kMaxSubscribers] are registered the
    call returns false and changes nothing. *)
Theorem registerReceiver_takes_next_slot (ps : list Publisher)
  (rs : list MsgReceiver) (receiver : MsgReceiver) (nh : NodeHandle) :
  registry_holds ps rs nh ->
  let r := MsgReceiver_setId (100 + Z.of_nat (length rs)) receiver in
  (Z.of_nat (length rs) < kMaxSubscribers ->
   registerReceiver receiver nh
   = (true, r,
      set_total_receivers_ (Z.of_nat (length rs) + 1)
        (set_receivers
           (slots kMaxSubscribers ((written rcv_this r <$> rs) ++ [r])) nh)) /\
   trace (snd (registerReceiver receiver nh)) = trace nh /\
   (Forall (fun q => rcv_this q <> rcv_this receiver) rs ->
    receivers (snd (registerReceiver receiver nh))
    = slots kMaxSubscribers (rs ++ [r])) /\
   (forall i q, rs !! i = Some q -> rcv_this q = rcv_this receiver ->
    receivers (snd (registerReceiver receiver nh)) !! i = Some (Some r))) /\
  (kMaxSubscribers <= Z.of_nat (length rs) ->
   registerReceiver receiver nh = (false, receiver, nh)).
Proof.
  intros Hh r.
  destruct (registerReceiver_holds ps rs receiver nh Hh) as [Hreg Hfull].
  fold r in Hreg. split; [|exact Hfull]. intros Hfree.
  destruct (Hreg Hfree) as [Heq _]. split; [exact Heq|].
  rewrite Heq. cbn [snd]. split; [reflexivity|]. split.
  - intros Hfresh. cbn [receivers set_receivers set_total_receivers_].
    rewrite (written_fresh rcv_this r rs Hfresh). reflexivity.
  - intros i q Hq Hsame. cbn [receivers set_receivers set_total_receivers_].
    apply lookup_slots_occupied.
    rewrite lookup_app_l
      by (rewrite length_fmap; eapply lookup_lt_Some; exact Hq).
    rewrite list_lookup_fmap, Hq. cbn.
    rewrite written_same by exact Hsame. reflexivity.
Qed.


(** The state machine, the housekeeping, [spinOnce] and the parameter
    request leave the registries alone. *)
Lemma same_registry_refl (nh : NodeHandle) : same_registry nh nh.
Proof. unfold same_registry; auto. Qed.

Lemma same_registry_trans (a b c : NodeHandle) :
  same_registry a b -> same_registry b c -> same_registry a c.
Proof. unfold same_registry; intros (?&?&?) (?&?&?); repeat split; congruence. Qed.

Lemma ingest_registry (b : Z) (nh : NodeHandle) : same_registry nh (ingest b nh).
Proof.
  unfold same_registry.
  destruct (state_ nh) eqn:Est.
  8: { destruct (Z.eq_dec (Z.rem (checksum_ nh + b) 256) 255) as [E|E].
       - rewrite (ingest_checksum_success b nh Est E).
         destruct (dispatch_untouched (set_checksum_ (checksum_ nh + b) nh))
           as (_ & _ & _ & Hp & Hr & Ht).
         repeat split; assumption.
       - rewrite (ingest_checksum_failure b nh Est E). repeat split; reflexivity. }
  all: unfold ingest; cbn [state_ set_checksum_]; rewrite Est;
    unfold store, emit, reset; cbn;
    repeat match goal with |- context [if ?c then _ else _] => destruct c end;
    repeat split; reflexivity.
Qed.

Lemma spin_loop_registry (n : nat) :
  forall (byte_count : Z) (nh : NodeHandle),
  same_registry nh (snd (spin_loop n byte_count nh)).
Proof.
  induction n as [|n IH]; intros c nh; [apply same_registry_refl|].
  cbn [spin_loop]. rewrite read_spec. cbv zeta.
  destruct (hw_rx (hardware_ nh)) as [|b rest];
    [unfold same_registry; cbn; auto|].
  destruct (b <? 0); [unfold same_registry; cbn; auto|].
  match goal with |- context [ingest b ?x] => set (nh1 := x) end.
  eapply same_registry_trans; [|apply IH].
  eapply same_registry_trans; [|apply ingest_registry].
  unfold same_registry; cbn; auto.
Qed.

Lemma check_connection_registry (t : Z) (nh : NodeHandle) :
  same_registry nh (check_connection t nh).
Proof.
  unfold check_connection, same_registry.
  destruct (connected_ nh); [|auto].
  destruct (ulong (t - time_sync_end_ nh) >? kConnectionTimeout);
    unfold_handle_ops; cbn;
    destruct (ulong (t - time_sync_end_ nh) >? kSyncPeriod); cbn;
    try destruct (time_sync_start_ nh >? 0); cbn; auto.
Qed.

Lemma spinOnce_registry (nh : NodeHandle) : same_registry nh (snd (spinOnce nh)).
Proof.
  rewrite spinOnce_unfold.
  eapply same_registry_trans; [|apply spin_loop_registry].
  eapply same_registry_trans; [|apply check_connection_registry].
  unfold same_registry; cbn; auto.
Qed.

Lemma requestParam_wait_registry (fuel : nat) (start_time time_out : Z) :
  forall (nh nh' : NodeHandle) (ok : bool),
  requestParam_wait fuel start_time time_out nh = Some (ok, nh') ->
  same_registry nh nh'.
Proof.
  induction fuel as [|fuel IH]; intros nh nh' ok; cbn [requestParam_wait].
  - destruct (param_received_ nh); [|discriminate].
    intros [= _ <-]. apply same_registry_refl.
  - destruct (param_received_ nh); [intros [= _ <-]; apply same_registry_refl|].
    pose proof (spinOnce_registry nh) as Hs.
    destruct (spinOnce nh) as [count nh1]. cbn [snd] in Hs.
    unfold time. cbn [Hardware_time].
    destruct (_ >? ulong time_out).
    + intros [= _ <-]. exact Hs.
    + intros H. apply IH in H. eapply same_registry_trans; [exact Hs|exact H].
Qed.

Lemma requestParam_registry (fuel : nat) (name : string) (time_out : Z)
  (nh nh' : NodeHandle) (ok : bool) :
  requestParam fuel name time_out nh = Some (ok, nh') -> same_registry nh nh'.
Proof.
  unfold requestParam. intros H. apply requestParam_wait_registry in H. exact H.
Qed.

Lemma registry_holds_same (ps : list Publisher) (rs : list MsgReceiver)
  (nh nh' : NodeHandle) :
  same_registry nh nh' -> registry_holds ps rs nh -> registry_holds ps rs nh'.
Proof.
  intros (Hp & Hr & Ht). unfold registry_holds. rewrite Hp, Hr, Ht. auto.
Qed.

(** X17.  Neither [spinOnce] (housekeeping, reception, dispatch) nor
    [requestParam] ever changes the registries: the publisher and receiver
    tables and the receiver count are the same before and after. *)
Theorem reception_keeps_registries (fuel : nat) (name : string) (time_out : Z)
  (nh nh' : NodeHandle) (ok : bool) :
  same_registry nh (snd (spinOnce nh)) /\
  (requestParam fuel name time_out nh = Some (ok, nh') -> same_registry nh nh').
Proof. split; [apply spinOnce_registry | apply requestParam_registry]. Qed.

(** One operation is at most one registration in each table. *)
Lemma op_step_tables (ps : list Publisher) (rs : list MsgReceiver)
  (nh nh' : NodeHandle) :
  op_step nh nh' -> registry_holds ps rs nh ->
  exists ps' rs',
    registry_holds ps' rs' nh' /\
    table_step pub_this pub_id (100 + kMaxSubscribers) ps ps' /\
    table_step rcv_this rcv_id 100 rs rs'.
Proof.
  intros [nh0|p nh0|r nh0|level msg nh0|nh0|fuel name time_out nh0 ok nh1 H] Hh.
  - exists ps, rs. split; [|split; left; reflexivity].
    eapply registry_holds_same; [apply spinOnce_registry | exact Hh].
  - destruct (advertise_holds ps rs p nh0 Hh) as [Hfree Hfull].
    destruct (Z.lt_ge_cases (Z.of_nat (length ps)) kMaxPublishers) as [Hlt|Hge].
    + eexists _, rs. split; [apply Hfree; exact Hlt|].
      split; [right|left; reflexivity].
      eexists. split; [reflexivity|]. cbn. lia.
    + exists ps, rs. rewrite (Hfull Hge).
      split; [exact Hh|split; left; reflexivity].
  - destruct (registerReceiver_holds ps rs r nh0 Hh) as [Hfree Hfull].
    destruct (Z.lt_ge_cases (Z.of_nat (length rs)) kMaxSubscribers) as [Hlt|Hge].
    + eexists ps, _. split; [apply Hfree; exact Hlt|].
      split; [left; reflexivity|right].
      eexists. split; [reflexivity|]. reflexivity.
    + exists ps, rs. rewrite (Hfull Hge).
      split; [exact Hh|split; left; reflexivity].
  - exists ps, rs. split; [|split; left; reflexivity].
    eapply registry_holds_same; [|exact Hh]. repeat split; reflexivity.
  - exists ps, rs. split; [|split; left; reflexivity].
    eapply registry_holds_same; [|exact Hh]. repeat split; reflexivity.
  - exists ps, rs. split; [|split; left; reflexivity].
    eapply registry_holds_same; [eapply requestParam_registry; exact H | exact Hh].
Qed.

(** Identifiers by last slot: kept by a registration. *)
Lemma ids_by_last_slot_step {A : Type} (this : A -> nat) (id : A -> Z)
  (base : Z) (xs xs' : list A) :
  table_step this id base xs xs' ->
  ids_by_last_slot this id base xs -> ids_by_last_slot this id base xs'.
Proof.
  intros [->|(x & -> & Hid)] H; [exact H|].
  assert (Hlast : forall k y,
            ((written this x <$> xs) ++ [x]) !! k = Some y ->
            this y = this x -> y = x /\ (k <= length xs)%nat).
  { intros k y Hk Hy. apply lookup_snoc_Some in Hk.
    rewrite length_fmap in Hk. destruct Hk as [[Hlt Hk]|[-> <-]]; [|auto].
    split; [|lia]. apply list_lookup_fmap_Some in Hk.
    destruct Hk as (y0 & -> & _). rewrite written_this in Hy.
    apply written_same. exact Hy. }
  assert (Hx : ((written this x <$> xs) ++ [x]) !! length xs = Some x).
  { apply lookup_snoc_Some. right. rewrite length_fmap. auto. }
  intros i a Ha.
  destruct (Nat.eq_dec (this a) (this x)) as [Hsame|Hdiff].
  - destruct (Hlast i a Ha Hsame) as [-> _].
    exists (length xs). split; [exact Hx|]. split; [exact Hid|]. exact Hlast.
  - apply lookup_snoc_Some in Ha. rewrite length_fmap in Ha.
    destruct Ha as [[Hlt Ha]|[_ <-]]; [|congruence].
    apply list_lookup_fmap_Some in Ha. destruct Ha as (a0 & -> & Ha0).
    rewrite written_this in Hdiff.
    rewrite (written_other this x a0 Hdiff).
    destruct (H i a0 Ha0) as (j & Hj & Hidj & Hall).
    exists j. split; [|split; [exact Hidj|]].
    + apply lookup_snoc_Some. left. rewrite length_fmap.
      split; [eapply lookup_lt_Some; exact Hj|].
      rewrite list_lookup_fmap, Hj. cbn.
      rewrite (written_other this x a0 Hdiff). reflexivity.
    + intros k y Hk Hy. apply lookup_snoc_Some in Hk. rewrite length_fmap in Hk.
      destruct Hk as [[Hlt' Hk]|[_ <-]]; [|congruence].
      apply list_lookup_fmap_Some in Hk. destruct Hk as (y0 & -> & Hy0).
      rewrite written_this in Hy.
      rewrite (written_other this x y0) by congruence.
      apply (Hall k y0 Hy0 Hy).
Qed.

Lemma ids_by_last_slot_iff {A : Type} (this : A -> nat) (id : A -> Z)
  (base : Z) (xs : list A) :
  ids_by_last_slot this id base xs ->
  forall i j a b, xs !! i = Some a -> xs !! j = Some b ->
  (id a = id b <-> this a = this b) /\
  base <= id a < base + Z.of_nat (length xs).
Proof.
  intros H i j a b Ha Hb.
  destruct (H i a Ha) as (ja & Hja & Hida & _).
  destruct (H j b Hb) as (jb & Hjb & Hidb & Hallb).
  split; [split|].
  - intros E. assert (ja = jb) by lia. subst jb.
    rewrite Hja in Hjb. injection Hjb as ->. reflexivity.
  - intros E. destruct (Hallb i a Ha E) as [-> _]. reflexivity.
  - apply lookup_lt_Some in Hja. lia.
Qed.

(** The tables reached from [nh]: contiguous, and with identifiers by last
    slot if they were so. *)
Lemma run_tables (nh nh' : NodeHandle) :
  rtc op_step nh nh' ->
  forall ps rs, registry_holds ps rs nh ->
  ids_by_last_slot pub_this pub_id (100 + kMaxSubscribers) ps ->
  ids_by_last_slot rcv_this rcv_id 100 rs ->
  exists ps' rs',
    registry_holds ps' rs' nh' /\
    ids_by_last_slot pub_this pub_id (100 + kMaxSubscribers) ps' /\
    ids_by_last_slot rcv_this rcv_id 100 rs'.
Proof.
  induction 1 as [nh|a b c Hab _ IH]; intros ps rs Hh Hp Hr.
  - exists ps, rs. auto.
  - destruct (op_step_tables ps rs a b Hab Hh) as (ps1 & rs1 & Hh1 & Sp & Sr).
    apply (IH ps1 rs1 Hh1).
    + eapply ids_by_last_slot_step; [exact Sp | exact Hp].
    + eapply ids_by_last_slot_step; [exact Sr | exact Hr].
Qed.

Lemma ctor_holds (raw : NodeHandle) (hardware : Hardware) :
  publishers raw = replicate (Z.to_nat kMaxPublishers) None ->
  receivers raw = replicate (Z.to_nat kMaxSubscribers) None ->
  registry_holds [] [] (NodeHandle_ctor raw hardware).
Proof.
  intros Hp Hr. unfold registry_holds, slots. cbn. rewrite Hp, Hr, !Nat.sub_0_r.
  repeat split; lia.
Qed.

(** X16.  Identifiers tell the registered objects apart.  In a handle
    constructed in storage whose tables are zeroed, after any sequence of
    [spinOnce], [advertise], [registerReceiver], [log], [now] and
    [requestParam] calls: two occupied publisher slots show the same
    identifier exactly when they point to the same object, and so for the
    receiver slots; receivers have identifiers from 100 up to 100 +
    [kMaxSubscribers] - 1, publishers from 100 + [kMaxSubscribers] up to
    100 + [kMaxSubscribers] + [kMaxPublishers] - 1, so that no receiver
    shares an identifier with a publisher. *)
Theorem registry_ids_distinct (raw : NodeHandle) (hardware : Hardware)
  (nh : NodeHandle) :
  publishers raw = replicate (Z.to_nat kMaxPublishers) None ->
  receivers raw = replicate (Z.to_nat kMaxSubscribers) None ->
  rtc op_step (NodeHandle_ctor raw hardware) nh ->
  (forall i j p q,
     publishers nh !! i = Some (Some p) -> publishers nh !! j = Some (Some q) ->
     (pub_id p = pub_id q <-> pub_this p = pub_this q)) /\
  (forall i j r s,
     receivers nh !! i = Some (Some r) -> receivers nh !! j = Some (Some s) ->
     (rcv_id r = rcv_id s <-> rcv_this r = rcv_this s)) /\
  (forall i r, receivers nh !! i = Some (Some r) ->
     100 <= rcv_id r < 100 + kMaxSubscribers) /\
  (forall i p, publishers nh !! i = Some (Some p) ->
     100 + kMaxSubscribers <= pub_id p < 100 + kMaxSubscribers + kMaxPublishers) /\
  (forall i j r p,
     receivers nh !! i = Some (Some r) -> publishers nh !! j = Some (Some p) ->
     rcv_id r <> pub_id p).
Proof.
  intros Hp0 Hr0 Hrun.
  destruct (run_tables _ _ Hrun [] [] (ctor_holds raw hardware Hp0 Hr0))
    as (ps & rs & (Hp & Hpl & Hr & Hrl & _) & Hpid & Hrid).
  { intros i x H. discriminate H. }
  { intros i x H. discriminate H. }
  rewrite Hp, Hr.
  assert (Hpr : forall i p, slots kMaxPublishers ps !! i = Some (Some p) ->
            100 + kMaxSubscribers <= pub_id p
            < 100 + kMaxSubscribers + kMaxPublishers).
  { intros i p H. apply lookup_slots_Some in H.
    destruct (ids_by_last_slot_iff _ _ _ _ Hpid i i p p H H) as [_ Hb]. lia. }
  assert (Hrr : forall i r, slots kMaxSubscribers rs !! i = Some (Some r) ->
            100 <= rcv_id r < 100 + kMaxSubscribers).
  { intros i r H. apply lookup_slots_Some in H.
    destruct (ids_by_last_slot_iff _ _ _ _ Hrid i i r r H H) as [_ Hb]. lia. }
  split; [|split; [|split; [exact Hrr|split; [exact Hpr|]]]].
  - intros i j p q Hi Hj. apply lookup_slots_Some in Hi, Hj.
    apply (ids_by_last_slot_iff _ _ _ _ Hpid i j p q Hi Hj).
  - intros i j r s Hi Hj. apply lookup_slots_Some in Hi, Hj.
    apply (ids_by_last_slot_iff _ _ _ _ Hrid i j r s Hi Hj).
  - intros i j r p Hi Hj. specialize (Hrr _ _ Hi). specialize (Hpr _ _ Hj). lia.
Qed.

(** Growth of a table. *)
Lemma grown_refl {A : Type} (this : A -> nat) (xs : list A) : grown this xs xs.
Proof.
  exists xs, []. rewrite app_nil_r. split; [reflexivity|]. split; [reflexivity|].
  intros i x Hx. exists x. auto.
Qed.

Lemma grown_step {A : Type} (this : A -> nat) (id : A -> Z) (base : Z)
  (xs ys ys' : list A) :
  grown this xs ys -> table_step this id base ys ys' -> grown this xs ys'.
Proof.
  intros Hg [->|(x & -> & _)]; [exact Hg|].
  destruct Hg as (y1 & y2 & -> & Hlen & Hg).
  exists (written this x <$> y1), ((written this x <$> y2) ++ [x]).
  split; [rewrite fmap_app, app_assoc; reflexivity|].
  split; [rewrite length_fmap; exact Hlen|].
  intros i a Ha. destruct (Hg i a Ha) as (a' & Ha' & Hthis & Hfresh).
  exists (written this x a'). split; [rewrite list_lookup_fmap, Ha'; reflexivity|].
  split; [rewrite written_this; exact Hthis|].
  intros Hall. apply Forall_app in Hall. destruct Hall as [Hall2 Hallx].
  apply Forall_inv in Hallx. cbn in Hallx.
  rewrite written_other by (rewrite Hthis; exact (not_eq_sym Hallx)).
  apply Hfresh.
  apply Forall_lookup. intros k y Hy.
  rewrite Forall_lookup in Hall2. specialize (Hall2 k (written this x y)).
  rewrite list_lookup_fmap, Hy in Hall2. specialize (Hall2 eq_refl).
  cbn in Hall2. rewrite written_this in Hall2. exact Hall2.
Qed.

(** X18.  Registrations are never lost or moved.  If the tables hold
    pointers to the publishers [ps] and the receivers [rs] contiguously, then
    after any sequence of [spinOnce], [advertise], [registerReceiver], [log],
    [now] and [requestParam] calls they are still contiguous, every slot
    that was occupied points to the same object as before, and it shows
    that object unchanged, identifier included, unless the object is among
    those registered behind it since. *)
Theorem registrations_persist (ps : list Publisher) (rs : list MsgReceiver)
  (nh nh' : NodeHandle) :
  rtc op_step nh nh' -> registry_holds ps rs nh ->
  exists ps' rs',
    registry_holds ps' rs' nh' /\
    grown pub_this ps ps' /\ grown rcv_this rs rs'.
Proof.
  intros Hrun Hh. revert nh' Hrun. apply rtc_ind_r.
  - exists ps, rs. split; [exact Hh|]. split; apply grown_refl.
  - intros b c _ Hbc (ps1 & rs1 & Hh1 & Gp & Gr).
    destruct (op_step_tables ps1 rs1 b c Hbc Hh1) as (ps2 & rs2 & Hh2 & Sp & Sr).
    exists ps2, rs2. split; [exact Hh2|]. split.
    + eapply grown_step; [exact Gp | exact Sp].
    + eapply grown_step; [exact Gr | exact Sr].
Qed.

Lemma ctor_registry (raw : NodeHandle) (hardware : Hardware) :
  publishers raw = replicate (Z.to_nat kMaxPublishers) None ->
  receivers raw = replicate (Z.to_nat kMaxSubscribers) None ->
  registry_ok [] [] (NodeHandle_ctor raw hardware).
Proof.
  intros Hp Hr. unfold registry_ok, slots. cbn. rewrite Hp, Hr, !Nat.sub_0_r.
  repeat split; try lia; intros i x H; discriminate H.
Qed.


(** X20.  No operation of the handle lowers an error counter, and as long
    as the counts fit in an [int] the getters show it: across any sequence
    of [spinOnce], [advertise], [registerReceiver], [log], [now] and
    [requestParam] calls that leaves the four counters in the range of
    [int], each getter returns at least what it returned before.  (Beyond
    that range [++] on an [int] is undefined, and nothing is said.) *)
Theorem error_counters_never_decrease (nh nh' : NodeHandle) :
  1 <= int_bits -> rtc op_step nh nh' ->
  is_int (invalid_size_error_count_ nh) -> is_int (invalid_size_error_count_ nh') ->
  is_int (checksum_error_count_ nh) -> is_int (checksum_error_count_ nh') ->
  is_int (state_error_count_ nh) -> is_int (state_error_count_ nh') ->
  is_int (malformed_message_error_count_ nh) ->
  is_int (malformed_message_error_count_ nh') ->
  getInvalidSizeErrorCount nh <= getInvalidSizeErrorCount nh' /\
  getChecksumErrorCount nh <= getChecksumErrorCount nh' /\
  getStateErrorCount nh <= getStateErrorCount nh' /\
  getMalformedMessageErrorCount nh <= getMalformedMessageErrorCount nh'.
Proof.
  intros Hb H I1 I1' I2 I2' I3 I3' I4 I4'. apply run_counters in H.
  unfold getInvalidSizeErrorCount, getChecksumErrorCount, getStateErrorCount,
    getMalformedMessageErrorCount.
  rewrite !to_int_id by assumption. exact H.
Qed.

(** ** The parameter request *)

Lemma answer_tracked_trans (a b c : NodeHandle) :
  answer_tracked a b -> answer_tracked b c -> answer_tracked a c.
Proof.
  intros (e1 & H1 & P1) (e2 & H2 & P2). exists (e1 ++ e2).
  split; [rewrite H2, H1, app_assoc; reflexivity|].
  intros Hc. destruct (P2 Hc) as [Hb|(p & Hp)].
  - destruct (P1 Hb) as [Ha|(p & Hp)]; [left; exact Ha|].
    right. exists p. apply in_or_app. left. exact Hp.
  - right. exists p. apply in_or_app. right. exact Hp.
Qed.

Lemma answer_tracked_same (nh nh' : NodeHandle) :
  trace nh' = trace nh -> param_received_ nh' = param_received_ nh ->
  answer_tracked nh nh'.
Proof.
  intros Ht Hp. exists []. rewrite app_nil_r. split; [exact Ht|].
  rewrite Hp. auto.
Qed.

Lemma dispatch_param_received (nh : NodeHandle) :
  param_received_ (dispatch nh) = param_received_ nh \/
  topic_ nh = ID_PARAMETER_REQUEST.
Proof.
  unfold dispatch. cbn [topic_ emit set_trace].
  destruct (topic_ nh =? TOPIC_NEGOTIATION).
  { left. unfold_handle_ops. cbn. destruct (time_sync_start_ nh >? 0); reflexivity. }
  destruct (topic_ nh =? ID_TIME).
  { left. unfold_handle_ops. cbn.
    destruct (deserialize _ _ _) as [rc tm]. destruct (rc <? 0); reflexivity. }
  destruct (Z.eqb_spec (topic_ nh) ID_PARAMETER_REQUEST) as [E|E]; [right; exact E|].
  left. cbn [receivers message_in data_index_ emit set_trace].
  match goal with
  | |- context [if ?c then receivers nh !! ?i else None] =>
      destruct (if c then receivers nh !! i else None) as [[r|]|]
  end; cbn; try destruct (negb _); reflexivity.
Qed.

Lemma ingest_answer_tracked (b : Z) (nh : NodeHandle) :
  answer_tracked nh (ingest b nh).
Proof.
  destruct (state_ nh) eqn:Est.
  8: { destruct (Z.eq_dec (Z.rem (checksum_ nh + b) 256) 255) as [E|E].
       - rewrite (ingest_checksum_success b nh Est E).
         set (nh1 := set_checksum_ (checksum_ nh + b) nh).
         destruct (dispatch_summary nh1) as ((evs & Htr & _) & _).
         exists (EvFrameReady (topic_ nh1) (payload_in nh1) :: evs).
         split; [exact Htr|].
         change (param_received_ (reset (dispatch nh1)))
           with (param_received_ (dispatch nh1)).
         destruct (dispatch_param_received nh1) as [Hp|Ht].
         + rewrite Hp. intros H. left. exact H.
         + intros _. right. exists (payload_in nh1). left. rewrite Ht. reflexivity.
       - rewrite (ingest_checksum_failure b nh Est E).
         apply answer_tracked_same; reflexivity. }
  all: destruct (ingest_summary b nh) as ((evs & Htr) & _);
    exists evs; (split; [exact Htr|]); intros H; left; revert H;
    unfold ingest; cbn [state_ set_checksum_]; rewrite Est;
    unfold store, emit, reset; cbn;
    repeat match goal with |- context [if ?c then _ else _] => destruct c end;
    cbn; auto.
Qed.

Lemma spin_loop_answer_tracked (n : nat) :
  forall (byte_count : Z) (nh : NodeHandle),
  answer_tracked nh (snd (spin_loop n byte_count nh)).
Proof.
  induction n as [|n IH]; intros c nh; [apply answer_tracked_same; reflexivity|].
  cbn [spin_loop]. rewrite read_spec. cbv zeta.
  destruct (hw_rx (hardware_ nh)) as [|b rest];
    [apply answer_tracked_same; reflexivity|].
  destruct (b <? 0); [apply answer_tracked_same; reflexivity|].
  match goal with |- context [ingest b ?x] => set (nh1 := x) end.
  eapply answer_tracked_trans; [|apply IH].
  eapply answer_tracked_trans; [|apply ingest_answer_tracked].
  apply answer_tracked_same; reflexivity.
Qed.

Lemma check_connection_answer_tracked (t : Z) (nh : NodeHandle) :
  answer_tracked nh (check_connection t nh).
Proof.
  destruct (check_connection_summary t nh) as ((evs & Htr) & _).
  exists evs. split; [exact Htr|]. intros H. left. revert H.
  unfold check_connection.
  destruct (connected_ nh); [|auto].
  destruct (ulong (t - time_sync_end_ nh) >? kConnectionTimeout);
    unfold_handle_ops; cbn;
    destruct (ulong (t - time_sync_end_ nh) >? kSyncPeriod); cbn;
    try destruct (time_sync_start_ nh >? 0); cbn; auto.
Qed.

Lemma spinOnce_answer_tracked (nh : NodeHandle) :
  answer_tracked nh (snd (spinOnce nh)).
Proof.
  rewrite spinOnce_unfold.
  eapply answer_tracked_trans; [|apply spin_loop_answer_tracked].
  eapply answer_tracked_trans; [|apply check_connection_answer_tracked].
  apply answer_tracked_same; reflexivity.
Qed.

Lemma requestParam_wait_answer (fuel : nat) (start_time time_out : Z) :
  forall (nh nh' : NodeHandle) (ok : bool),
  requestParam_wait fuel start_time time_out nh = Some (ok, nh') ->
  answer_tracked nh nh' /\ (ok = true -> param_received_ nh' = true).
Proof.
  induction fuel as [|fuel IH]; intros nh nh' ok; cbn [requestParam_wait].
  - destruct (param_received_ nh) eqn:E; [|discriminate].
    intros [= <- <-]. split; [apply answer_tracked_same; reflexivity|auto].
  - destruct (param_received_ nh) eqn:E.
    { intros [= <- <-]. split; [apply answer_tracked_same; reflexivity|auto]. }
    pose proof (spinOnce_answer_tracked nh) as Hs.
    destruct (spinOnce nh) as [count nh1]. cbn [snd] in Hs.
    unfold time. cbn [Hardware_time].
    destruct (_ >? ulong time_out).
    + intros [= <- <-]. split; [|discriminate].
      eapply answer_tracked_trans; [exact Hs|].
      apply answer_tracked_same; reflexivity.
    + intros H. apply IH in H. destruct H as [H Hok]. split; [|exact Hok].
      eapply answer_tracked_trans; [exact Hs|].
      eapply answer_tracked_trans; [|exact H].
      apply answer_tracked_same; reflexivity.
Qed.

(** The handle does not read its own output: what was published so far
    has no influence on what an operation does. *)
Lemma untraced_inv (a b : NodeHandle) :
  untraced a = untraced b -> b = set_trace (trace b) a.
Proof.
  destruct a, b. unfold untraced. cbn. intros [=]. subst. reflexivity.
Qed.

Lemma dispatch_untraced (t : list Event) (nh : NodeHandle) :
  untraced (dispatch (set_trace t nh)) = untraced (dispatch nh).
Proof.
  unfold untraced, dispatch. cbn [topic_ emit set_trace].
  destruct (topic_ nh =? TOPIC_NEGOTIATION).
  { unfold_handle_ops. cbn. destruct (time_sync_start_ nh >? 0); reflexivity. }
  destruct (topic_ nh =? ID_TIME).
  { unfold_handle_ops. cbn.
    destruct (deserialize _ _ _) as [rc tm]. destruct (rc <? 0); reflexivity. }
  destruct (topic_ nh =? ID_PARAMETER_REQUEST).
  { cbn. destruct (deserialize _ _ _) as [rc resp]. destruct (rc >=? 0); reflexivity. }
  unfold payload_in. cbn.
  match goal with
  | |- context [if ?c then receivers nh !! ?i else None] =>
      destruct (if c then receivers nh !! i else None) as [[r|]|]
  end; try destruct (negb _); reflexivity.
Qed.

Lemma ingest_untraced (b : Z) (t : list Event) (nh : NodeHandle) :
  untraced (ingest b (set_trace t nh)) = untraced (ingest b nh).
Proof.
  destruct (state_ nh) eqn:Est.
  8: { destruct (Z.eq_dec (Z.rem (checksum_ nh + b) 256) 255) as [E|E].
       - rewrite (ingest_checksum_success b nh Est E).
         rewrite (ingest_checksum_success b (set_trace t nh) Est E).
         change (set_checksum_ (checksum_ (set_trace t nh) + b) (set_trace t nh))
           with (set_trace t (set_checksum_ (checksum_ nh + b) nh)).
         change (untraced (reset ?x)) with (reset (untraced x)).
         rewrite dispatch_untraced. reflexivity.
       - rewrite (ingest_checksum_failure b nh Est E).
         rewrite (ingest_checksum_failure b (set_trace t nh) Est E).
         reflexivity. }
  all: unfold untraced, ingest; cbn [state_ set_checksum_ set_trace];
    rewrite Est; unfold store, emit, reset; cbn;
    repeat match goal with |- context [if ?c then _ else _] => destruct c end;
    reflexivity.
Qed.

Lemma spin_loop_untraced (n : nat) :
  forall (byte_count : Z) (a b : NodeHandle),
  untraced a = untraced b ->
  fst (spin_loop n byte_count a) = fst (spin_loop n byte_count b) /\
  untraced (snd (spin_loop n byte_count a))
  = untraced (snd (spin_loop n byte_count b)).
Proof.
  induction n as [|n IH]; intros c a b H; [split; [reflexivity|exact H]|].
  pose proof (untraced_inv a b H) as E. revert E. generalize (trace b).
  intros t ->. clear H.
  cbn [spin_loop]. rewrite !read_spec. cbn [hardware_ set_trace]. cbv zeta.
  destruct (hw_rx (hardware_ a)) as [|x rest]; [split; reflexivity|].
  destruct (x <? 0); [split; reflexivity|].
  apply IH. symmetry.
  match goal with |- context [ingest x (set_hardware_ ?hw a)] =>
    exact (ingest_untraced x t (set_hardware_ hw a))
  end.
Qed.

Lemma check_connection_untraced (now_ms : Z) (t : list Event) (nh : NodeHandle) :
  untraced (check_connection now_ms (set_trace t nh))
  = untraced (check_connection now_ms nh).
Proof.
  unfold untraced, check_connection. cbn [connected_ set_trace].
  destruct (connected_ nh); [|reflexivity].
  cbn [time_sync_end_ set_trace].
  destruct (ulong (now_ms - time_sync_end_ nh) >? kConnectionTimeout);
    unfold_handle_ops; cbn;
    destruct (ulong (now_ms - time_sync_end_ nh) >? kSyncPeriod); cbn;
    try destruct (time_sync_start_ nh >? 0); reflexivity.
Qed.

Lemma spinOnce_untraced (a b : NodeHandle) :
  untraced a = untraced b ->
  fst (spinOnce a) = fst (spinOnce b) /\
  untraced (snd (spinOnce a)) = untraced (snd (spinOnce b)).
Proof.
  intros H. pose proof (untraced_inv a b H) as E. revert E.
  generalize (trace b). intros t ->. clear H.
  rewrite !spinOnce_unfold. apply spin_loop_untraced. symmetry.
  exact (check_connection_untraced (fst (time a)) t (snd (time a))).
Qed.

Lemma requestParam_wait_untraced (fuel : nat) (start_time time_out : Z) :
  forall (a b a' : NodeHandle) (ok : bool),
  untraced a = untraced b ->
  requestParam_wait fuel start_time time_out a = Some (ok, a') ->
  exists b', requestParam_wait fuel start_time time_out b = Some (ok, b') /\
             untraced a' = untraced b'.
Proof.
  induction fuel as [|fuel IH]; intros a b a' ok H; cbn [requestParam_wait];
    assert (Hp : param_received_ b = param_received_ a)
      by (apply (f_equal param_received_) in H; symmetry; exact H);
    rewrite Hp.
  - destruct (param_received_ a); [|discriminate].
    intros [= <- <-]. exists b. auto.
  - destruct (param_received_ a); [intros [= <- <-]; exists b; auto|].
    destruct (spinOnce_untraced a b H) as [_ Hs].
    destruct (spinOnce a) as [ca a1]. destruct (spinOnce b) as [cb b1].
    cbn [snd] in Hs.
    assert (Hhw : hardware_ b1 = hardware_ a1)
      by (apply (f_equal hardware_) in Hs; symmetry; exact Hs).
    unfold time. cbn [Hardware_time]. rewrite Hhw.
    match goal with |- context [set_hardware_ ?hw a1] =>
      assert (Hs' : untraced (set_hardware_ hw a1) = untraced (set_hardware_ hw b1))
        by exact (f_equal (set_hardware_ hw) Hs)
    end.
    destruct (_ >? ulong time_out).
    + intros [= <- <-]. eexists. split; [reflexivity | exact Hs'].
    + apply IH. exact Hs'.
Qed.

(** X21.  [requestParam] clears [param_received_] before anything else, so
    its outcome does not depend on the flag an earlier response left.  It
    then publishes the request for [name] on the parameter topic, whatever
    the outcome, and it returns true only when, during the call and after
    that request, a checksum-valid frame on the parameter topic was
    dispatched; [param_received_] is then set.  The response is not matched
    to the request: with any other name the call has the same outcome and
    leaves the same handle apart from what it published, so a response to
    an earlier request that arrives during the call, or still waits on the
    port, is taken for the answer. *)
Theorem requestParam_true_only_on_response (fuel : nat) (name : string)
  (time_out : Z) (nh nh' : NodeHandle) (ok : bool) :
  requestParam fuel name time_out nh = Some (ok, nh') ->
  (exists evs,
     trace nh'
     = trace nh ++ EvPublish ID_PARAMETER_REQUEST (MsgRequestParam name) :: evs /\
     (ok = true ->
      param_received_ nh' = true /\
      exists payload, In (EvFrameReady ID_PARAMETER_REQUEST payload) evs)) /\
  (forall flag : bool,
     requestParam fuel name time_out (set_param_received_ flag nh)
     = Some (ok, nh')) /\
  (forall other : string,
     exists nh'',
       requestParam fuel other time_out nh = Some (ok, nh'') /\
       untraced nh'' = untraced nh').
Proof.
  intros Hreq. split; [|split].
  - unfold requestParam in Hreq. apply requestParam_wait_answer in Hreq.
    destruct Hreq as ((evs & Htr & Hp) & Hok).
    cbn [trace time publish emit set_trace set_param_received_ Hardware_time
         set_hardware_ param_received_] in Htr, Hp.
    exists evs. split; [rewrite Htr, <- app_assoc; reflexivity|].
    intros E. specialize (Hok E). split; [exact Hok|].
    destruct (Hp Hok) as [Hf|Hx]; [discriminate Hf | exact Hx].
  - intros flag. exact Hreq.
  - intros other. unfold requestParam in *.
    cbn [time publish emit Hardware_time fst snd] in *.
    eapply requestParam_wait_untraced in Hreq; [|shelve].
    destruct Hreq as (b' & Hb & Hu). exists b'. split; [exact Hb|].
    symmetry. exact Hu.
    Unshelve. reflexivity.
Qed.

Lemma requestParam_wait_late (fuel : nat) (start_time time_out : Z)
  (nh : NodeHandle) :
  param_received_ nh = false ->
  (forall k, (hw_time_calls (hardware_ nh) < k)%nat ->
     ulong time_out
     < ulong (ulong (hw_clock (hardware_ nh) k) - start_time)) ->
  exists nh', requestParam_wait (S fuel) start_time time_out nh = Some (false, nh').
Proof.
  intros Hp Hlate. cbn [requestParam_wait]. rewrite Hp.
  destruct (spinOnce_clock nh) as [Hc1 Hn1].
  destruct (spinOnce nh) as [count nh1]. cbn [snd] in Hc1, Hn1.
  unfold time, Hardware_time. rewrite Hc1.
  specialize (Hlate _ Hn1). apply Z.gtb_lt in Hlate. rewrite Hlate. eauto.
Qed.

(** X22.  The wait of [requestParam] ends: once every reading of the clock
    from some point on is past the deadline, the call returns within the
    iterations that bring the count of readings to that point.  And when the
    deadline has passed at every reading after the start, the call returns
    false after its first [spinOnce], whatever that [spinOnce] received. *)
Theorem requestParam_gives_up_at_deadline (name : string) (time_out : Z)
  (N : nat) (fuel : nat) (nh : NodeHandle) :
  let start_time := ulong (hw_clock (hardware_ nh) (hw_time_calls (hardware_ nh))) in
  (forall k, (N <= k)%nat ->
     ulong time_out < ulong (ulong (hw_clock (hardware_ nh) k) - start_time)) ->
  (1 <= fuel)%nat -> (N <= hw_time_calls (hardware_ nh) + fuel)%nat ->
  (exists ok nh', requestParam fuel name time_out nh = Some (ok, nh')) /\
  ((N <= S (hw_time_calls (hardware_ nh)))%nat ->
   exists nh', requestParam fuel name time_out nh = Some (false, nh')).
Proof.
  intros start_time Hlate Hfuel HN. split.
  - eapply requestParam_terminates; eassumption.
  - intros Hnow. unfold requestParam.
    cbn [time Hardware_time publish emit set_param_received_ set_trace hardware_].
    destruct fuel as [|fuel]; [lia|].
    apply requestParam_wait_late; [reflexivity|].
    cbn. intros k Hk. apply Hlate. lia.
Qed.

(** ** Start-up *)

(** X23.  Start-up as in time_test.cpp: a handle constructed in storage
    whose registry tables are zeroed (the global [nh]) and one [advertise]
    (the sketch's [setup]).  The publisher gets slot 0 and the identifier
    100 + [kMaxSubscribers], the handle is not yet connected, and the
    catalogue a negotiation request is answered with is that one publisher's
    topic-info record and nothing else. *)
Theorem construct_advertise_negotiate (raw : NodeHandle) (hardware : Hardware)
  (publisher : Publisher) :
  publishers raw = replicate (Z.to_nat kMaxPublishers) None ->
  receivers raw = replicate (Z.to_nat kMaxSubscribers) None ->
  0 < kMaxPublishers ->
  let nh := NodeHandle_ctor raw hardware in
  let p := Publisher_setId (100 + kMaxSubscribers) publisher in
  advertise publisher nh = (true, p, set_publishers (slots kMaxPublishers [p]) nh) /\
  connected (snd (advertise publisher nh)) = false /\
  trace (negotiateTopics (snd (advertise publisher nh)))
  = [EvPublish TOPIC_PUBLISHERS
       (MsgTopicInfo (100 + kMaxSubscribers) (pub_topic_name publisher)
          (pub_message_type publisher))].
Proof.
  intros Hp Hr Hmax nh p.
  pose proof (ctor_registry raw hardware Hp Hr) as Hok. fold nh in Hok.
  destruct (advertise_registry [] [] publisher nh Hok (Forall_nil_2 _)
              ltac:(cbn; lia)) as [Hadv Hok'].
  cbn [length Nat.add app] in Hadv, Hok'.
  change (Z.of_nat 0 + 100 + kMaxSubscribers) with (100 + kMaxSubscribers) in *.
  fold p in Hadv, Hok'. split; [exact Hadv|]. split.
  - rewrite Hadv. reflexivity.
  - rewrite negotiateTopics_spec. cbn [trace set_trace].
    rewrite (catalogue_registry [p] [] _ Hok'). rewrite Hadv. reflexivity.
Qed.

End Reception.

(** ** Scenarios *)

Module Scenarios.

Import Sketch.

(** The identifiers the registry hands out: publishers from 100 +
    [kMaxSubscribers], receivers from 100. *)
Example sketch_registry :
  publishers (sketch (port (stopped 0) []))
  = [Some {| pub_this := 0; pub_id := 104; pub_topic_name := "/foo";
             pub_message_type := "std_msgs/Int32" |}; None; None; None] /\
  map (fmap rcv_id) (receivers (sketch (port (stopped 0) []))) = [Some 100; None; None; None].
Proof. split; vm_compute; reflexivity. Qed.

(** S2 and S3: a frame for the receiver in slot 0, and the same frame with
    the checksum byte off by one. *)
Example subscriber_frame :
  trace (feed [255; 255; 100; 0; 1; 0; 0; 154] (sketch (port (stopped 0) [])))
  = [EvStore 0 0; EvFrameReady 100 [0]; EvReceive 0 [0]].
Proof. vm_compute; reflexivity. Qed.

(** A checksum-valid frame on a topic nobody listens to is what moves the
    checksum-error counter. *)
Example unknown_topic_counted :
  checksum_error_count_
    (feed (frame 50 [] 205) (sketch (port (stopped 0) []))) = 1.
Proof. vm_compute; reflexivity. Qed.

(** S5: negotiation after one advertise and one subscribe. *)
Example negotiation_trace :
  trace (feed (frame 0 [] 255) (sketch (port (stopped 7) [])))
  = [EvFrameReady 0 [];
     EvPublish 10 (MsgTime std_msgs_Time_default);
     EvPublish 0 (MsgTopicInfo 104 "/foo" "std_msgs/Int32");
     EvPublish 1 (MsgTopicInfo 100 "/bar" "std_msgs/Float32")].
Proof. vm_compute; reflexivity. Qed.

Example synced_long_ago_state :
  connected synced_long_ago = true /\ time_sync_end_ synced_long_ago = 0 /\
  time_sync_start_ synced_long_ago = 0 /\
  sync_time_ synced_long_ago = {| sec := 1; nsec := 2 |}.
Proof. repeat split; vm_compute; reflexivity. Qed.

(** C3.  The frame of S3 (topic 100, payload 00, checksum byte 9B where 9A
    is due) fed to a handle with a receiver in slot 0: the frame is dropped
    and the machine reset, without dispatch or receiver call, and the
    checksum-error counter is still 0: the code never counts a checksum
    failure. *)
Theorem checksum_failure_not_counted :
  let nh := sketch (port (stopped 0) []) in
  let nh' := feed [255; 255; 100; 0; 1; 0; 0; 155] nh in
  getChecksumErrorCount nh = 0 /\ getChecksumErrorCount nh' = 0 /\
  state_ nh' = STATE_FIRST_FF /\
  List.filter (fun e => is_frame_ready e || is_receive e) (trace nh') = [].
Proof. repeat split; vm_compute; reflexivity. Qed.

(** C6.  A handle constructed in storage with leftover contents reports a
    negative framing-state counter: the constructor initialises the other
    three counters and leaves this one out. *)
Theorem state_error_count_not_initialised :
  let nh := NodeHandle_ctor stale_storage (port (stopped 0) []) in
  getStateErrorCount nh = -1 /\
  getInvalidSizeErrorCount nh = 0 /\ getChecksumErrorCount nh = 0 /\
  getMalformedMessageErrorCount nh = 0.
Proof. repeat split; vm_compute; reflexivity. Qed.

(** C2 as worded fails in its second half: behind a header that declares
    513 payload bytes the machine, reset, parses the payload as a stream of
    its own; a payload that begins with a well-formed frame for the
    receiver in slot 0 has that frame's two bytes stored (within bounds) and
    delivered. *)
Lemma oversize_payload_not_stored_counterexample :
  let nh := sketch (port (stopped 0) []) in
  let payload := frame 100 [170; 187] 52 ++ replicate 504 0 in
  state_ nh = STATE_FIRST_FF /\ rx_inv nh /\
  kInputSize < 1 + 256 * 2 /\ Z.of_nat (length payload) = 1 + 256 * 2 /\
  Forall is_byte payload /\
  ~ oversize_payload_not_stored 0 0 1 2 payload nh /\
  List.filter (fun e => is_store e || is_receive e)
    (trace (feed ([255; 255; 0; 0; 1; 2] ++ payload) nh))
  = [EvStore 0 170; EvStore 1 187; EvReceive 0 [170; 187]].
Proof.
  do 4 (split; [vm_compute; reflexivity|]).
  split; [|split; [|vm_compute; reflexivity]].
  - apply Forall_app. split; [repeat constructor; discriminate|].
    apply Forall_replicate. split; discriminate.
  - unfold oversize_payload_not_stored. intros H. vm_compute in H.
    discriminate H.
Qed.


(** C5 as stated fails: a checksum-valid time frame whose payload the codec
    rejects leaves the sync in flight and the synchronised time as it was. *)
Lemma time_sync_completed_counterexample :
  state_ (awaiting_checksum bad_time) = STATE_CHECKSUM /\
  topic_ (awaiting_checksum bad_time) = ID_TIME /\
  Z.rem (checksum_ (awaiting_checksum bad_time) + 240) 256 = 255 /\
  ~ time_sync_completed 240 (awaiting_checksum bad_time) /\
  time_sync_start_ (ingest 240 (awaiting_checksum bad_time)) = 7 /\
  sync_time_ (ingest 240 (awaiting_checksum bad_time)) = {| sec := 0; nsec := 0 |}.
Proof.
  do 3 (split; [vm_compute; reflexivity|]).
  split; [|split; vm_compute; reflexivity].
  intros (_ & _ & H & _). vm_compute in H. discriminate H.
Qed.

(** A time frame answered 10 ms after the request: the decoded timestamp is
    advanced by 5 ms and reported on the log topic. *)
Example time_sync_offset :
  let nh := ingest 234 (awaiting_checksum good_time) in
  time_sync_end_ nh = 17 /\ sync_time_ nh = {| sec := 1; nsec := 5000002 |} /\
  last (trace nh) = Some (EvPublish ID_LOG (MsgLog DEBUG "Time: 1 5000002")).
Proof. repeat split; vm_compute; reflexivity. Qed.

(** The theorems of the previous section at concrete handles and inputs. *)

Lemma frame_round_trip_witness :
  exists evs,
    trace (feed (frame 100 [0] 154) (sketch (port (stopped 0) [])))
    = trace (sketch (port (stopped 0) [])) ++ evs /\
    List.filter is_frame_ready evs = [EvFrameReady 100 [0]].
Proof.
  apply frame_round_trip.
  - vm_compute; reflexivity.
  - vm_compute; reflexivity.
  - vm_compute; reflexivity.
  - lia.
  - repeat constructor; discriminate.
  - vm_compute; discriminate.
  - vm_compute; reflexivity.
  - split; discriminate.
  - vm_compute; reflexivity.
Defined.

Lemma buffer_writes_in_bounds_witness :
  let nh := sketch (port (stopped 0) []) in
  let bytes := frame 100 [170; 187] 52 in
  let header := [255; 255; 0; 0; 1; 2] in
  (exists evs,
     trace (feed bytes nh) = trace nh ++ evs /\ Forall store_in_bounds evs /\
     List.filter is_store evs = [EvStore 0 170; EvStore 1 187]) /\
  state_ (feed header nh) = STATE_FIRST_FF /\
  invalid_size_error_count_ (feed header nh) = invalid_size_error_count_ nh + 1 /\
  message_in (feed header nh) = message_in nh /\
  trace (feed header nh) = trace nh /\
  feed (header ++ bytes) nh = feed bytes (feed header nh) /\
  (exists evs,
     trace (feed (header ++ bytes) nh) = trace nh ++ evs /\
     Forall store_in_bounds evs /\
     List.filter is_store evs = [EvStore 0 170; EvStore 1 187]).
Proof.
  intros nh bytes header.
  assert (Hinv : rx_inv nh) by (vm_compute; reflexivity).
  assert (Hb : Forall (fun b => 0 <= b) bytes)
    by (repeat constructor; discriminate).
  destruct (buffer_writes_in_bounds bytes nh Hinv Hb) as [Hstores Hover].
  split.
  - destruct Hstores as (evs & Htr & Hin). exists evs.
    split; [exact Htr|]. split; [exact Hin|].
    vm_compute in Htr. rewrite <- Htr. reflexivity.
  - destruct (Hover 0 0 1 2) as (_ & H1 & H2 & H3 & H4 & H5 & H6 & _).
    + vm_compute; reflexivity.
    + vm_compute; discriminate.
    + split; discriminate.
    + split; discriminate.
    + vm_compute; reflexivity.
    + do 5 (split; [assumption|]).
      destruct H6 as (evs & Htr & Hin). exists evs.
      split; [exact Htr|]. split; [exact Hin|].
      vm_compute in Htr. rewrite <- Htr. reflexivity.
Defined.


Lemma time_frame_completes_sync_witness :
  time_sync_completed 234 (awaiting_checksum good_time).
Proof.
  apply time_frame_completes_sync.
  - vm_compute; reflexivity.
  - vm_compute; reflexivity.
  - vm_compute; reflexivity.
  - vm_compute; discriminate.
Defined.

Lemma spinOnce_bounded_reads_witness :
  let nh := sketch (port (stopped 0) [255; 255; 100; 0; 1; 0; 0; 154]) in
  let rx := hw_rx (hardware_ nh) in
  let count := fst (spinOnce nh) in
  let nh' := snd (spinOnce nh) in
  0 <= count <= kMaxBytesPerSpin /\
  (Z.to_nat count <= length rx)%nat /\
  Forall (fun b => 0 <= b) (take (Z.to_nat count) rx) /\
  (count < kMaxBytesPerSpin ->
   match rx !! Z.to_nat count with Some b => b < 0 | None => True end /\
   hw_reads (hardware_ nh') = (hw_reads (hardware_ nh) + Z.to_nat count + 1)%nat /\
   hw_rx (hardware_ nh') = drop (Z.to_nat count + 1) rx) /\
  (count = kMaxBytesPerSpin ->
   hw_reads (hardware_ nh') = (hw_reads (hardware_ nh) + Z.to_nat count)%nat /\
   hw_rx (hardware_ nh') = drop (Z.to_nat count) rx).
Proof.
  apply (spinOnce_bounded_reads
           (sketch (port (stopped 0) [255; 255; 100; 0; 1; 0; 0; 154]))).
  vm_compute; discriminate.
Defined.

Lemma negotiation_frame_publishes_catalogue_witness :
  let nh := feed [255; 255; 0; 0; 0; 0] (sketch (port (stopped 7) [])) in
  trace (ingest 255 nh)
  = trace nh
    ++ [EvFrameReady TOPIC_NEGOTIATION (payload_in nh)]
    ++ (if time_sync_start_ nh >? 0 then []
        else [EvPublish ID_TIME (MsgTime std_msgs_Time_default)])
    ++ map (fun p => EvPublish TOPIC_PUBLISHERS
                       (MsgTopicInfo (pub_id p) (pub_topic_name p)
                          (pub_message_type p)))
         (occupied (take (Z.to_nat kMaxPublishers) (publishers nh)))
    ++ map (fun r => EvPublish TOPIC_SUBSCRIBERS
                       (MsgTopicInfo (rcv_id r) (rcv_topic_name r)
                          (rcv_message_type r)))
         (occupied (take (Z.to_nat kMaxSubscribers) (receivers nh))) /\
  time_sync_start_ (ingest 255 nh)
  = (if time_sync_start_ nh >? 0 then time_sync_start_ nh
     else ulong (hw_clock (hardware_ nh) (hw_time_calls (hardware_ nh)))).
Proof.
  apply (negotiation_frame_publishes_catalogue 255
           (feed [255; 255; 0; 0; 0; 0] (sketch (port (stopped 7) []))));
    vm_compute; reflexivity.
Defined.

Lemma time_frame_marks_connected_witness :
  let nh := awaiting_checksum bad_time in
  let t := ulong (hw_clock (hardware_ nh) (hw_time_calls (hardware_ nh))) in
  connected (ingest 240 nh) = true /\
  (forall n byte_count,
     connected (snd (spin_loop n byte_count (ingest 240 nh))) = true) /\
  (fst (deserialize std_msgs_Time_default (message_in nh) kInputSize) < 0 ->
   time_sync_end_ (ingest 240 nh) = t /\
   sync_time_ (ingest 240 nh) = sync_time_ nh /\
   time_sync_start_ (ingest 240 nh) = time_sync_start_ nh).
Proof.
  apply (time_frame_marks_connected 240 (awaiting_checksum bad_time));
    vm_compute; reflexivity.
Defined.

Example getParam_int_copies :
  fst <$> getParam_int 1 "gains" [0; 0; 0] 2 asking = Some (true, [11; 22; 0]) /\
  fst <$> getParam_int 1 "gains" [0; 0; 0] 3 asking = Some (false, [0; 0; 0]).
Proof. split; vm_compute; reflexivity. Qed.

(** With a silent host the request gives up once the clock is a second
    past its start. *)
Example requestParam_times_out :
  fst <$> requestParam 60 "gains" 1000 (sketch (port ticking [])) = Some false /\
  fst <$> getParam_int 60 "gains" [0; 0; 0] 2 (sketch (port ticking []))
  = Some (false, [0; 0; 0]).
Proof. split; vm_compute; reflexivity. Qed.

Lemma getParam_writes_iff_request_and_length_witness :
  let resp := req_param_resp answered in
  (exists param',
     getParam_int 1 "gains" [0; 0; 0] 2 asking
     = Some (true && (2 =? ints_length resp), param', answered) /\
     (true && (2 =? ints_length resp) = false -> param' = [0; 0; 0]) /\
     (true && (2 =? ints_length resp) = true ->
      (length (ints resp) <= length [0; 0; 0])%nat ->
      param' = ints resp ++ drop (length (ints resp)) [0; 0; 0])) /\
  (exists param',
     getParam_float 1 "gains" [] 2 asking
     = Some (true && (2 =? floats_length resp), param', answered) /\
     (true && (2 =? floats_length resp) = false -> param' = []) /\
     (true && (2 =? floats_length resp) = true ->
      (length (floats resp) <= length (@nil float32))%nat ->
      param' = floats resp ++ drop (length (floats resp)) [])) /\
  (exists param',
     getParam_string 1 "gains" [] 2 asking
     = Some (true && (2 =? strings_length resp), param', answered) /\
     (true && (2 =? strings_length resp) = false -> param' = []) /\
     (true && (2 =? strings_length resp) = true ->
      (length (strings resp) <= length (@nil string))%nat ->
      param' = strings resp ++ drop (length (strings resp)) [])).
Proof.
  apply (getParam_writes_iff_request_and_length 1 "gains" 2 asking answered true
           [0; 0; 0] [] []).
  vm_compute; reflexivity.
Defined.

(** The further properties at concrete handles and inputs. *)

(** The registries of a constructed sketch: [foo] in publisher slot 0 with
    the identifier 104, [bar] in receiver slot 0 with the identifier 100. *)
Lemma sketch_registry_ok (hardware : Hardware) :
  registry_ok [Publisher_setId 104 foo] [MsgReceiver_setId 100 bar]
    (sketch hardware).
Proof.
  unfold registry_ok.
  split; [reflexivity|]. split; [vm_compute; lia|].
  split; [reflexivity|]. split; [vm_compute; lia|].
  split; [reflexivity|].
  split; intros [|i] x H; try discriminate H; injection H as <-; reflexivity.
Qed.


Lemma sketch_registry_holds (hardware : Hardware) :
  registry_holds [Publisher_setId 104 foo] [MsgReceiver_setId 100 bar]
    (sketch hardware).
Proof. apply registry_ok_holds, sketch_registry_ok. Qed.

Lemma garbage_only_counts_framing_errors_witness :
  let nh := sketch (port (stopped 0) []) in
  state_error_count_ (feed [1; 2; 3] nh) = 3 /\
  trace (feed [1; 2; 3] nh) = trace nh.
Proof.
  intros nh.
  destruct (garbage_only_counts_framing_errors [1; 2; 3] nh)
    as (_ & H & _ & _ & _ & Ht & _).
  - vm_compute; reflexivity.
  - repeat constructor; discriminate.
  - split; [rewrite H; vm_compute; reflexivity | exact Ht].
Defined.

Lemma resync_after_garbage_witness :
  let nh := sketch (port (stopped 0) []) in
  exists evs,
    trace (feed ([1; 2] ++ frame 100 [0] 154) nh) = trace nh ++ evs /\
    List.filter is_frame_ready evs = [EvFrameReady 100 [0]] /\
    state_error_count_ (feed ([1; 2] ++ frame 100 [0] 154) nh)
    = state_error_count_ nh + Z.of_nat (length [1; 2]).
Proof.
  apply resync_after_garbage.
  - vm_compute; reflexivity.
  - vm_compute; reflexivity.
  - vm_compute; reflexivity.
  - repeat constructor; discriminate.
  - lia.
  - repeat constructor; discriminate.
  - vm_compute; discriminate.
  - vm_compute; reflexivity.
  - split; discriminate.
  - vm_compute; reflexivity.
Defined.

Lemma corrupt_frame_not_delivered_witness :
  let nh := sketch (port (stopped 0) []) in
  trace (feed (frame 100 [0] 155) nh) = trace nh ++ [EvStore 0 0] /\
  state_ (feed (frame 100 [0] 155) nh) = STATE_FIRST_FF.
Proof.
  intros nh.
  destruct (corrupt_frame_not_delivered 100 [0] 155 nh) as (Ht & Hs & _).
  - vm_compute; reflexivity.
  - vm_compute; reflexivity.
  - vm_compute; reflexivity.
  - lia.
  - repeat constructor; discriminate.
  - vm_compute; discriminate.
  - vm_compute; reflexivity.
  - split; discriminate.
  - intros H; vm_compute in H; discriminate H.
  - split; [exact Ht | exact Hs].
Defined.

Lemma subscriber_frame_delivered_witness :
  let nh := feed [255; 255; 100; 0; 1; 0; 0] (sketch (port (stopped 0) [])) in
  trace (ingest 154 nh)
  = trace nh ++ [EvFrameReady (topic_ nh) (payload_in nh);
                 EvReceive (topic_ nh - 100) (payload_in nh)] /\
  state_ (ingest 154 nh) = STATE_FIRST_FF.
Proof.
  intros nh.
  destruct (subscriber_frame_delivered 154 nh (MsgReceiver_setId 100 bar))
    as (Ht & _ & _ & _ & _ & Hs & _).
  - vm_compute; reflexivity.
  - vm_compute; reflexivity.
  - vm_compute; discriminate.
  - vm_compute; reflexivity.
  - vm_compute; reflexivity.
  - split; [exact Ht | exact Hs].
Defined.

Lemma unknown_topic_frame_counted_witness :
  let nh := feed [255; 255; 50; 0; 0; 0] (sketch (port (stopped 0) [])) in
  trace (ingest 205 nh) = trace nh ++ [EvFrameReady (topic_ nh) (payload_in nh)] /\
  checksum_error_count_ (ingest 205 nh) = checksum_error_count_ nh + 1.
Proof.
  intros nh.
  destruct (unknown_topic_frame_counted 205 nh) as (Ht & Hc & _).
  - vm_compute; reflexivity.
  - vm_compute; reflexivity.
  - vm_compute; discriminate.
  - vm_compute; discriminate.
  - vm_compute; discriminate.
  - left. vm_compute; reflexivity.
  - split; [exact Ht | exact Hc].
Defined.

Lemma parameter_frame_decoded_witness :
  let nh := feed [255; 255; 6; 0; 3; 0; 2; 11; 22]
              (sketch (port (stopped 0) [])) in
  ints (req_param_resp (ingest 211 nh)) = [11; 22] /\
  param_received_ (ingest 211 nh) = true.
Proof.
  intros nh.
  destruct (parameter_frame_decoded 211 nh) as (Hr & Hp & _).
  - vm_compute; reflexivity.
  - vm_compute; reflexivity.
  - vm_compute; reflexivity.
  - split; [rewrite Hr | rewrite Hp]; vm_compute; reflexivity.
Defined.

Lemma spinOnce_receives_pending_frame_witness :
  fst (spinOnce asking) = Z.of_nat (length (frame 6 [2; 11; 22] 211)) /\
  exists evs,
    trace (snd (spinOnce asking)) = trace asking ++ evs /\
    List.filter is_frame_ready evs = [EvFrameReady 6 [2; 11; 22]].
Proof.
  apply (spinOnce_receives_pending_frame 6 [2; 11; 22] 211 [] asking).
  - vm_compute; reflexivity.
  - vm_compute; reflexivity.
  - vm_compute; reflexivity.
  - lia.
  - repeat constructor; discriminate.
  - vm_compute; discriminate.
  - vm_compute; reflexivity.
  - split; discriminate.
  - vm_compute; reflexivity.
  - vm_compute; reflexivity.
  - exact I.
  - vm_compute; discriminate.
Defined.

Lemma frame_split_over_two_spins_witness :
  let nh := sketch (port (stopped 0) ([255; 255; 100] ++ -1 :: [0; 1; 0; 0; 154] ++ [])) in
  let nh1 := snd (spinOnce nh) in
  let nh2 := snd (spinOnce nh1) in
  fst (spinOnce nh) = Z.of_nat (length [255; 255; 100]) /\
  fst (spinOnce nh1) = Z.of_nat (length [0; 1; 0; 0; 154]) /\
  (exists evs, trace nh1 = trace nh ++ evs /\ List.filter is_frame_ready evs = []) /\
  exists evs,
    trace nh2 = trace nh ++ evs /\
    List.filter is_frame_ready evs = [EvFrameReady 100 [0]].
Proof.
  apply (frame_split_over_two_spins 100 [0] 154 [255; 255; 100] [0; 1; 0; 0; 154]
           [] (-1)).
  - vm_compute; reflexivity.
  - vm_compute; reflexivity.
  - vm_compute; reflexivity.
  - lia.
  - repeat constructor; discriminate.
  - vm_compute; discriminate.
  - vm_compute; reflexivity.
  - split; discriminate.
  - vm_compute; reflexivity.
  - vm_compute; reflexivity.
  - vm_compute; reflexivity.
  - discriminate.
  - vm_compute; reflexivity.
  - lia.
  - exact I.
  - vm_compute; reflexivity.
  - vm_compute; discriminate.
Defined.

Lemma requestTimeSync_once_in_flight_witness :
  let nh := sketch (port ticking []) in
  requestTimeSync (requestTimeSync nh) = requestTimeSync nh.
Proof.
  intros nh.
  destruct (requestTimeSync_once_in_flight nh) as (_ & _ & H).
  apply H. right. vm_compute; reflexivity.
Defined.

Lemma housekeeping_idle_witness :
  let nh := feed [255; 255; 100] (sketch (port (stopped 0) [])) in
  check_connection 20000 nh = nh.
Proof.
  intros nh. apply housekeeping_idle. left. vm_compute; reflexivity.
Defined.

Lemma periodic_sync_request_witness :
  let nh := check_connection 6000 synced_long_ago in
  trace nh
  = trace synced_long_ago ++ [EvPublish ID_TIME (MsgTime std_msgs_Time_default)] /\
  connected_ nh = true.
Proof.
  intros nh.
  destruct (periodic_sync_request 6000 synced_long_ago) as (Ht & _ & Hc & _).
  - vm_compute; reflexivity.
  - split; [vm_compute; reflexivity | vm_compute; discriminate].
  - vm_compute; discriminate.
  - split; [exact Ht | exact Hc].
Defined.

(** [foo] advertised a second time: slot 1 takes it with the identifier
    105, and slot 0, which points to the same object, shows 105 as well. *)
Lemma advertise_takes_first_free_slot_witness :
  let nh := sketch (port (stopped 0) []) in
  let p := Publisher_setId 105 foo in
  advertise foo nh
  = (true, p, set_publishers (slots kMaxPublishers [p; p]) nh) /\
  publishers (snd (advertise foo nh)) !! 0%nat = Some (Some p).
Proof.
  intros nh p.
  destruct (advertise_takes_first_free_slot _ _ foo nh (sketch_registry_holds _))
    as [Hfree _].
  destruct Hfree as (Hadv & _ & Halias); [vm_compute; reflexivity|].
  split; [exact Hadv|].
  apply (Halias 0%nat (Publisher_setId 104 foo)); reflexivity.
Defined.

(** [bar] registered a second time: slot 1 takes it with the identifier
    101, and slot 0, which points to the same object, shows 101 as well. *)
Lemma registerReceiver_takes_next_slot_witness :
  let nh := sketch (port (stopped 0) []) in
  let r := MsgReceiver_setId 101 bar in
  fst (registerReceiver bar nh) = (true, r) /\
  total_receivers_ (snd (registerReceiver bar nh)) = 2 /\
  receivers (snd (registerReceiver bar nh)) !! 0%nat = Some (Some r) /\
  receivers (snd (registerReceiver bar nh)) !! 1%nat = Some (Some r).
Proof.
  intros nh r.
  destruct (registerReceiver_takes_next_slot _ _ bar nh (sketch_registry_holds _))
    as [Hfree _].
  destruct Hfree as (Hreg & _ & _ & Halias); [vm_compute; reflexivity|].
  split; [rewrite Hreg; reflexivity|]. split; [rewrite Hreg; reflexivity|].
  split; [apply (Halias 0%nat (MsgReceiver_setId 100 bar)); reflexivity|].
  rewrite Hreg. reflexivity.
Defined.


(** [foo] advertised twice and [bar] registered once, from construction. *)
Lemma registry_ids_distinct_witness :
  let nh0 := NodeHandle_ctor static_storage (port (stopped 0) []) in
  let nh := snd (registerReceiver bar (snd (advertise foo (snd (advertise foo nh0))))) in
  (forall p q,
     publishers nh !! 0%nat = Some (Some p) ->
     publishers nh !! 1%nat = Some (Some q) ->
     (pub_id p = pub_id q <-> pub_this p = pub_this q)) /\
  (forall r p,
     receivers nh !! 0%nat = Some (Some r) ->
     publishers nh !! 1%nat = Some (Some p) -> rcv_id r <> pub_id p).
Proof.
  intros nh0 nh.
  destruct (registry_ids_distinct static_storage (port (stopped 0) []) nh)
    as (Hp & _ & _ & _ & Hrp).
  - reflexivity.
  - reflexivity.
  - eapply rtc_l; [apply (step_advertise foo)|].
    eapply rtc_l; [apply (step_advertise foo)|].
    apply rtc_once. apply (step_registerReceiver bar).
  - split; [intros p q; apply Hp | intros r p; apply Hrp].
Defined.

Lemma reception_keeps_registries_witness :
  same_registry asking (snd (spinOnce asking)) /\
  match requestParam 2 "rate" 1000 asking with
  | Some (_, nh') => same_registry asking nh'
  | None => False
  end.
Proof.
  split.
  - exact (proj1 (reception_keeps_registries 0 "rate" 0 asking asking true)).
  - destruct (requestParam 2 "rate" 1000 asking) as [[ok nh']|] eqn:E.
    + exact (proj2 (reception_keeps_registries 2 "rate" 1000 asking nh' ok) E).
    + vm_compute in E. discriminate E.
Defined.

Lemma registrations_persist_witness :
  let nh := sketch (port (stopped 0) []) in
  exists ps' rs',
    registry_holds ps' rs' (snd (spinOnce (snd (advertise foo nh)))) /\
    grown pub_this [Publisher_setId 104 foo] ps' /\
    grown rcv_this [MsgReceiver_setId 100 bar] rs'.
Proof.
  intros nh.
  apply (registrations_persist _ _ nh); [|apply sketch_registry_holds].
  eapply rtc_l; [apply (step_advertise foo)|].
  apply rtc_once. apply step_spinOnce.
Defined.


Lemma error_counters_never_decrease_witness :
  let nh := sketch (port (stopped 0) [1; 255; 255; 50; 0; 0; 0; 205]) in
  getInvalidSizeErrorCount nh <= getInvalidSizeErrorCount (snd (spinOnce nh)) /\
  getChecksumErrorCount nh <= getChecksumErrorCount (snd (spinOnce nh)) /\
  getStateErrorCount nh <= getStateErrorCount (snd (spinOnce nh)) /\
  getMalformedMessageErrorCount nh
  <= getMalformedMessageErrorCount (snd (spinOnce nh)).
Proof.
  intros nh. apply error_counters_never_decrease.
  - vm_compute; discriminate.
  - apply rtc_once. apply step_spinOnce.
  - vm_compute. split; [discriminate | reflexivity].
  - vm_compute. split; [discriminate | reflexivity].
  - vm_compute. split; [discriminate | reflexivity].
  - vm_compute. split; [discriminate | reflexivity].
  - vm_compute. split; [discriminate | reflexivity].
  - vm_compute. split; [discriminate | reflexivity].
  - vm_compute. split; [discriminate | reflexivity].
  - vm_compute. split; [discriminate | reflexivity].
Defined.

(** The response is on the port before the request is made, and the call
    takes it for the answer. *)
Lemma requestParam_true_only_on_response_witness :
  match requestParam 2 "rate" 1000 asking with
  | Some (ok, nh') =>
      ok = true /\
      (exists evs,
         trace nh'
         = trace asking
           ++ EvPublish ID_PARAMETER_REQUEST (MsgRequestParam "rate") :: evs /\
         (ok = true ->
          param_received_ nh' = true /\
          exists payload, In (EvFrameReady ID_PARAMETER_REQUEST payload) evs)) /\
      requestParam 2 "rate" 1000 (set_param_received_ true asking)
      = Some (ok, nh') /\
      exists nh'',
        requestParam 2 "gain" 1000 asking = Some (ok, nh'') /\
        untraced nh'' = untraced nh'
  | None => False
  end.
Proof.
  destruct (requestParam 2 "rate" 1000 asking) as [[ok nh']|] eqn:E.
  - split.
    + vm_compute in E. injection E as <- _. reflexivity.
    + destruct (requestParam_true_only_on_response 2 "rate" 1000 asking nh' ok E)
        as (Htr & Hflag & Hname).
      split; [exact Htr|]. split; [apply Hflag | apply Hname].
  - vm_compute in E. discriminate E.
Defined.

Lemma requestParam_gives_up_at_deadline_witness :
  let nh := sketch (port (fun k => match k with O => 0 | _ => 15001 end) []) in
  (exists ok nh', requestParam 1 "rate" 1000 nh = Some (ok, nh')) /\
  ((1 <= S (hw_time_calls (hardware_ nh)))%nat ->
   exists nh', requestParam 1 "rate" 1000 nh = Some (false, nh')).
Proof.
  intros nh. apply (requestParam_gives_up_at_deadline "rate" 1000 1 1 nh).
  - intros [|k] Hk; [lia | vm_compute; reflexivity].
  - lia.
  - vm_compute. lia.
Defined.

Lemma construct_advertise_negotiate_witness :
  let nh := NodeHandle_ctor static_storage (port (stopped 0) []) in
  fst (fst (advertise foo nh)) = true /\
  trace (negotiateTopics (snd (advertise foo nh)))
  = [EvPublish TOPIC_PUBLISHERS (MsgTopicInfo 104 "/foo" "std_msgs/Int32")].
Proof.
  intros nh.
  destruct (construct_advertise_negotiate static_storage (port (stopped 0) []) foo)
    as (Hadv & _ & Htr).
  - reflexivity.
  - reflexivity.
  - vm_compute; reflexivity.
  - split; [fold nh in Hadv; rewrite Hadv; reflexivity | exact Htr].
Defined.

End Scenarios.
